(** * Sydney events scraper: ingestion engine

    A shallow embedding of the scraping and ingestion core
    ([app/scrapers/base.py], [app/scrapers/eventbrite.py],
    [app/scrapers/timeout.py], [app/scheduler.py], [app/models.py]) and
    the properties its specification states about it.

    Conventions.
    - A Python [datetime] is a [Z]: microseconds since 0001-01-01T00:00.
    - A Python [str] is a [string] of characters with code points
      below 256. White space is what [str.isspace] says on that range;
      [lower] and [capitalize] map the ASCII letters, which is what
      Python does on ASCII text.
    - Python values stored in a dict or in an ORM attribute are
      dynamically typed: [value].
    - Stateful code runs in the monad [M]: a function of the [World]
      (database table, clock, navigation log) that returns a result or a
      raised exception together with the new world. *)

From stdpp Require Import gmap strings list fin_maps pretty.
From Stdlib Require Import ZArith Ascii.

Local Open Scope Z_scope.

(** ** Python values, exceptions *)

Inductive value :=
  | VNone
  | VStr (s : string)
  | VTime (t : Z)
  | VInt (n : Z).

Global Instance value_eq_dec : EqDecision value.
Proof. solve_decision. Defined.

(** A candidate record: [Dict[str, Any]]. *)
Abbreviation Dict := (gmap string value).

Inductive exn :=
  | KeyError (key : string)
  | TypeError
  | ValueError
  | IntegrityError
  | StatementError
  | RuntimeError
  | OtherError (what : string).

Inductive Res (A : Type) :=
  | Ok (a : A)
  | Raise (e : exn).
Global Arguments Ok {A} a.
Global Arguments Raise {A} e.

Definition raised {A} (r : Res A) : bool :=
  match r with Ok _ => false | Raise _ => true end.

(** ** The [Event] model ([app/models.py]) *)

Record Event := mkEvent {
  event_id : value;
  title : value;
  date_time : value;
  location : value;
  description : value;
  ticket_url : value;
  image_url : value;
  source : value;
  created_at : value;
  updated_at : value;
  expires_at : value;
  click_count : value
}.

Global Instance Event_eq_dec : EqDecision Event.
Proof. solve_decision. Defined.

Inductive column :=
  | c_id | c_title | c_date_time | c_location | c_description
  | c_ticket_url | c_image_url | c_source | c_created_at | c_updated_at
  | c_expires_at | c_click_count.

Global Instance column_eq_dec : EqDecision column.
Proof. solve_decision. Defined.

Definition column_name (c : column) : string :=
  match c with
  | c_id => "id" | c_title => "title" | c_date_time => "date_time"
  | c_location => "location" | c_description => "description"
  | c_ticket_url => "ticket_url" | c_image_url => "image_url"
  | c_source => "source" | c_created_at => "created_at"
  | c_updated_at => "updated_at" | c_expires_at => "expires_at"
  | c_click_count => "click_count"
  end.

Definition all_columns : list column :=
  [c_id; c_title; c_date_time; c_location; c_description; c_ticket_url;
   c_image_url; c_source; c_created_at; c_updated_at; c_expires_at;
   c_click_count].

(** The mapped column an attribute name denotes, if any. *)
Definition column_of (key : string) : option column :=
  snd <$> list_find (λ c, column_name c = key) all_columns.

Definition getcol (e : Event) (c : column) : value :=
  match c with
  | c_id => event_id e | c_title => title e | c_date_time => date_time e
  | c_location => location e | c_description => description e
  | c_ticket_url => ticket_url e | c_image_url => image_url e
  | c_source => source e | c_created_at => created_at e
  | c_updated_at => updated_at e | c_expires_at => expires_at e
  | c_click_count => click_count e
  end.

Definition setcol (e : Event) (c : column) (v : value) : Event :=
  let pick c' := if decide (c = c') then v else getcol e c' in
  mkEvent (pick c_id) (pick c_title) (pick c_date_time) (pick c_location)
    (pick c_description) (pick c_ticket_url) (pick c_image_url)
    (pick c_source) (pick c_created_at) (pick c_updated_at)
    (pick c_expires_at) (pick c_click_count).

(** [setattr(obj, key, value)]: a mapped column is assigned; any other
    name is a plain Python attribute, which the table never sees. *)
Definition setattr (e : Event) (key : string) (v : value) : Event :=
  match column_of key with
  | Some c => setcol e c v
  | None => e
  end.

Definition getattr (e : Event) (key : string) : option value :=
  getcol e <$> column_of key.

(** A freshly constructed object: no attribute set. *)
Definition blank_event : Event :=
  mkEvent VNone VNone VNone VNone VNone VNone VNone VNone VNone VNone VNone VNone.

(** The constructor call [Event] on the unpacked dict: the declarative
    constructor assigns every keyword and raises [TypeError] on a keyword
    that is not an attribute of the class. *)
Definition Event_new (event_data : Dict) : Res Event :=
  if decide (map_Forall (λ key _, is_Some (column_of key)) event_data)
  then Ok (map_fold (λ key v e, setattr e key v) blank_event event_data)
  else Raise TypeError.

(** ** The world *)

Record World := mkWorld {
  db : list Event;          (* table [events], in row order *)
  clock : Z;                (* what [datetime.utcnow()] reads *)
  requests : list string    (* URLs the browser navigated to, oldest first *)
}.

Definition with_db (w : World) (rows : list Event) : World :=
  mkWorld rows (clock w) (requests w).

Definition M (A : Type) : Type := World → Res A * World.

Definition ret {A} (a : A) : M A := λ w, (Ok a, w).

Definition bindM {A B} (m : M A) (f : A → M B) : M B := λ w,
  match m w with
  | (Ok a, w') => f a w'
  | (Raise e, w') => (Raise e, w')
  end.

Notation "x <- y ; z" := (bindM y (λ x, z))
  (at level 20, y at level 100, z at level 200, only parsing).
Notation "'run!' y ; z" := (bindM y (λ _, z))
  (at level 20, y at level 100, z at level 200, only parsing).

(** Lift a computed outcome into the monad. *)
Definition lift {A} (r : Res A) : M A := λ w, (r, w).

Definition get_db : M (list Event) := λ w, (Ok (db w), w).

Definition raise {A} (e : exn) : M A := λ w, (Raise e, w).

(** [try: m / except Exception as e: h e] *)
Definition try_except {A} (m : M A) (h : exn → M A) : M A := λ w,
  match m w with
  | (Ok a, w') => (Ok a, w')
  | (Raise e, w') => h e w'
  end.

(** [try: m / finally: f] *)
Definition try_finally {A} (m : M A) (f : M unit) : M A := λ w,
  match m w with
  | (r, w') =>
      match f w' with
      | (Ok _, w'') => (r, w'')
      | (Raise e, w'') => (Raise e, w'')
      end
  end.

Definition utcnow : M Z := λ w, (Ok (clock w), w).

Definition microseconds (seconds : Z) : Z := seconds * 1000000.

(** [timedelta(days=n)] *)
Definition timedelta_days (n : Z) : Z := microseconds (n * 86400).

(** [time.sleep(seconds)]: raises [ValueError] on a negative length. *)
Definition time_sleep (seconds : Z) : M unit := λ w,
  if decide (seconds < 0) then (Raise ValueError, w)
  else (Ok tt, mkWorld (db w) (clock w + microseconds seconds) (requests w)).

(** [await asyncio.sleep(seconds)]: a non-positive delay returns at once. *)
Definition asyncio_sleep (seconds : Z) : M unit := λ w,
  (Ok tt, mkWorld (db w) (clock w + microseconds (Z.max 0 seconds)) (requests w)).

(** ** Table constraints ([app/models.py])

    [nullable=False] on [title], [date_time], [location], [ticket_url],
    [source]; [primary_key] on [id]; [unique] on [ticket_url]. A commit
    that would break one of them raises [IntegrityError] and the
    transaction is rolled back. *)

(** The declared type of each column. *)
Inductive coltype := TInteger | TString | TDateTime.

Definition column_type (c : column) : coltype :=
  match c with
  | c_id | c_click_count => TInteger
  | c_date_time | c_created_at | c_updated_at | c_expires_at => TDateTime
  | c_title | c_location | c_description | c_ticket_url | c_image_url | c_source => TString
  end.

(** A value of the Python type that the column type stands for; [None]
    is NULL. *)
Definition of_type (ty : coltype) (v : value) : bool :=
  match v, ty with
  | VNone, _ => true
  | VInt _, TInteger => true
  | VStr _, TString => true
  | VTime _, TDateTime => true
  | _, _ => false
  end.

(** What a statement can bind for a column: the [DateTime] type accepts
    only [datetime] objects and [None] (anything else raises while the
    statement is built); [String], [Text] and [Integer] pass every value
    on to the database (which converts it to the affinity of the column,
    a conversion the table of a world does not make: it keeps values of
    the declared type as they are). *)
Definition binds (ty : coltype) (v : value) : bool :=
  match ty, v with
  | TDateTime, (VStr _ | VInt _) => false
  | _, _ => true
  end.

Definition columns : list column :=
  [c_id; c_title; c_date_time; c_location; c_description; c_ticket_url;
   c_image_url; c_source; c_created_at; c_updated_at; c_expires_at; c_click_count].

(** The flush writes, for a row that is in the table, the columns whose
    value changed (UPDATE), and for a new row every column (INSERT). *)
Definition written (old : option Event) (new : Event) (c : column) : bool :=
  match old with
  | Some old => bool_decide (getcol old c ≠ getcol new c)
  | None => true
  end.

Definition row_binds (old : option Event) (new : Event) : bool :=
  forallb (λ c, implb (written old new c) (binds (column_type c) (getcol new c))) columns.

(** Every value the flush of the pending state [after] writes can be
    bound. *)
Definition flushes (before after : list Event) : bool :=
  forallb (λ b : bool, b) (imap (λ i new, row_binds (before !! i) new) after).

Definition not_null (e : Event) : Prop :=
  event_id e ≠ VNone ∧ title e ≠ VNone ∧ date_time e ≠ VNone ∧
  location e ≠ VNone ∧ ticket_url e ≠ VNone ∧ source e ≠ VNone.

Global Instance not_null_dec e : Decision (not_null e).
Proof. unfold not_null. apply _. Defined.

Definition constraints (rows : list Event) : Prop :=
  Forall not_null rows ∧ NoDup (ticket_url <$> rows) ∧ NoDup (event_id <$> rows).

Global Instance constraints_dec rows : Decision (constraints rows).
Proof. unfold constraints. apply _. Defined.

(** [db.commit()] of a pending table state. A value that cannot be
    bound raises [StatementError] before the statement reaches the
    database; a statement that breaks a constraint raises
    [IntegrityError]. Either way the table is as before. (The session
    then refuses further work until it is rolled back, which a world
    does not record: it describes the program while its session is
    usable.) *)
Definition commit (rows : list Event) : M unit := λ w,
  if negb (flushes (db w) rows) then (Raise StatementError, w)
  else if decide (constraints rows) then (Ok tt, with_db w rows)
  else (Raise IntegrityError, w).

(** Column defaults applied by an INSERT: [id] autoincrements,
    [created_at] and [updated_at] default to [datetime.utcnow],
    [click_count] to 0. An attribute that is [None] counts as not given. *)
Definition int_ids (rows : list Event) : list Z :=
  omap (λ e, match event_id e with VInt n => Some n | _ => None end) rows.

Definition next_id (rows : list Event) : Z := 1 + foldr Z.max 0 (int_ids rows).

Definition or_default (v d : value) : value :=
  match v with VNone => d | _ => v end.

Definition insert_defaults (now : Z) (rows : list Event) (e : Event) : Event :=
  mkEvent (or_default (event_id e) (VInt (next_id rows)))
    (title e) (date_time e) (location e) (description e) (ticket_url e)
    (image_url e) (source e)
    (or_default (created_at e) (VTime now))
    (or_default (updated_at e) (VTime now))
    (expires_at e)
    (or_default (click_count e) (VInt 0)).

(** ** [BaseScraper]: persistence ([app/scrapers/base.py]) *)

(** [db.query(Event).filter(Event.ticket_url == ticket_url).first()] *)
Definition check_duplicate (u : value) (rows : list Event) : option (nat * Event) :=
  list_find (λ e, ticket_url e = u) rows.

(** The update loop of [save_event]:
    [for key, value in event_data.items(): if key != "ticket_url": setattr(...)] *)
Definition update_fields (event_data : Dict) (existing_event : Event) : Event :=
  map_fold (λ key v e, if decide (key ≠ "ticket_url") then setattr e key v else e)
    existing_event event_data.

(** [event_data[key]] *)
Definition getitem (event_data : Dict) (key : string) : M value := λ w,
  match event_data !! key with
  | Some v => (Ok v, w)
  | None => (Raise (KeyError key), w)
  end.

Definition save_event (event_data : Dict) : M Event :=
  u <- getitem event_data "ticket_url";
  rows <- get_db;
  match check_duplicate u rows with
  | Some (i, existing_event) =>
      now <- utcnow;
      let updated :=
        setcol (update_fields event_data existing_event) c_updated_at (VTime now) in
      run! commit (<[i := updated]> rows);
      run! getitem event_data "title";          (* the log line reads the title *)
      ret updated
  | None =>
      new_event <- lift (Event_new event_data);
      now <- utcnow;
      let row := insert_defaults now rows new_event in
      run! commit (rows ++ [row]);
      run! getitem event_data "title";
      ret row
  end.

(** The filter of [mark_expired_events]. *)
Definition is_stale (source_name : string) (cutoff_date : Z) (e : Event) : bool :=
  bool_decide (source e = VStr source_name) &&
  match date_time e with VTime t => bool_decide (t < cutoff_date) | _ => false end &&
  bool_decide (expires_at e = VNone).

(** The bulk UPDATE: [expires_at] is assigned; [updated_at] is not in the
    SET clause, so its [onupdate=datetime.utcnow] fires for each row hit. *)
Definition expire (now : Z) (e : Event) : Event :=
  setcol (setcol e c_expires_at (VTime now)) c_updated_at (VTime now).

(** What the UPDATE makes of one row. *)
Definition sweep_row (source_name : string) (now : Z) (e : Event) : Event :=
  if is_stale source_name (now - timedelta_days 1) e then expire now e else e.

Definition mark_expired_events (source_name : string) : M unit :=
  now <- utcnow;
  let cutoff_date := now - timedelta_days 1 in
  rows <- get_db;
  let expired_count :=
    length (filter (λ e, is_stale source_name cutoff_date e = true) rows) in
  if decide (0 < expired_count)%nat
  then commit (sweep_row source_name now <$> rows)
  else ret tt.

(** ** Python [str] operations *)

Definition is_upper (c : ascii) : bool :=
  let n := nat_of_ascii c in (65 <=? n)%nat && (n <=? 90)%nat.
Definition is_lower (c : ascii) : bool :=
  let n := nat_of_ascii c in (97 <=? n)%nat && (n <=? 122)%nat.
Definition is_digit (c : ascii) : bool :=
  let n := nat_of_ascii c in (48 <=? n)%nat && (n <=? 57)%nat.
(** [str.isspace] on one character, also the class [\s] of [re]: the
    ASCII white space, the separators U+001C to U+001F, the next-line
    control U+0085 and the no-break space U+00A0. *)
Definition is_space (c : ascii) : bool :=
  let n := nat_of_ascii c in
  ((9 <=? n)%nat && (n <=? 13)%nat) || ((28 <=? n)%nat && (n <=? 32)%nat) ||
  (n =? 133)%nat || (n =? 160)%nat.

Definition lower_char (c : ascii) : ascii :=
  if is_upper c then ascii_of_nat (nat_of_ascii c + 32) else c.
Definition upper_char (c : ascii) : ascii :=
  if is_lower c then ascii_of_nat (nat_of_ascii c - 32) else c.

Fixpoint lower (s : string) : string :=
  match s with
  | EmptyString => EmptyString
  | String c s' => String (lower_char c) (lower s')
  end.

(** [s.capitalize()] *)
Definition capitalize (s : string) : string :=
  match s with
  | EmptyString => EmptyString
  | String c s' => String (upper_char c) (lower s')
  end.

(** [s.startswith(p)] *)
Definition startswith (s p : string) : bool := String.prefix p s.

(** [sub in s] *)
Fixpoint contains (sub s : string) : bool :=
  String.prefix sub s ||
  match s with
  | EmptyString => false
  | String _ s' => contains sub s'
  end.

(** [s[:n]] *)
Definition slice_to (n : nat) (s : string) : string := String.substring 0 n s.

Fixpoint lstrip (s : string) : string :=
  match s with
  | EmptyString => EmptyString
  | String c s' => if is_space c then lstrip s' else s
  end.

Fixpoint rstrip (s : string) : string :=
  match s with
  | EmptyString => EmptyString
  | String c s' =>
      match rstrip s' with
      | EmptyString => if is_space c then EmptyString else String c EmptyString
      | r => String c r
      end
  end.

(** [s.strip()] *)
Definition strip (s : string) : string := rstrip (lstrip s).

(** [s.split()]: the maximal runs of non-space characters. *)
Fixpoint split_ws_aux (cur : string) (s : string) : list string :=
  let flush := match cur with EmptyString => [] | _ => [String.rev cur] end in
  match s with
  | EmptyString => flush
  | String c s' =>
      if is_space c then flush ++ split_ws_aux EmptyString s'
      else split_ws_aux (String c cur) s'
  end.
Definition split_ws (s : string) : list string := split_ws_aux EmptyString s.

Definition join (sep : string) (l : list string) : string := String.concat sep l.

(** Truth value of an optional string ([None] and the empty string are false). *)
Definition truthy (x : option string) : bool :=
  match x with
  | None | Some EmptyString => false
  | Some _ => true
  end.

(** ** The parsed document (BeautifulSoup) *)

#[local] Unset Elimination Schemes.
Inductive Node :=
  | Text (s : string)
  | Tag (name : string) (attrs : gmap string string) (children : list Node).

#[local] Set Elimination Schemes.

Definition tag_name (n : Node) : option string :=
  match n with Tag name _ _ => Some name | Text _ => None end.

(** [tag.get(key)] *)
Definition get (n : Node) (key : string) : option string :=
  match n with Tag _ attrs _ => attrs !! key | Text _ => None end.

(** All nodes below [n], in document order. *)
Fixpoint descendants (n : Node) : list Node :=
  match n with
  | Text _ => []
  | Tag _ _ children => flat_map (λ c, c :: descendants c) children
  end.

(** [tag.get_text(strip=True)]: every string below the tag, stripped,
    the empty ones dropped, concatenated. *)
Definition get_text (n : Node) : string :=
  join EmptyString (filter (λ s, s ≠ EmptyString)
    (omap (λ d, match d with Text s => Some (strip s) | Tag _ _ _ => None end)
      (descendants n))).

(** The lambdas given as attribute filters all read
    [lambda x: x and sub in x.lower()]. *)
Definition has_word (sub : string) (x : option string) : bool :=
  match x with
  | None => false
  | Some s => truthy (Some s) && contains sub (lower s)
  end.

(** A function filter on [class_]: the multi-valued attribute matches if
    one of its tokens does, or the tokens joined by a space do; a tag
    without the attribute hands [None] to the function. *)
Definition class_matches (f : option string → bool) (n : Node) : bool :=
  match get n "class" with
  | None => f None
  | Some cls =>
      let tokens := split_ws cls in
      existsb (λ tok, f (Some tok)) tokens || f (Some (join " " tokens))
  end.

(** A function filter on a single-valued attribute. *)
Definition attr_matches (key : string) (f : option string → bool) (n : Node) : bool :=
  f (get n key).

Definition named (name : string) (n : Node) : bool :=
  bool_decide (tag_name n = Some name).

(** [tag.find_all(name, filter)] and [tag.find(name, filter)]. *)
Definition find_all (n : Node) (name : string) (flt : Node → bool) : list Node :=
  filter (λ d, named name d && flt d = true) (descendants n).

Definition find (n : Node) (name : string) (flt : Node → bool) : option Node :=
  head (find_all n name flt).

Definition any_tag : Node → bool := λ _, true.

(** [href=True]: the attribute is present. *)
Definition has_href (n : Node) : bool := bool_decide (is_Some (get n "href")).

(** [soup.select("[class*='sub']")]: tags whose class value contains [sub]. *)
Definition class_contains (sub : string) (n : Node) : bool :=
  match n, get n "class" with
  | Tag _ _ _, Some cls => contains sub (join " " (split_ws cls))
  | _, _ => false
  end.

Definition select (n : Node) (sel : Node → bool) : list Node :=
  filter (λ d, sel d = true) (descendants n).

(** Python's [a or b] on optional tags (a tag is always true). *)
Definition or_else {A} (a b : option A) : option A :=
  match a with Some _ => a | None => b end.

(** [a or b] on lists (the empty list is false). *)
Definition or_list {A} (a b : list A) : list A :=
  match a with [] => b | _ => a end.

(** [a or b] on optional strings. *)
Definition or_str (a b : option string) : option string :=
  if truthy a then a else b.

(** ** [datetime.strptime]

    The format is compiled to a pattern as [_strptime] does: a run of
    white space in the format stands for [\s+], a directive for its
    alternatives in order, any other character for itself (the pattern
    ignores case). The pattern is matched from the start of the text
    with backtracking; the first match found must consume the whole
    text, and the fields must form a valid date. Month and day names
    are those of the C locale. *)

Inductive fmt_item :=
  | FDir (c : ascii)
  | FSpace
  | FLit (c : ascii).

Definition known_directive (c : ascii) : bool :=
  bool_decide (c ∈ ["Y"; "m"; "d"; "b"; "B"; "a"]%char).

(** [None]: a stray [%] or a directive the scrapers never use. *)
Fixpoint scan_format (fmt : string) : option (list fmt_item) :=
  match fmt with
  | EmptyString => Some []
  | String "%" EmptyString => None
  | String "%" (String c rest) =>
      if known_directive c then (FDir c ::.) <$> scan_format rest else None
  | String c rest =>
      (if is_space c then (FSpace ::.) else (FLit c ::.)) <$> scan_format rest
  end.

Fixpoint merge_spaces (items : list fmt_item) : list fmt_item :=
  match items with
  | FSpace :: rest =>
      match merge_spaces rest with
      | FSpace :: rest' => FSpace :: rest'
      | rest' => FSpace :: rest'
      end
  | it :: rest => it :: merge_spaces rest
  | [] => []
  end.

Definition digit_val (c : ascii) : Z := Z.of_nat (nat_of_ascii c - 48).

Record fields := mkFields { f_year : Z; f_month : Z; f_day : Z }.

Definition months_abbr : list string :=
  ["jan"; "feb"; "mar"; "apr"; "may"; "jun"; "jul"; "aug"; "sep"; "oct"; "nov"; "dec"].
Definition months_full : list string :=
  ["january"; "february"; "march"; "april"; "may"; "june"; "july"; "august";
   "september"; "october"; "november"; "december"].
Definition weekdays_abbr : list string :=
  ["mon"; "tue"; "wed"; "thu"; "fri"; "sat"; "sun"].

Definition drop_str (n : nat) (s : string) : string :=
  String.substring n (String.length s - n) s.

(** The names of [names] that start [s] (ignoring case), each with its
    1-based position and what follows it. *)
Definition match_names (names : list string) (s : string) : list (Z * string) :=
  omap (λ '(i, name),
      if String.prefix name (lower s)
      then Some (Z.of_nat (S i), drop_str (String.length name) s)
      else None)
    (imap (λ i name, (i, name)) names).

(** [\d\d\d\d] *)
Definition match_Y (s : string) : list (Z * string) :=
  match s with
  | String a (String b (String c (String d rest))) =>
      if is_digit a && is_digit b && is_digit c && is_digit d
      then [(1000 * digit_val a + 100 * digit_val b + 10 * digit_val c + digit_val d, rest)]
      else []
  | _ => []
  end.

Definition in_range (lo hi : string) (c : ascii) : bool :=
  let n := nat_of_ascii c in
  match lo, hi with
  | String l EmptyString, String h EmptyString =>
      (nat_of_ascii l <=? n)%nat && (n <=? nat_of_ascii h)%nat
  | _, _ => false
  end.

(** Two characters, the first in [a1..a2] and the second in [b1..b2]. *)
Definition two_chars (a1 a2 b1 b2 : string) (s : string) : list (Z * string) :=
  match s with
  | String a (String b rest) =>
      if in_range a1 a2 a && in_range b1 b2 b
      then [(10 * digit_val a + digit_val b, rest)] else []
  | _ => []
  end.

Definition one_char (a1 a2 : string) (s : string) : list (Z * string) :=
  match s with
  | String a rest => if in_range a1 a2 a then [(digit_val a, rest)] else []
  | _ => []
  end.

Definition space_then (m : string → list (Z * string)) (s : string) : list (Z * string) :=
  match s with
  | String " " rest => m rest
  | _ => []
  end.

(** [1[0-2]|0[1-9]|[1-9]] *)
Definition match_m (s : string) : list (Z * string) :=
  two_chars "1" "1" "0" "2" s ++ two_chars "0" "0" "1" "9" s ++ one_char "1" "9" s.

(** [3[0-1]|[1-2]\d|0[1-9]|[1-9]| [1-9]] *)
Definition match_d (s : string) : list (Z * string) :=
  two_chars "3" "3" "0" "1" s ++ two_chars "1" "2" "0" "9" s ++
  two_chars "0" "0" "1" "9" s ++ one_char "1" "9" s ++
  space_then (one_char "1" "9") s.

(** [\s+], greedy: the longest run first, then shorter ones. *)
Fixpoint match_spaces (s : string) : list string :=
  match s with
  | String c rest => if is_space c then match_spaces rest ++ [rest] else []
  | EmptyString => []
  end.

Definition match_item (it : fmt_item) (acc : fields) (s : string)
    : list (fields * string) :=
  match it with
  | FSpace => (λ rest, (acc, rest)) <$> match_spaces s
  | FLit c =>
      match s with
      | String c' rest =>
          if decide (lower_char c = lower_char c') then [(acc, rest)] else []
      | EmptyString => []
      end
  | FDir "Y" => (λ '(y, rest), (mkFields y (f_month acc) (f_day acc), rest)) <$> match_Y s
  | FDir "m" => (λ '(m, rest), (mkFields (f_year acc) m (f_day acc), rest)) <$> match_m s
  | FDir "d" => (λ '(d, rest), (mkFields (f_year acc) (f_month acc) d, rest)) <$> match_d s
  | FDir "b" =>
      (λ '(m, rest), (mkFields (f_year acc) m (f_day acc), rest)) <$> match_names months_abbr s
  | FDir "B" =>
      (λ '(m, rest), (mkFields (f_year acc) m (f_day acc), rest)) <$> match_names months_full s
  | FDir "a" => (λ '(_, rest), (acc, rest)) <$> match_names weekdays_abbr s
  | FDir _ => []
  end.

(** All matches of the pattern from the start of [s], in the order a
    backtracking matcher finds them. *)
Fixpoint match_items (items : list fmt_item) (acc : fields) (s : string)
    : list (fields * string) :=
  match items with
  | [] => [(acc, s)]
  | it :: rest =>
      flat_map (λ '(acc', s'), match_items rest acc' s') (match_item it acc s)
  end.

(** [datetime.py]: [_is_leap], [_days_before_year], [_days_in_month],
    [_days_before_month], [_ymd2ord]. *)
Definition is_leap (y : Z) : bool :=
  (y mod 4 =? 0) && (negb (y mod 100 =? 0) || (y mod 400 =? 0)).

Definition days_before_year (y : Z) : Z :=
  let y' := y - 1 in y' * 365 + y' / 4 - y' / 100 + y' / 400.

Definition days_in_month (y m : Z) : Z :=
  if (m =? 2) && is_leap y then 29
  else nth (Z.to_nat m) [0; 31; 28; 31; 30; 31; 30; 31; 31; 30; 31; 30; 31] 0.

Definition days_before_month (y m : Z) : Z :=
  nth (Z.to_nat m) [0; 0; 31; 59; 90; 120; 151; 181; 212; 243; 273; 304; 334] 0
  + (if (2 <? m) && is_leap y then 1 else 0).

Definition ymd2ord (y m d : Z) : Z :=
  days_before_year y + days_before_month y m + d.

(** [datetime(y, m, d)] at midnight; [ValueError] outside the calendar. *)
Definition datetime_ymd (y m d : Z) : option Z :=
  if (1 <=? y) && (y <=? 9999) && (1 <=? m) && (m <=? 12) &&
     (1 <=? d) && (d <=? days_in_month y m)
  then Some (timedelta_days (ymd2ord y m d - 1))
  else None.

(** [datetime.strptime(text, fmt)]; [None] stands for [ValueError]. *)
Definition strptime (text fmt : string) : option Z :=
  items ← scan_format fmt;
  match match_items (merge_spaces items) (mkFields 1900 1 1) text with
  | (acc, EmptyString) :: _ => datetime_ymd (f_year acc) (f_month acc) (f_day acc)
  | _ => None                       (* no match, or unconverted data remains *)
  end.

(** ** The environment

    What lies outside the program: the settings ([app/config.py]) and the
    answers of the network, of the browser and of [urllib.parse]. Each
    answer is an outcome the program must cope with, given once for the
    whole run; the theorems hold for every environment. *)

Record RuleLine := mkRuleLine {
  rule_path : string;
  rule_allowance : bool
}.

Record Entry := mkEntry {
  useragents : list string;
  rulelines : list RuleLine
}.

(** What [RobotFileParser.read] meets when it opens the robots URL. *)
Inductive ReadOutcome :=
  | ReadRaises (e : exn)             (* [urlopen] or decoding raises: no route, timeout, ... *)
  | HTTPError (code : Z)             (* the server answers with an error status *)
  | Parsed (es : list Entry) (dflt : option Entry) (t : Z).
                                     (* the body was read and parsed at time [t] *)

Record Env := mkEnv {
  scraper_delay_seconds : Z;
  scraper_timeout_seconds : Z;
  city : string;
  robots_read : string → ReadOutcome;
  url_path : string → Res string;    (* unquote, urlparse, urlunparse, quote *)
  playwright_start : Res unit;       (* [async_playwright().start()] *)
  chromium_launch : Res unit;        (* [chromium.launch(headless=True)] *)
  page_open : Res unit;              (* [new_page()], [set_extra_http_headers] *)
  browser_close : Res unit;          (* [browser.close()] *)
  playwright_stop : Res unit;        (* [playwright.stop()] *)
  page_goto : string → Res unit;     (* [page.goto(url, wait_until="networkidle")] *)
  page_content : string → Res Node;  (* [page.content()], parsed by BeautifulSoup *)
  loop_running : bool                (* the caller runs inside an asyncio event loop *)
}.

(** ** [urllib.robotparser] *)

Module robotparser.

Record RobotFileParser := mkParser {
  entries : list Entry;
  default_entry : option Entry;
  disallow_all : bool;
  allow_all : bool;
  last_checked : Z
}.

(** [RobotFileParser()] *)
Definition new : RobotFileParser := mkParser [] None false false 0.

Definition read (env : Env) (url : string) (rp : RobotFileParser) : Res RobotFileParser :=
  match robots_read env url with
  | ReadRaises e => Raise e
  | HTTPError code =>
      if decide (code = 401 ∨ code = 403)
      then Ok (mkParser (entries rp) (default_entry rp) true (allow_all rp) (last_checked rp))
      else if decide (400 ≤ code ∧ code < 500)
      then Ok (mkParser (entries rp) (default_entry rp) (disallow_all rp) true (last_checked rp))
      else Ok rp
  | Parsed es dflt t => Ok (mkParser es dflt (disallow_all rp) (allow_all rp) t)
  end.

(** [RuleLine.applies_to] *)
Definition rule_applies_to (line : RuleLine) (filename : string) : bool :=
  bool_decide (rule_path line = "*") || startswith filename (rule_path line).

Fixpoint before_slash (s : string) : string :=
  match s with
  | EmptyString => EmptyString
  | String c s' => if decide (c = "/"%char) then EmptyString else String c (before_slash s')
  end.

(** [Entry.applies_to] *)
Definition applies_to (entry : Entry) (useragent : string) : bool :=
  let useragent := lower (before_slash useragent) in
  (fix go (agents : list string) : bool :=
     match agents with
     | [] => false
     | agent :: rest =>
         if decide (agent = "*") then true
         else if contains (lower agent) useragent then true
         else go rest
     end) (useragents entry).

(** [Entry.allowance] *)
Definition allowance (entry : Entry) (filename : string) : bool :=
  default true
    (rule_allowance <$>
       head (filter (λ line, rule_applies_to line filename = true) (rulelines entry))).

Definition can_fetch (env : Env) (rp : RobotFileParser) (useragent url : string) : Res bool :=
  if disallow_all rp then Ok false
  else if allow_all rp then Ok true
  else if decide (last_checked rp = 0) then Ok false
  else
    match url_path env url with
    | Raise e => Raise e
    | Ok url =>
        let url := if decide (url = EmptyString) then "/" else url in
        match head (filter (λ entry, applies_to entry useragent = true) (entries rp)) with
        | Some entry => Ok (allowance entry url)
        | None =>
            match default_entry rp with
            | Some entry => Ok (allowance entry url)
            | None => Ok true
            end
        end
    end.

End robotparser.

(** [urljoin(base, path)] for an absolute [path]: scheme and host of
    [base], then [path]. *)
Fixpoint host_part (s : string) : string :=
  match s with
  | EmptyString => EmptyString
  | String c s' =>
      if bool_decide (c ∈ ["/"; "?"; "#"]%char) then EmptyString
      else String c (host_part s')
  end.

Definition urljoin (base path : string) : string :=
  match String.index 0 "://" base with
  | Some i => String.substring 0 (i + 3) base +:+ host_part (drop_str (i + 3) base) +:+ path
  | None => path
  end.

(** ** [BaseScraper] *)

Record BaseScraper := mkScraper {
  source_name : string;
  base_url : string;
  delay : Z;
  timeout : Z;
  user_agent : string;
  robot_parser : option robotparser.RobotFileParser
}.

Definition _check_robots_txt (env : Env) (base_url : string)
    : option robotparser.RobotFileParser :=
  let robots_url := urljoin base_url "/robots.txt" in
  match robotparser.read env robots_url robotparser.new with
  | Ok rp => Some rp
  | Raise _ => Some robotparser.new   (* "Create a permissive parser if robots.txt can't be read" *)
  end.

(** [BaseScraper.__init__] *)
Definition BaseScraper_init (env : Env) (source_name base_url : string) : BaseScraper :=
  mkScraper source_name base_url (scraper_delay_seconds env) (scraper_timeout_seconds env)
    "SydneyEventsBot/1.0 (+https://github.com/sydney-events-scraper)"
    (_check_robots_txt env base_url).

Definition can_fetch (env : Env) (self : BaseScraper) (url : string) : bool :=
  match robot_parser self with
  | None => true
  | Some rp =>
      match robotparser.can_fetch env rp (user_agent self) url with
      | Ok allowed => allowed
      | Raise _ => true               (* "Default to allowing if check fails" *)
      end
  end.

Definition rate_limit (self : BaseScraper) : M unit := time_sleep (delay self).

(** One turn of the save loop of [run]: the candidate is stamped with
    the source, saved, counted; an exception skips it. *)
Definition save_one (self : BaseScraper) (saved_count : nat) (event_data : Dict) : M nat := λ w,
  let event_data := <["source" := VStr (source_name self)]> event_data in
  match save_event event_data w with
  | (Raise _, w1) => (Ok saved_count, w1)
  | (Ok _, w1) =>
      let saved_count := S saved_count in
      match rate_limit self w1 with
      | (_, w2) => (Ok saved_count, w2)
      end
  end.

Fixpoint save_all (self : BaseScraper) (events : list Dict) (saved_count : nat) : M nat :=
  match events with
  | [] => ret saved_count
  | event_data :: rest =>
      saved_count <- save_one self saved_count event_data;
      save_all self rest saved_count
  end.

(** The body of [run] inside its [try]. *)
Definition run_body (self : BaseScraper) (scrape : M (list Dict)) : M nat :=
  run! mark_expired_events (source_name self);
  events <- scrape;
  save_all self events 0.

(** [BaseScraper.run], for a subclass whose [scrape] is given. *)
Definition run (self : BaseScraper) (scrape : M (list Dict)) : M nat :=
  try_except (run_body self scrape) (λ _, ret 0%nat).

(** Truth value of a Python value. *)
Definition value_truthy (v : value) : bool :=
  match v with
  | VNone => false
  | VStr s => truthy (Some s)
  | VInt n => negb (n =? 0)
  | VTime _ => true
  end.

(** The attributes [self.playwright] and [self.browser] of a scraper:
    whether each has been set. *)
Record Handles := mkHandles {
  playwright : bool;
  browser : bool
}.

(** ** [EventbriteScraper] ([app/scrapers/eventbrite.py]) *)

Module EventbriteScraper.

Definition init (env : Env) : BaseScraper :=
  BaseScraper_init env "eventbrite" "https://www.eventbrite.com.au".

(** The outcome of [_init_browser] and the attributes it has set by
    then. *)
Definition _init_browser (env : Env) : Res unit * Handles :=
  match playwright_start env with
  | Raise e => (Raise e, mkHandles false false)
  | Ok _ =>
      match chromium_launch env with
      | Raise e => (Raise e, mkHandles true false)
      | Ok _ => (page_open env, mkHandles true true)
      end
  end.

Definition _close_browser (env : Env) (self : Handles) : M unit :=
  run! (if browser self then lift (browser_close env) else ret tt);
  if playwright self then lift (playwright_stop env) else ret tt.

(** [await self.page.goto(url, ...)] *)
Definition goto (env : Env) (url : string) : M unit := λ w,
  (page_goto env url, mkWorld (db w) (clock w) (requests w ++ [url])).

Definition date_formats : list string :=
  ["%Y-%m-%d"; "%d %b %Y"; "%d/%m/%Y"; "%B %d, %Y"].

Definition _parse_date (now : Z) (date_str : string) : Z :=
  match omap (strptime (slice_to 20 date_str)) date_formats with
  | parsed :: _ => parsed
  | [] => now + timedelta_days 7   (* "Default to 7 days from now if parsing fails" *)
  end.

Definition resolve (self : BaseScraper) (href : string) : string :=
  if startswith href "/" then base_url self +:+ href
  else if startswith href "http" then href
  else base_url self +:+ "/" +:+ href.

(** [card.find("a", href=True)] *)
Definition link_elem (card : Node) : option Node := find card "a" has_href.

Definition date_elem (card : Node) : option Node :=
  or_else (find card "time" any_tag)
    (find card "div" (class_matches (has_word "date"))).

(** [now] is what [datetime.utcnow()] reads during the extraction. No
    step of the extraction raises on a parsed card, so the [except]
    branch of the source (which also returns [None]) has no counterpart
    here. *)
Definition _extract_event_data (env : Env) (self : BaseScraper) (now : Z) (card : Node)
    : option Dict :=
  let event_data : Dict := ∅ in
  (* Title *)
  let title_elem :=
    or_else (or_else (find card "h2" any_tag) (find card "h3" any_tag))
      (find card "a" (class_matches (has_word "title"))) in
  let title_elem :=
    match title_elem with None => find card "a" has_href | Some _ => title_elem end in
  let event_data :=
    <["title" := VStr match title_elem with
                      | Some elem => get_text elem
                      | None => "Untitled Event"
                      end]> event_data in
  (* Ticket URL *)
  match link_elem card with
  | None => None                                  (* "Skip if no URL" *)
  | Some link_elem =>
      let href := default EmptyString (get link_elem "href") in
      let event_data := <["ticket_url" := VStr (resolve self href)]> event_data in
      (* Date and time *)
      let event_data :=
        <["date_time" := VTime match date_elem card with
                               | Some elem => _parse_date now (get_text elem)
                               | None => now
                               end]> event_data in
      (* Location *)
      let location_elem :=
        or_else (find card "div" (class_matches (has_word "location")))
          (find card "span" (class_matches (has_word "location"))) in
      let event_data :=
        <["location" := VStr match location_elem with
                             | Some elem => get_text elem
                             | None => capitalize (city env) +:+ ", Australia"
                             end]> event_data in
      (* Description *)
      let desc_elem :=
        or_else (find card "p" any_tag)
          (find card "div" (class_matches (has_word "description"))) in
      let event_data :=
        <["description" := match desc_elem with
                           | Some elem => VStr (slice_to 500 (get_text elem))
                           | None => VNone
                           end]> event_data in
      (* Image *)
      let event_data :=
        <["image_url" :=
            match find card "img" any_tag with
            | Some img_elem =>
                match or_str (get img_elem "src") (get img_elem "data-src") with
                | Some img_src =>
                    if negb (truthy (Some img_src)) then VNone
                    else if startswith img_src "/" then VStr (base_url self +:+ img_src)
                    else if startswith img_src "http" then VStr img_src
                    else VNone
                | None => VNone
                end
            | None => VNone
            end]> event_data in
      Some event_data
  end.

Definition find_cards (soup : Node) : list Node :=
  let event_cards :=
    or_list (or_list (find_all soup "div" (class_matches (has_word "event-card")))
               (find_all soup "article" any_tag))
      (find_all soup "div" (attr_matches "data-testid" (has_word "event"))) in
  match event_cards with
  | [] => take 20 (select soup (class_contains "event"))
  | _ => event_cards
  end.

(** [if event_data and event_data.get("ticket_url")] *)
Definition keep (event_data : option Dict) : option Dict :=
  match event_data with
  | Some d =>
      if bool_decide (d ≠ ∅) && value_truthy (default VNone (d !! "ticket_url"))
      then Some d else None
  | None => None
  end.

(** The card loop of [_scrape_page]. *)
Definition extract_cards (env : Env) (self : BaseScraper) (now : Z) (cards : list Node)
    : list Dict :=
  omap (λ card, keep (_extract_event_data env self now card)) cards.

Definition _scrape_page (env : Env) (self : BaseScraper) (url : string) : M (list Dict) :=
  try_except
    (if negb (can_fetch env self url) then ret []
     else
       run! goto env url;
       run! asyncio_sleep 2;
       soup <- lift (page_content env url);
       now <- utcnow;
       ret (extract_cards env self now (take 50 (find_cards soup))))
    (λ _, ret []).

Definition search_url (env : Env) (self : BaseScraper) : string :=
  base_url self +:+ "/d/australia--sydney/events/".

Definition page_url (env : Env) (self : BaseScraper) (page_num : nat) : string :=
  if decide (page_num = 1%nat) then search_url env self
  else search_url env self +:+ "?page=" +:+ pretty page_num.

(** The page loop of [_scrape_async]; an exception leaves the loop
    with what [all_events] holds by then. *)
Fixpoint pages_loop (env : Env) (self : BaseScraper) (page_nums : list nat)
    (all_events : list Dict) (w : World) : list Dict * World :=
  match page_nums with
  | [] => (all_events, w)
  | page_num :: rest =>
      match _scrape_page env self (page_url env self page_num) w with
      | (Raise _, w1) => (all_events, w1)
      | (Ok events, w1) =>
          let all_events := all_events ++ events in
          if decide (length events = 0%nat) then (all_events, w1)   (* break *)
          else
            match asyncio_sleep (delay self) w1 with
            | (Raise _, w2) => (all_events, w2)
            | (Ok _, w2) => pages_loop env self rest all_events w2
            end
      end
  end.

(** [range(1, 4)] *)
Definition page_range : list nat := seq 1 3.

Definition _scrape_async (env : Env) (self : BaseScraper) : M (list Dict) := λ w,
  let '(started, handles) := _init_browser env in
  let '(all_events, w1) :=
    match started with
    | Raise _ => ([], w)
    | Ok _ => pages_loop env self page_range [] w
    end in
  match _close_browser env handles w1 with        (* finally *)
  | (Raise e, w2) => (Raise e, w2)
  | (Ok _, w2) => (Ok all_events, w2)
  end.

(** [asyncio.run(self._scrape_async())]: [asyncio.run] raises
    [RuntimeError] when it is called from a running event loop, as it is
    when the scheduler is started from the startup hook of the server;
    the coroutine is then never run. *)
Definition scrape (env : Env) (self : BaseScraper) : M (list Dict) :=
  if loop_running env then raise RuntimeError
  else _scrape_async env self.

(** [EventbriteScraper(db).run()] *)
Definition run_scraper (env : Env) : M nat :=
  run (init env) (scrape env (init env)).

End EventbriteScraper.

(** ** [TimeOutScraper] ([app/scrapers/timeout.py]) *)

Module TimeOutScraper.

Definition init (env : Env) : BaseScraper :=
  BaseScraper_init env "timeout" "https://www.timeout.com".

(** The outcome of [_init_browser] and the attributes it has set by
    then. *)
Definition _init_browser (env : Env) : Res unit * Handles :=
  match playwright_start env with
  | Raise e => (Raise e, mkHandles false false)
  | Ok _ =>
      match chromium_launch env with
      | Raise e => (Raise e, mkHandles true false)
      | Ok _ => (page_open env, mkHandles true true)
      end
  end.

Definition _close_browser (env : Env) (self : Handles) : M unit :=
  run! (if browser self then lift (browser_close env) else ret tt);
  if playwright self then lift (playwright_stop env) else ret tt.

(** [await self.page.goto(url, ...)] *)
Definition goto (env : Env) (url : string) : M unit := λ w,
  (page_goto env url, mkWorld (db w) (clock w) (requests w ++ [url])).

Definition date_formats : list string :=
  ["%Y-%m-%d"; "%d %b %Y"; "%d/%m/%Y"; "%B %d, %Y"; "%a %d %b %Y"].

Definition _parse_date (now : Z) (date_str : string) : Z :=
  match omap (strptime (slice_to 30 date_str)) date_formats with
  | parsed :: _ => parsed
  | [] => now + timedelta_days 7   (* "Default to 7 days from now if parsing fails" *)
  end.

Definition resolve (self : BaseScraper) (href : string) : string :=
  if startswith href "/" then base_url self +:+ href
  else if startswith href "http" then href
  else base_url self +:+ "/" +:+ href.

(** [card.find("a", href=True)] *)
Definition link_elem (card : Node) : option Node := find card "a" has_href.

Definition date_elem (card : Node) : option Node :=
  or_else (find card "time" any_tag)
    (find card "span" (class_matches (has_word "date"))).

(** [now] is what [datetime.utcnow()] reads during the extraction. No
    step of the extraction raises on a parsed card, so the [except]
    branch of the source (which also returns [None]) has no counterpart
    here. *)
Definition _extract_event_data (env : Env) (self : BaseScraper) (now : Z) (card : Node)
    : option Dict :=
  let event_data : Dict := ∅ in
  (* Title *)
  let title_elem :=
    or_else (or_else (find card "h2" any_tag) (find card "h3" any_tag))
      (find card "a" (class_matches (has_word "title"))) in
  let title_elem :=
    match title_elem with None => find card "a" has_href | Some _ => title_elem end in
  let event_data :=
    <["title" := VStr match title_elem with
                      | Some elem => get_text elem
                      | None => "Untitled Event"
                      end]> event_data in
  (* Ticket URL *)
  match link_elem card with
  | None => None                                  (* "Skip if no URL" *)
  | Some link_elem =>
      let href := default EmptyString (get link_elem "href") in
      let event_data := <["ticket_url" := VStr (resolve self href)]> event_data in
      (* Date and time *)
      let event_data :=
        <["date_time" := VTime match date_elem card with
                               | Some elem => _parse_date now (get_text elem)
                               | None => now
                               end]> event_data in
      (* Location *)
      let location_elem :=
        or_else (or_else (find card "div" (class_matches (has_word "location")))
                   (find card "span" (class_matches (has_word "venue"))))
          (find card "address" any_tag) in
      let event_data :=
        <["location" := VStr match location_elem with
                             | Some elem => get_text elem
                             | None => capitalize (city env) +:+ ", Australia"
                             end]> event_data in
      (* Description *)
      let desc_elem :=
        or_else (or_else (find card "p" any_tag)
                   (find card "div" (class_matches (has_word "description"))))
          (find card "div" (class_matches (has_word "summary"))) in
      let event_data :=
        <["description" := match desc_elem with
                           | Some elem => VStr (slice_to 500 (get_text elem))
                           | None => VNone
                           end]> event_data in
      (* Image *)
      let event_data :=
        <["image_url" :=
            match find card "img" any_tag with
            | Some img_elem =>
                match or_str (or_str (get img_elem "src") (get img_elem "data-src")) (get img_elem "data-lazy-src") with
                | Some img_src =>
                    if negb (truthy (Some img_src)) then VNone
                    else if startswith img_src "/" then VStr (base_url self +:+ img_src)
                    else if startswith img_src "http" then VStr img_src
                    else VNone
                | None => VNone
                end
            | None => VNone
            end]> event_data in
      Some event_data
  end.

Definition find_cards (soup : Node) : list Node :=
  or_list (or_list (find_all soup "article" any_tag)
             (find_all soup "div" (class_matches (has_word "card"))))
    (take 30 (select soup (λ n, class_contains "event" n || class_contains "listing" n))).

(** [if event_data and event_data.get("ticket_url")] *)
Definition keep (event_data : option Dict) : option Dict :=
  match event_data with
  | Some d =>
      if bool_decide (d ≠ ∅) && value_truthy (default VNone (d !! "ticket_url"))
      then Some d else None
  | None => None
  end.

(** The card loop of [_scrape_page]. *)
Definition extract_cards (env : Env) (self : BaseScraper) (now : Z) (cards : list Node)
    : list Dict :=
  omap (λ card, keep (_extract_event_data env self now card)) cards.

Definition _scrape_page (env : Env) (self : BaseScraper) (url : string) : M (list Dict) :=
  try_except
    (if negb (can_fetch env self url) then ret []
     else
       run! goto env url;
       run! asyncio_sleep 2;
       soup <- lift (page_content env url);
       now <- utcnow;
       ret (extract_cards env self now (take 50 (find_cards soup))))
    (λ _, ret []).

Definition search_url (env : Env) (self : BaseScraper) : string :=
  base_url self +:+ "/" +:+ city env +:+ "/events".

Definition page_url (env : Env) (self : BaseScraper) (page_num : nat) : string :=
  if decide (page_num = 1%nat) then search_url env self
  else search_url env self +:+ "?page=" +:+ pretty page_num.

(** The page loop of [_scrape_async]; an exception leaves the loop
    with what [all_events] holds by then. *)
Fixpoint pages_loop (env : Env) (self : BaseScraper) (page_nums : list nat)
    (all_events : list Dict) (w : World) : list Dict * World :=
  match page_nums with
  | [] => (all_events, w)
  | page_num :: rest =>
      match _scrape_page env self (page_url env self page_num) w with
      | (Raise _, w1) => (all_events, w1)
      | (Ok events, w1) =>
          let all_events := all_events ++ events in
          if decide (length events = 0%nat) then (all_events, w1)   (* break *)
          else
            match asyncio_sleep (delay self) w1 with
            | (Raise _, w2) => (all_events, w2)
            | (Ok _, w2) => pages_loop env self rest all_events w2
            end
      end
  end.

(** [range(1, 3)] *)
Definition page_range : list nat := seq 1 2.

Definition _scrape_async (env : Env) (self : BaseScraper) : M (list Dict) := λ w,
  let '(started, handles) := _init_browser env in
  let '(all_events, w1) :=
    match started with
    | Raise _ => ([], w)
    | Ok _ => pages_loop env self page_range [] w
    end in
  match _close_browser env handles w1 with        (* finally *)
  | (Raise e, w2) => (Raise e, w2)
  | (Ok _, w2) => (Ok all_events, w2)
  end.

(** [asyncio.run(self._scrape_async())]: [asyncio.run] raises
    [RuntimeError] when it is called from a running event loop, as it is
    when the scheduler is started from the startup hook of the server;
    the coroutine is then never run. *)
Definition scrape (env : Env) (self : BaseScraper) : M (list Dict) :=
  if loop_running env then raise RuntimeError
  else _scrape_async env self.

(** [TimeOutScraper(db).run()] *)
Definition run_scraper (env : Env) : M nat :=
  run (init env) (scrape env (init env)).

End TimeOutScraper.

(** ** The scheduler ([app/scheduler.py]) *)

(** A constructed scraper as the scheduler sees it: a name and a [run]
    method, which a subclass may override. *)
Record Runner := mkRunner {
  runner_name : string;
  run_method : M nat
}.

(** One turn of the loop of [run_all_scrapers]. *)
Definition run_one (scraper : Runner) : M unit :=
  try_except
    (count <- run_method scraper; ret tt)
    (λ _, ret tt).                       (* "Continue with other scrapers even if one fails" *)

Fixpoint run_each (scrapers : list Runner) : M unit :=
  match scrapers with
  | [] => ret tt
  | scraper :: rest => run! run_one scraper; run_each rest
  end.

(** [app/scrapers/meetup.py] is not part of the sources at hand: the
    constructed Meetup scraper is the parameter [meetup]. *)
Definition run_all_scrapers (env : Env) (meetup : Runner) : M unit :=
  try_finally
    (let scrapers :=
       [mkRunner "eventbrite" (EventbriteScraper.run_scraper env);
        meetup;
        mkRunner "timeout" (TimeOutScraper.run_scraper env)] in
     run_each scrapers)
    (ret tt).                            (* [db.close()] *)

(** ** What a listing page yields

    The candidates [_scrape_page] returns for [url] when the extraction
    reads the clock at [now]: nothing if robots.txt disallows the URL or
    the navigation or the reading of the content fails, else what the card loop makes of the page. *)

Definition eventbrite_page_candidates (env : Env) (self : BaseScraper)
    (url : string) (now : Z) : list Dict :=
  if can_fetch env self url then
    match page_goto env url, page_content env url with
    | Ok _, Ok soup =>
        EventbriteScraper.extract_cards env self now
          (take 50 (EventbriteScraper.find_cards soup))
    | _, _ => []
    end
  else [].

Definition timeout_page_candidates (env : Env) (self : BaseScraper)
    (url : string) (now : Z) : list Dict :=
  if can_fetch env self url then
    match page_goto env url, page_content env url with
    | Ok _, Ok soup =>
        TimeOutScraper.extract_cards env self now
          (take 50 (TimeOutScraper.find_cards soup))
    | _, _ => []
    end
  else [].

(** ** Core operations on the store, as a sequence

    What the ingestion core does to the table over time: sweeps, upserts
    of extracted candidates (stamped by the orchestrator), and the clock
    moving on. *)

Inductive core_op :=
  | OpSweep (source_name : string)
  | OpUpsertEventbrite (env : Env) (card : Node)
  | OpUpsertTimeOut (env : Env) (card : Node)
  | OpTick (t : Z).

Definition is_sweep (op : core_op) : bool :=
  match op with OpSweep _ => true | _ => false end.

Definition upsert_extracted (self : BaseScraper) (candidate : option Dict) (w : World) : World :=
  match candidate with
  | Some event_data => (save_one self 0 event_data w).2
  | None => w
  end.

Definition exec (op : core_op) (w : World) : World :=
  match op with
  | OpSweep source_name => (mark_expired_events source_name w).2
  | OpUpsertEventbrite env card =>
      let self := EventbriteScraper.init env in
      upsert_extracted self (EventbriteScraper._extract_event_data env self (clock w) card) w
  | OpUpsertTimeOut env card =>
      let self := TimeOutScraper.init env in
      upsert_extracted self (TimeOutScraper._extract_event_data env self (clock w) card) w
  | OpTick t => mkWorld (db w) t (requests w)
  end.

Definition exec_all (ops : list core_op) (w : World) : World :=
  foldl (λ w op, exec op w) w ops.

(** ** Candidate records

    The shape of a dict the extractors build and the orchestrator
    stamps: the five required fields, present and not [None], at most
    [description] and [image_url] besides, and under every key a value
    of the type of its column (a [datetime] under [date_time], a [str]
    or, where the column is nullable, [None] under the others). *)

Definition required_keys : list string :=
  ["title"; "ticket_url"; "date_time"; "location"; "source"].

Definition candidate_keys : list string :=
  required_keys ++ ["description"; "image_url"].

Definition typed (key : string) (v : value) : bool :=
  match column_of key with
  | Some c => of_type (column_type c) v
  | None => false
  end.

Definition candidate (event_data : Dict) : Prop :=
  map_Forall (λ key _, key ∈ candidate_keys) event_data ∧
  Forall (λ key, is_Some (event_data !! key) ∧ event_data !! key ≠ Some VNone) required_keys ∧
  map_Forall (λ key v, typed key v = true) event_data.

Global Instance candidate_dec event_data : Decision (candidate event_data).
Proof. unfold candidate. apply _. Defined.

(** [save_event] replaced field by field what the candidate supplies,
    kept the key, and set [updated_at]. *)
Definition overwritten (event_data : Dict) (now : Z) (old new : Event) : Prop :=
  ticket_url new = ticket_url old ∧
  updated_at new = VTime now ∧
  ∀ c, c ≠ c_ticket_url → c ≠ c_updated_at →
    getcol new c = default (getcol old c) (event_data !! column_name c).

(** The row [mark_expired_events] would hit at time [now]. *)
Definition stale (source_name : string) (now : Z) (e : Event) : Prop :=
  source e = VStr source_name ∧
  (∃ t, date_time e = VTime t ∧ t < now - timedelta_days 1) ∧
  expires_at e = VNone.

(** ** Sample data

    A listing page, environments and tables on which the theorems
    below are exercised. *)

(** 2024-01-15T00:00 *)
Definition t_2024_01_15 : Z := 63840873600000000.

(** A card with a link and a date text no format reads. *)
Definition card_tba : Node :=
  Tag "article" ∅
    [Tag "h2" ∅ [Text " Jazz Night "];
     Tag "a" {["href" := "/e/jazz-1"]} [Text "Tickets"];
     Tag "time" ∅ [Text "TBA"]].

(** A card without any link. *)
Definition card_no_link : Node :=
  Tag "article" ∅ [Tag "h3" ∅ [Text "Coming soon"]; Tag "p" ∅ [Text "No link yet."]].

(** A card with an absolute link and a date that parses. *)
Definition card_dated : Node :=
  Tag "article" ∅
    [Tag "a" {["href" := "https://tickets.example/e/2"; "class" := "card Title-link"]}
       [Text "Film Club"];
     Tag "time" ∅ [Text "2024-01-15"];
     Tag "img" {["src" := "/img/2.png"]} []].

(** A card with a relative link and no date element. *)
Definition card_undated : Node :=
  Tag "article" ∅ [Tag "a" {["href" := "e/3"]} [Text "Open Mic"]].

Definition listing : Node :=
  Tag "html" ∅ [Tag "body" ∅ [card_tba; card_no_link; card_dated; card_undated]].

Definition empty_page : Node := Tag "html" ∅ [Tag "body" ∅ []].

Definition listing_only_first_page (url : string) : Res Node :=
  if decide (url = "https://www.eventbrite.com.au/d/australia--sydney/events/")
  then Ok listing else Ok empty_page.

(** robots.txt answers 404 (everything allowed), the browser works. *)
Definition env_ok : Env :=
  mkEnv 3 30 "sydney" (λ _, HTTPError 404) (λ url, Ok url)
    (Ok tt) (Ok tt) (Ok tt) (Ok tt) (Ok tt) (λ _, Ok tt) listing_only_first_page false.

(** robots.txt cannot be fetched: [urlopen] raises. *)
Definition env_robots_unreachable : Env :=
  mkEnv 3 30 "sydney" (λ _, ReadRaises (OtherError "URLError")) (λ url, Ok url)
    (Ok tt) (Ok tt) (Ok tt) (Ok tt) (Ok tt) (λ _, Ok tt) listing_only_first_page false.

(** The browser does not start. *)
Definition env_no_browser : Env :=
  mkEnv 3 30 "sydney" (λ _, HTTPError 404) (λ url, Ok url)
    (Ok tt) (Raise (OtherError "browser")) (Ok tt) (Ok tt) (Ok tt) (λ _, Ok tt)
    listing_only_first_page false.

Definition candidate_A : Dict :=
  {["ticket_url" := VStr "https://x/e1"; "title" := VStr "A";
    "date_time" := VTime t_2024_01_15; "location" := VStr "Sydney, Australia";
    "source" := VStr "eventbrite"]}.

Definition candidate_A_updated : Dict :=
  {["ticket_url" := VStr "https://x/e1"; "title" := VStr "A-updated";
    "date_time" := VTime t_2024_01_15; "location" := VStr "Sydney, Australia";
    "source" := VStr "eventbrite"]}.

Definition empty_world : World := mkWorld [] t_2024_01_15 [].

(** A record of source "timeout" dated two days before [t_2024_01_15]
    and one dated an hour before it. *)
Definition row_old : Event :=
  mkEvent (VInt 1) (VStr "Old") (VTime (t_2024_01_15 - timedelta_days 2))
    (VStr "Sydney, Australia") VNone (VStr "https://www.timeout.com/e/old") VNone
    (VStr "timeout") (VTime 0) (VTime 0) VNone (VInt 0).

Definition row_recent : Event :=
  mkEvent (VInt 2) (VStr "Recent") (VTime (t_2024_01_15 - microseconds 3600))
    (VStr "Sydney, Australia") VNone (VStr "https://www.timeout.com/e/recent") VNone
    (VStr "timeout") (VTime 0) (VTime 0) VNone (VInt 0).

Definition world_two_rows : World := mkWorld [row_old; row_recent] t_2024_01_15 [].

(** A scraper whose [run] raises, as a subclass overriding it may. *)
Definition failing_runner : Runner := mkRunner "meetup" (raise (OtherError "boom")).

(** ** More sample data *)


(** ** Vocabulary of the further properties *)

(** The columns that identify a record or belong to other parts of the
    application: the core has no business changing them. *)
Definition identity_columns : list column :=
  [c_id; c_ticket_url; c_created_at; c_click_count].

(** Closing the browser fails. *)
Definition env_close_fails : Env :=
  mkEnv 3 30 "sydney" (λ _, HTTPError 404) (λ url, Ok url)
    (Ok tt) (Ok tt) (Ok tt) (Raise (OtherError "close")) (Ok tt) (λ _, Ok tt)
    listing_only_first_page false.

(** ** ISO dates

    The text [YYYY-MM-DD] of a date, as [date.isoformat()] writes it:
    four digits, two digits, two digits. *)
Definition digit_char (n : Z) : ascii := ascii_of_nat (48 + Z.to_nat n).

Definition iso_date_text (y m d : Z) : string :=
  String (digit_char (y / 1000)) (String (digit_char (y / 100 mod 10))
    (String (digit_char (y / 10 mod 10)) (String (digit_char (y mod 10))
      (String "-" (String (digit_char (m / 10)) (String (digit_char (m mod 10))
        (String "-" (String (digit_char (d / 10)) (String (digit_char (d mod 10))
          EmptyString))))))))).

(** ** [run_scrapers.py] *)

(** One turn of the loop of [main]: the count of a run is added to the
    total; a run that raises adds nothing. *)
Definition main_one (scraper : Runner) (total_events : nat) : M nat :=
  try_except
    (count <- run_method scraper; ret (total_events + count)%nat)
    (λ _, ret total_events).

Fixpoint main_each (scrapers : list Runner) (total_events : nat) : M nat :=
  match scrapers with
  | [] => ret total_events
  | scraper :: rest =>
      total_events <- main_one scraper total_events;
      main_each rest total_events
  end.

(** [main]. [init_db] belongs to [app/database.py], which is not part
    of the sources at hand: it is the parameter [init_db]. The result
    is the total that the last log line reports. *)
Definition main (env : Env) (init_db : M unit) (meetup : Runner) : M nat :=
  run! init_db;
  try_finally
    (let scrapers :=
       [mkRunner "eventbrite" (EventbriteScraper.run_scraper env);
        meetup;
        mkRunner "timeout" (TimeOutScraper.run_scraper env)] in
     main_each scrapers 0%nat)
    (ret tt).                            (* [db.close()] *)

(** What a run adds to the total. *)
Definition counted (r : Res nat) : nat :=
  match r with Ok count => count | Raise _ => 0%nat end.

(** A dict whose [date_time] is a string, not a [datetime]. *)
Definition candidate_A_text_date : Dict :=
  <["date_time" := VStr "tomorrow"]> candidate_A.

(** The scraper is run from inside an event loop. *)
Definition env_in_loop : Env :=
  mkEnv 3 30 "sydney" (λ _, HTTPError 404) (λ url, Ok url)
    (Ok tt) (Ok tt) (Ok tt) (Ok tt) (Ok tt) (λ _, Ok tt) listing_only_first_page true.

(** * Properties *)

(** ** Columns and attributes *)

Lemma getcol_setcol (e : Event) (c c' : column) (v : value) :
  getcol (setcol e c v) c' = if decide (c = c') then v else getcol e c'.
Proof. by destruct c'. Qed.

Lemma column_of_name (c : column) : column_of (column_name c) = Some c.
Proof. by destruct c. Qed.

Lemma column_of_Some (key : string) (c : column) :
  column_of key = Some c → key = column_name c.
Proof.
  unfold column_of. intros H.
  apply fmap_Some in H as ([i c'] & Hf & ->).
  apply list_find_Some in Hf as (_ & Hc & _). done.
Qed.

Lemma column_name_inj (c c' : column) : column_name c = column_name c' → c = c'.
Proof. intros H. pose proof (column_of_name c) as Hc. rewrite H, column_of_name in Hc. congruence. Qed.

Lemma getcol_setattr (e : Event) (key : string) (v : value) (c : column) :
  getcol (setattr e key v) c = if decide (key = column_name c) then v else getcol e c.
Proof.
  unfold setattr. destruct (column_of key) as [c'|] eqn:Hk.
  - apply column_of_Some in Hk as ->. rewrite getcol_setcol.
    repeat case_decide; try done; subst; try done.
    exfalso. eauto using column_name_inj.
  - case_decide as Heq; [|done]. subst. by rewrite column_of_name in Hk.
Qed.

(** The update loop, column by column. *)
Lemma getcol_update_fields (event_data : Dict) (e : Event) (c : column) :
  getcol (update_fields event_data e) c =
    if decide (c = c_ticket_url) then getcol e c
    else default (getcol e c) (event_data !! column_name c).
Proof.
  unfold update_fields.
  apply (map_fold_weak_ind (λ r m, getcol r c =
    if decide (c = c_ticket_url) then getcol e c
    else default (getcol e c) (m !! column_name c))).
  - rewrite lookup_empty. by case_decide.
  - intros key v m r Hm IH. cbv beta.
    destruct (decide (key ≠ "ticket_url")) as [Hkey|Hkey].
    + rewrite getcol_setattr. destruct (decide (key = column_name c)) as [->|Hk].
      * rewrite lookup_insert_eq. case_decide; [by subst|done].
      * rewrite lookup_insert_ne by done. done.
    + apply dec_stable in Hkey. subst key. rewrite IH.
      case_decide; [done|]. rewrite lookup_insert_ne; [done|].
      intros Heq. by apply (column_name_inj c_ticket_url c) in Heq.
Qed.

(** The constructor, column by column. *)
Lemma getcol_Event_new (event_data : Dict) (e : Event) (c : column) :
  Event_new event_data = Ok e →
  getcol e c = default VNone (event_data !! column_name c).
Proof.
  unfold Event_new. case_decide; [|done]. intros [= <-].
  apply (map_fold_weak_ind (λ r m, getcol r c = default VNone (m !! column_name c))).
  - rewrite lookup_empty. by destruct c.
  - intros key v m r Hm IH. rewrite getcol_setattr. case_decide as Hk.
    + subst. by rewrite lookup_insert_eq.
    + by rewrite lookup_insert_ne.
Qed.

(** ** The monad *)

Ltac unfold_M :=
  unfold bindM, ret, lift, utcnow, get_db, getitem, try_except, raise in *.

(** ** Table constraints *)

Lemma constraints_fmap (f : Event → Event) (rows : list Event) :
  (∀ e, event_id (f e) = event_id e) →
  (∀ e, ticket_url (f e) = ticket_url e) →
  (∀ e, not_null e → not_null (f e)) →
  constraints rows → constraints (f <$> rows).
Proof.
  intros Hid Hurl Hnn (Hall & Hu & Hi). split_and!.
  - apply Forall_fmap. eapply Forall_impl; [exact Hall|]. intros e He. by apply Hnn.
  - rewrite <- list_fmap_compose.
    erewrite list_fmap_ext; [exact Hu|]. intros ? e _. simpl. apply Hurl.
  - rewrite <- list_fmap_compose.
    erewrite list_fmap_ext; [exact Hi|]. intros ? e _. simpl. apply Hid.
Qed.

Lemma row_binds_intro (old : option Event) (new : Event) :
  (∀ c, written old new c = true → binds (column_type c) (getcol new c) = true) →
  row_binds old new = true.
Proof.
  intros H. unfold row_binds. apply forallb_forall. intros c _.
  destruct (written old new c) eqn:Hw; [|done]. simpl. by apply H.
Qed.

Lemma row_binds_elim (old : option Event) (new : Event) (c : column) :
  row_binds old new = true → written old new c = true →
  binds (column_type c) (getcol new c) = true.
Proof.
  unfold row_binds. rewrite forallb_forall. intros H Hw.
  assert (Hc : In c columns) by (destruct c; simpl; tauto).
  specialize (H c Hc). by rewrite Hw in H.
Qed.

Lemma flushes_spec (before after : list Event) :
  flushes before after = true ↔
  ∀ i new, after !! i = Some new → row_binds (before !! i) new = true.
Proof.
  unfold flushes. rewrite forallb_forall. split.
  - intros H i new Hi. apply H. apply list_elem_of_In, elem_of_lookup_imap. eauto.
  - intros H b Hb. apply list_elem_of_In, elem_of_lookup_imap in Hb as (i & new & -> & Hi).
    by eapply H.
Qed.

(** A row that is left as it is writes nothing. *)
Lemma row_binds_same (e : Event) : row_binds (Some e) e = true.
Proof.
  apply row_binds_intro. intros c Hw. simpl in Hw.
  by apply bool_decide_eq_true in Hw.
Qed.

Lemma commit_ok (rows : list Event) (w : World) :
  flushes (db w) rows = true → constraints rows → commit rows w = (Ok tt, with_db w rows).
Proof. intros Hf H. unfold commit. by rewrite Hf, decide_True. Qed.

(** A commit writes the pending state or raises and leaves the world. *)
Lemma commit_cases (rows : list Event) (w : World) :
  (commit rows w = (Ok tt, with_db w rows) ∧ flushes (db w) rows = true ∧ constraints rows) ∨
  (∃ e, commit rows w = (Raise e, w) ∧
        (flushes (db w) rows = false ∨ ¬ constraints rows)).
Proof.
  unfold commit. destruct (flushes (db w) rows); simpl; [|eauto].
  case_decide; eauto.
Qed.

(** ** The expiration sweep *)

Lemma is_stale_spec (source_name : string) (now : Z) (e : Event) :
  is_stale source_name (now - timedelta_days 1) e = true ↔ stale source_name now e.
Proof.
  unfold is_stale, stale. rewrite !andb_true_iff, !bool_decide_eq_true. split.
  - intros [[Hs Hd] He]. split_and!; [done| |done].
    destruct (date_time e) as [| |t|]; try done.
    apply bool_decide_eq_true in Hd. eauto.
  - intros (Hs & (t & -> & Ht) & He). split_and!; [done| |done].
    by apply bool_decide_eq_true.
Qed.

Lemma sweep_none (source_name : string) (now : Z) (rows : list Event) :
  length (filter (λ e, is_stale source_name (now - timedelta_days 1) e = true) rows) = 0%nat →
  sweep_row source_name now <$> rows = rows.
Proof.
  induction rows as [|e rows IH]; [done|]. rewrite filter_cons. unfold sweep_row at 1.
  case_decide as He; simpl; [done|]. intros Hl.
  apply not_true_is_false in He. rewrite He. f_equal. by apply IH.
Qed.

Lemma expire_not_null now e : not_null e → not_null (expire now e).
Proof. by destruct e. Qed.

Lemma sweep_flushes source_name now rows :
  flushes rows (sweep_row source_name now <$> rows) = true.
Proof.
  apply flushes_spec. intros i new Hi.
  rewrite list_lookup_fmap in Hi. destruct (rows !! i) as [e|]; [|done].
  injection Hi as <-. unfold sweep_row. destruct (is_stale _ _ e); [|apply row_binds_same].
  apply row_binds_intro. intros c Hw. simpl in Hw. apply bool_decide_eq_true in Hw.
  unfold expire in *. rewrite !getcol_setcol in *.
  repeat case_decide; by subst.
Qed.

Lemma sweep_constraints source_name now rows :
  constraints rows → constraints (sweep_row source_name now <$> rows).
Proof.
  apply constraints_fmap; intros e; unfold sweep_row; destruct (is_stale _ _ e);
    first [done | apply expire_not_null].
Qed.

(** What [mark_expired_events] returns and leaves behind. *)
Lemma mark_expired_events_run (source_name : string) (w : World) :
  constraints (db w) →
  mark_expired_events source_name w =
    (Ok tt, with_db w (sweep_row source_name (clock w) <$> db w)).
Proof.
  intros Hc. unfold mark_expired_events. unfold_M.
  case_decide as Hn.
  - apply commit_ok; [apply sweep_flushes|by apply sweep_constraints].
  - rewrite sweep_none by lia. by destruct w.
Qed.

(** Without the constraint hypothesis: the table is swept or untouched. *)
Lemma mark_expired_events_db (source_name : string) (w : World) :
  let w' := (mark_expired_events source_name w).2 in
  (db w' = sweep_row source_name (clock w) <$> db w ∨ db w' = db w) ∧
  clock w' = clock w ∧ requests w' = requests w.
Proof.
  unfold mark_expired_events. unfold_M.
  case_decide; [|by auto]. unfold commit.
  destruct (flushes _ _); simpl; [|by auto]. case_decide; simpl; auto.
Qed.

(** C2. The sweep at time [clock w] sets [expires_at] to that time on
    exactly the rows of the source whose [date_time] is more than a day
    old and whose [expires_at] is null, and changes nothing else of
    them but the [updated_at] stamp; rows dated within the last 24
    hours and rows already expired are untouched; a second sweep, at any
    other instant, leaves the rows expired by the first as they are. *)
Theorem mark_expired_events_sweep (source_name : string) (w : World) (later : Z) :
  constraints (db w) →
  ∃ w1 w2,
    mark_expired_events source_name w = (Ok tt, w1) ∧
    mark_expired_events source_name (mkWorld (db w1) later (requests w1)) = (Ok tt, w2) ∧
    ∀ i e, db w !! i = Some e →
      (stale source_name (clock w) e →
         ∃ e1, db w1 !! i = Some e1 ∧ expires_at e1 = VTime (clock w) ∧
               (∀ c, c ≠ c_expires_at → c ≠ c_updated_at → getcol e1 c = getcol e c) ∧
               db w2 !! i = Some e1) ∧
      (¬ stale source_name (clock w) e → db w1 !! i = Some e) ∧
      (∀ t, date_time e = VTime t → clock w - timedelta_days 1 ≤ t → db w1 !! i = Some e) ∧
      (expires_at e ≠ VNone → db w1 !! i = Some e).
Proof.
  intros Hc. eexists _, _. split; [by apply mark_expired_events_run|].
  split.
  { rewrite mark_expired_events_run; [done|]. simpl. by apply sweep_constraints. }
  intros i e Hi. simpl.
  assert (Hkeep : ¬ stale source_name (clock w) e →
    (sweep_row source_name (clock w) <$> db w) !! i = Some e).
  { intros Hn. rewrite list_lookup_fmap, Hi. simpl. f_equal. unfold sweep_row.
    destruct (is_stale _ _ e) eqn:Hs; [|done]. by apply is_stale_spec in Hs. }
  split_and!.
  - intros Hs. exists (expire (clock w) e).
    assert (Hrow : sweep_row source_name (clock w) e = expire (clock w) e).
    { unfold sweep_row. apply is_stale_spec in Hs. by rewrite Hs. }
    split_and!.
    + by rewrite list_lookup_fmap, Hi, <- Hrow.
    + done.
    + intros c ? ?. unfold expire. rewrite !getcol_setcol. by repeat case_decide.
    + rewrite !list_lookup_fmap, Hi. simpl. rewrite Hrow. f_equal.
      unfold sweep_row, is_stale. simpl. by rewrite andb_false_r.
  - done.
  - intros t Ht Hle. apply Hkeep. intros (_ & (t' & Ht' & Hlt) & _).
    rewrite Ht in Ht'. simplify_eq. lia.
  - intros Hne. apply Hkeep. by intros (_ & _ & ?).
Qed.

(** ** Upsert *)

Lemma next_id_fresh (rows : list Event) : VInt (next_id rows) ∉ event_id <$> rows.
Proof.
  assert (H : ∀ n, VInt n ∈ event_id <$> rows → n ≤ foldr Z.max 0 (int_ids rows)).
  { unfold int_ids. induction rows as [|e rows IH]; intros n Hn; [by apply elem_of_nil in Hn|].
    rewrite fmap_cons in Hn. apply elem_of_cons in Hn as [Hn|Hn]; cbn [omap list_omap].
    - rewrite <- Hn. cbn [foldr]. lia.
    - specialize (IH n Hn). destruct (event_id e); cbn [foldr]; lia. }
  intros Hin. apply H in Hin. unfold next_id in Hin. lia.
Qed.

Lemma check_duplicate_Some (u : value) (rows : list Event) (i : nat) (e : Event) :
  check_duplicate u rows = Some (i, e) → rows !! i = Some e ∧ ticket_url e = u.
Proof. unfold check_duplicate. intros (? & ? & _)%list_find_Some. done. Qed.

Lemma check_duplicate_None (u : value) (rows : list Event) :
  check_duplicate u rows = None → u ∉ ticket_url <$> rows.
Proof.
  unfold check_duplicate. rewrite list_find_None, Forall_forall.
  intros H (e & -> & He)%list_elem_of_fmap. by apply (H e).
Qed.

(** Under the uniqueness constraint the lookup finds the one row there is. *)
Lemma check_duplicate_unique (rows : list Event) (i : nat) (e : Event) :
  NoDup (ticket_url <$> rows) → rows !! i = Some e →
  check_duplicate (ticket_url e) rows = Some (i, e).
Proof.
  intros Hnd Hi. unfold check_duplicate. apply list_find_Some. split_and!; [done..|].
  intros j y Hj Hlt Heq.
  assert (j = i); [|lia].
  eapply (NoDup_lookup _ j i (ticket_url e) Hnd); rewrite list_lookup_fmap.
  - by rewrite Hj, <- Heq.
  - by rewrite Hi.
Qed.

Lemma unique_row (rows : list Event) (i j : nat) (e e' : Event) :
  NoDup (ticket_url <$> rows) → rows !! i = Some e → rows !! j = Some e' →
  ticket_url e' = ticket_url e → j = i.
Proof.
  intros Hnd Hi Hj Heq.
  eapply (NoDup_lookup _ j i (ticket_url e) Hnd); rewrite list_lookup_fmap.
  - by rewrite Hj, <- Heq.
  - by rewrite Hi.
Qed.

Lemma candidate_key (event_data : Dict) (key : string) :
  candidate event_data → is_Some (event_data !! key) → key ∈ candidate_keys.
Proof. intros [H _] [v Hv]. by apply (H key v). Qed.

Lemma candidate_required (event_data : Dict) (key : string) :
  candidate event_data → key ∈ required_keys →
  ∃ v, event_data !! key = Some v ∧ v ≠ VNone.
Proof.
  intros (_ & H & _) Hk. rewrite Forall_forall in H. destruct (H key Hk) as [[v Hv] Hn].
  exists v. split; [done|]. intros ->. done.
Qed.

Lemma candidate_typed (event_data : Dict) (c : column) (v : value) :
  candidate event_data → event_data !! column_name c = Some v →
  of_type (column_type c) v = true.
Proof.
  intros (_ & _ & H) Hv. specialize (H _ _ Hv). simpl in H.
  unfold typed in H. by rewrite column_of_name in H.
Qed.

Lemma of_type_binds (ty : coltype) (v : value) : of_type ty v = true → binds ty v = true.
Proof. by destruct ty, v. Qed.

Lemma candidate_absent (event_data : Dict) (key : string) :
  candidate event_data → key ∉ candidate_keys → event_data !! key = None.
Proof.
  intros Hc Hk. destruct (event_data !! key) eqn:E; [|done].
  exfalso. apply Hk. eapply candidate_key; eauto.
Qed.

Lemma candidate_Event_new (event_data : Dict) :
  candidate event_data → ∃ e, Event_new event_data = Ok e.
Proof.
  intros [Hk _]. unfold Event_new. rewrite decide_True; [eauto|].
  intros key v Hkv. specialize (Hk key v Hkv). simpl in Hk.
  unfold candidate_keys, required_keys in Hk. simpl in Hk.
  repeat (apply elem_of_cons in Hk as [->|Hk]; [by eexists|]).
  by apply elem_of_nil in Hk.
Qed.

(** Membership of a literal key in a literal list, by evaluation. *)
Ltac solve_key := refine (bool_decide_unpack _ _); vm_compute; exact I.

(** A row that a candidate has overwritten still meets the constraints. *)
Lemma updated_not_null (event_data : Dict) (now : Z) (old : Event) :
  candidate event_data → not_null old →
  not_null (setcol (update_fields event_data old) c_updated_at (VTime now)).
Proof.
  intros Hc (? & ? & ? & ? & ? & ?).
  assert (Hreq : ∀ c, column_name c ∈ required_keys → c ≠ c_ticket_url →
    getcol (update_fields event_data old) c ≠ VNone).
  { intros c Hin Hne. rewrite getcol_update_fields. rewrite decide_False by done.
    destruct (candidate_required _ _ Hc Hin) as (v & -> & Hv). done. }
  unfold not_null.
  change (event_id (setcol ?e ?c ?v)) with (getcol e c_id).
  change (title (setcol ?e ?c ?v)) with (getcol e c_title).
  change (date_time (setcol ?e ?c ?v)) with (getcol e c_date_time).
  change (location (setcol ?e ?c ?v)) with (getcol e c_location).
  change (ticket_url (setcol ?e ?c ?v)) with (getcol e c_ticket_url).
  change (source (setcol ?e ?c ?v)) with (getcol e c_source).
  split_and!; try (apply Hreq; [solve_key|done]).
  - rewrite getcol_update_fields. rewrite decide_False by done. cbn [column_name].
    rewrite (candidate_absent event_data "id" Hc); [done|]. solve_key.
  - rewrite getcol_update_fields. by rewrite decide_True.
Qed.

Lemma update_constraints (event_data : Dict) (now : Z) (rows : list Event)
    (i : nat) (old : Event) :
  candidate event_data → constraints rows → rows !! i = Some old →
  constraints (<[i := setcol (update_fields event_data old) c_updated_at (VTime now)]> rows).
Proof.
  intros Hc (Hall & Hu & Hi) Hold.
  set (new := setcol _ _ _).
  assert (Hurl : ticket_url new = ticket_url old).
  { change (getcol (update_fields event_data old) c_ticket_url = getcol old c_ticket_url).
    rewrite getcol_update_fields. by rewrite decide_True. }
  assert (Hid : event_id new = event_id old).
  { change (getcol (update_fields event_data old) c_id = getcol old c_id).
    rewrite getcol_update_fields. rewrite decide_False by done. cbn [column_name].
    rewrite (candidate_absent event_data "id" Hc); [done|]. solve_key. }
  split_and!.
  - apply Forall_insert; [done|]. apply updated_not_null; [done|].
    eapply Forall_lookup_1; eauto.
  - rewrite list_fmap_insert, Hurl. rewrite list_insert_id; [done|].
    by rewrite list_lookup_fmap, Hold.
  - rewrite list_fmap_insert, Hid. rewrite list_insert_id; [done|].
    by rewrite list_lookup_fmap, Hold.
Qed.

(** What a candidate writes over a row can be bound. *)
Lemma update_flushes (event_data : Dict) (now : Z) (rows : list Event)
    (i : nat) (old : Event) :
  candidate event_data → rows !! i = Some old →
  flushes rows
    (<[i := setcol (update_fields event_data old) c_updated_at (VTime now)]> rows) = true.
Proof.
  intros Hc Hold. apply flushes_spec. intros j new Hj.
  destruct (decide (j = i)) as [->|Hne].
  - rewrite list_lookup_insert_eq in Hj by (by eapply lookup_lt_Some).
    injection Hj as <-. rewrite Hold. apply row_binds_intro. intros c Hw.
    simpl in Hw. apply bool_decide_eq_true in Hw. rewrite getcol_setcol in *.
    case_decide as Hup; [by subst|].
    rewrite getcol_update_fields in *. case_decide; [done|].
    destruct (event_data !! column_name c) as [v|] eqn:Hv; [|done].
    cbn [default]. apply of_type_binds. by eapply candidate_typed.
  - rewrite list_lookup_insert_ne in Hj by done. rewrite Hj. apply row_binds_same.
Qed.

(** So can the row a candidate inserts. *)
Lemma insert_flushes (event_data : Dict) (now : Z) (rows : list Event) (new_event : Event) :
  candidate event_data → Event_new event_data = Ok new_event →
  flushes rows (rows ++ [insert_defaults now rows new_event]) = true.
Proof.
  intros Hc Hnew. apply flushes_spec. intros j new Hj.
  destruct (decide (j < length rows)%nat) as [Hlt|Hge].
  - rewrite lookup_app_l in Hj by done. rewrite Hj. apply row_binds_same.
  - rewrite lookup_app_r in Hj by lia.
    apply list_lookup_singleton_Some in Hj as [_ <-].
    assert (Hget : ∀ c, getcol new_event c = default VNone (event_data !! column_name c)).
    { intros c. by apply getcol_Event_new. }
    assert (Habs : ∀ c, column_name c ∉ candidate_keys → getcol new_event c = VNone).
    { intros c Hk. rewrite Hget. by rewrite (candidate_absent _ _ Hc Hk). }
    pose proof (Habs c_created_at ltac:(solve_key)) as Ha1.
    pose proof (Habs c_updated_at ltac:(solve_key)) as Ha2.
    pose proof (Habs c_expires_at ltac:(solve_key)) as Ha3.
    assert (Hd : binds TDateTime (getcol new_event c_date_time) = true).
    { rewrite Hget. cbn [column_name].
      destruct (event_data !! "date_time") as [v|] eqn:Hv; [|done].
      cbn [default]. apply of_type_binds. by apply (candidate_typed event_data c_date_time). }
    cbn [getcol] in Ha1, Ha2, Ha3, Hd.
    apply row_binds_intro. intros c _.
    destruct c; cbn [column_type getcol insert_defaults]; simpl;
      rewrite ?Ha1, ?Ha2, ?Ha3; try done.
    all: by destruct (or_default _ _).
Qed.

(** The update branch of [save_event]. *)
Lemma save_event_update (event_data : Dict) (w : World) (u : value) (i : nat) (old : Event) :
  event_data !! "ticket_url" = Some u →
  check_duplicate u (db w) = Some (i, old) →
  let new := setcol (update_fields event_data old) c_updated_at (VTime (clock w)) in
  flushes (db w) (<[i := new]> (db w)) = true →
  constraints (<[i := new]> (db w)) →
  is_Some (event_data !! "title") →
  save_event event_data w = (Ok new, with_db w (<[i := new]> (db w))).
Proof.
  intros Hu Hdup new Hf Hc [t Ht]. unfold save_event. unfold_M.
  rewrite Hu, Hdup. fold new. rewrite (commit_ok _ _ Hf Hc). simpl. by rewrite Ht.
Qed.

(** The insert branch of [save_event]. *)
Lemma save_event_insert (event_data : Dict) (w : World) (u : value) (new_event : Event) :
  event_data !! "ticket_url" = Some u →
  check_duplicate u (db w) = None →
  Event_new event_data = Ok new_event →
  let row := insert_defaults (clock w) (db w) new_event in
  flushes (db w) (db w ++ [row]) = true →
  constraints (db w ++ [row]) →
  is_Some (event_data !! "title") →
  save_event event_data w = (Ok row, with_db w (db w ++ [row])).
Proof.
  intros Hu Hdup Hnew row Hf Hc [t Ht]. unfold save_event. unfold_M.
  rewrite Hu, Hdup, Hnew. fold row. rewrite (commit_ok _ _ Hf Hc). simpl. by rewrite Ht.
Qed.

Lemma insert_constraints (event_data : Dict) (now : Z) (rows : list Event)
    (u : value) (new_event : Event) :
  candidate event_data → constraints rows →
  event_data !! "ticket_url" = Some u → u ∉ ticket_url <$> rows →
  Event_new event_data = Ok new_event →
  constraints (rows ++ [insert_defaults now rows new_event]).
Proof.
  intros Hc (Hall & Hu & Hi) Hurl Hfresh Hnew.
  pose proof (getcol_Event_new _ _ c_id Hnew) as Hid. cbn [column_name] in Hid.
  rewrite (candidate_absent event_data "id" Hc) in Hid by solve_key. simpl in Hid.
  assert (Hreq : ∀ c, column_name c ∈ required_keys → getcol new_event c ≠ VNone).
  { intros c Hin. rewrite (getcol_Event_new _ _ c Hnew).
    destruct (candidate_required _ _ Hc Hin) as (v & -> & Hv). done. }
  split_and!.
  - apply Forall_app. split; [done|]. apply Forall_singleton.
    unfold not_null, insert_defaults; simpl. rewrite Hid. simpl.
    split_and!; [done|..].
    + apply (Hreq c_title). solve_key.
    + apply (Hreq c_date_time). solve_key.
    + apply (Hreq c_location). solve_key.
    + apply (Hreq c_ticket_url). solve_key.
    + apply (Hreq c_source). solve_key.
  - rewrite fmap_app. apply NoDup_app. split_and!; [done| |apply NoDup_singleton].
    intros x Hx Hx'. simpl in Hx'. apply list_elem_of_singleton in Hx'. subst x.
    pose proof (getcol_Event_new _ _ c_ticket_url Hnew) as Hgu. simpl in Hgu.
    rewrite Hurl in Hgu. simpl in Hgu. rewrite Hgu in Hx. done.
  - rewrite fmap_app. apply NoDup_app. split_and!; [done| |apply NoDup_singleton].
    intros x Hx Hx'. simpl in Hx'. apply list_elem_of_singleton in Hx'. subst x.
    rewrite Hid in Hx. simpl in Hx. by apply next_id_fresh in Hx.
Qed.

Lemma save_event_candidate_update (event_data : Dict) (w : World) (i : nat) (old : Event) :
  constraints (db w) → candidate event_data →
  event_data !! "ticket_url" = Some (ticket_url old) →
  db w !! i = Some old →
  let new := setcol (update_fields event_data old) c_updated_at (VTime (clock w)) in
  save_event event_data w = (Ok new, with_db w (<[i := new]> (db w))) ∧
  constraints (<[i := new]> (db w)) ∧
  overwritten event_data (clock w) old new.
Proof.
  intros Hc Hcand Hu Hi new.
  assert (Hc' : constraints (<[i := new]> (db w))) by by apply update_constraints.
  split_and!; [|done|].
  - apply (save_event_update event_data w (ticket_url old) i old); [done| | |done|].
    + apply check_duplicate_unique; [apply Hc|done].
    + by apply update_flushes.
    + destruct (candidate_required event_data "title" Hcand) as (v & -> & _); [solve_key|done].
  - unfold overwritten, new. split_and!.
    + change (getcol (update_fields event_data old) c_ticket_url = getcol old c_ticket_url).
      rewrite getcol_update_fields. by rewrite decide_True.
    + done.
    + intros c Hn1 Hn2. rewrite getcol_setcol. rewrite decide_False by done.
      rewrite getcol_update_fields. by rewrite decide_False.
Qed.

Lemma save_event_candidate_insert (event_data : Dict) (w : World) (u : value) :
  constraints (db w) → candidate event_data →
  event_data !! "ticket_url" = Some u →
  check_duplicate u (db w) = None →
  ∃ row,
    save_event event_data w = (Ok row, with_db w (db w ++ [row])) ∧
    constraints (db w ++ [row]) ∧
    ticket_url row = u ∧
    created_at row = VTime (clock w) ∧
    updated_at row = VTime (clock w) ∧
    expires_at row = VNone ∧
    (∀ key v, event_data !! key = Some v → getattr row key = Some v).
Proof.
  intros Hc Hcand Hu Hdup.
  destruct (candidate_Event_new _ Hcand) as [new_event Hnew].
  exists (insert_defaults (clock w) (db w) new_event).
  assert (Hc' : constraints (db w ++ [insert_defaults (clock w) (db w) new_event])).
  { eapply insert_constraints; eauto using check_duplicate_None. }
  assert (Hget : ∀ c, getcol new_event c = default VNone (event_data !! column_name c)).
  { intros c. by apply getcol_Event_new. }
  assert (Habs : ∀ c, column_name c ∉ candidate_keys → getcol new_event c = VNone).
  { intros c Hk. rewrite Hget. by rewrite (candidate_absent _ _ Hcand Hk). }
  pose proof (Hget c_title) as Hg1. pose proof (Hget c_ticket_url) as Hg2.
  pose proof (Hget c_date_time) as Hg3. pose proof (Hget c_location) as Hg4.
  pose proof (Hget c_source) as Hg5. pose proof (Hget c_description) as Hg6.
  pose proof (Hget c_image_url) as Hg7.
  pose proof (Habs c_created_at ltac:(solve_key)) as Ha1.
  pose proof (Habs c_updated_at ltac:(solve_key)) as Ha2.
  pose proof (Habs c_expires_at ltac:(solve_key)) as Ha3.
  simpl in Hg1, Hg2, Hg3, Hg4, Hg5, Hg6, Hg7, Ha1, Ha2, Ha3.
  split_and!; [|done|..].
  - apply (save_event_insert event_data w u new_event);
      [done|done|done|by apply (insert_flushes event_data)|done|].
    destruct (candidate_required event_data "title" Hcand) as (v & -> & _); [solve_key|done].
  - simpl. rewrite Hg2, Hu. done.
  - simpl. by rewrite Ha1.
  - simpl. by rewrite Ha2.
  - simpl. by rewrite Ha3.
  - intros key v Hkv.
    assert (Hin : key ∈ candidate_keys) by (eapply candidate_key; eauto).
    unfold candidate_keys, required_keys in Hin. simpl in Hin.
    repeat (apply elem_of_cons in Hin as [->|Hin];
      [unfold getattr; simpl;
       first [ rewrite Hg1, Hkv | rewrite Hg2, Hkv | rewrite Hg3, Hkv | rewrite Hg4, Hkv
             | rewrite Hg5, Hkv | rewrite Hg6, Hkv | rewrite Hg7, Hkv ];
       done|]).
    by apply elem_of_nil in Hin.
Qed.

(** C1. [save_event] is an upsert keyed by [ticket_url]. On a table
    that meets its constraints, a first candidate record (the required
    fields present, every value of the type of its column) is written
    over the record carrying its [ticket_url] (every field it supplies but the key
    itself, and [updated_at] set to the clock) or, if there is none,
    inserted as a new record with [created_at] set to the clock. A second
    candidate with the same [ticket_url], ingested later, is written over
    that record: the table then holds exactly one record for the
    [ticket_url], with the second candidate's field values, the key
    unchanged and [updated_at] moved from the first instant to the second. *)
Theorem save_event_upsert (d1 d2 : Dict) (u : value) (w : World) (t2 : Z) :
  constraints (db w) → candidate d1 → candidate d2 →
  d1 !! "ticket_url" = Some u → d2 !! "ticket_url" = Some u →
  clock w < t2 →
  ∃ i e1 w1 e2 w2,
    save_event d1 w = (Ok e1, w1) ∧
    save_event d2 (mkWorld (db w1) t2 (requests w1)) = (Ok e2, w2) ∧
    match check_duplicate u (db w) with
    | Some (j, old) =>
        j = i ∧ db w1 = <[i := e1]> (db w) ∧ overwritten d1 (clock w) old e1
    | None =>
        i = length (db w) ∧ db w1 = db w ++ [e1] ∧
        created_at e1 = VTime (clock w) ∧
        (∀ key v, d1 !! key = Some v → getattr e1 key = Some v)
    end ∧
    db w2 = <[i := e2]> (db w1) ∧
    overwritten d2 t2 e1 e2 ∧
    db w2 !! i = Some e2 ∧
    (∀ j e, db w2 !! j = Some e → ticket_url e = u → j = i) ∧
    ticket_url e2 = u ∧
    updated_at e1 = VTime (clock w) ∧ updated_at e2 = VTime t2 ∧
    (∃ t1, updated_at e1 = VTime t1 ∧ t1 < t2).
Proof.
  intros Hc Hc1 Hc2 Hu1 Hu2 Hlt.
  (* the first ingestion leaves a constrained table with [e1] at row [i] *)
  assert (∃ i e1 w1,
    save_event d1 w = (Ok e1, w1) ∧ constraints (db w1) ∧
    db w1 !! i = Some e1 ∧ ticket_url e1 = u ∧ updated_at e1 = VTime (clock w) ∧
    match check_duplicate u (db w) with
    | Some (j, old) =>
        j = i ∧ db w1 = <[i := e1]> (db w) ∧ overwritten d1 (clock w) old e1
    | None =>
        i = length (db w) ∧ db w1 = db w ++ [e1] ∧
        created_at e1 = VTime (clock w) ∧
        (∀ key v, d1 !! key = Some v → getattr e1 key = Some v)
    end) as (i & e1 & w1 & Hs1 & Hcw1 & Hi1 & Hurl1 & Hup1 & Hfirst).
  { destruct (check_duplicate u (db w)) as [[j old]|] eqn:Hdup.
    - apply check_duplicate_Some in Hdup as [Hold <-].
      destruct (save_event_candidate_update d1 w j old Hc Hc1 Hu1 Hold) as (Hs & Hc' & Hov).
      eexists j, _, _. split; [exact Hs|]. simpl.
      split_and!; try done; try apply Hov.
      apply list_lookup_insert_eq. by eapply lookup_lt_Some.
    - destruct (save_event_candidate_insert d1 w u Hc Hc1 Hu1 Hdup)
        as (row & Hs & Hc' & ? & ? & ? & ? & ?).
      eexists (length (db w)), row, _. split; [exact Hs|]. simpl. split_and!; try done.
      by rewrite lookup_app_r, Nat.sub_diag by lia. }
  (* the second ingestion updates that row *)
  rewrite <- Hurl1 in Hu2.
  destruct (save_event_candidate_update d2 (mkWorld (db w1) t2 (requests w1)) i e1
              Hcw1 Hc2 Hu2 Hi1) as (Hs2 & Hc2' & Hov2).
  cbn [db clock requests] in Hs2, Hc2', Hov2.
  set (e2 := setcol (update_fields d2 e1) c_updated_at (VTime t2)) in *.
  assert (Hi2 : <[i := e2]> (db w1) !! i = Some e2).
  { apply list_lookup_insert_eq. by eapply lookup_lt_Some. }
  destruct Hov2 as (Hk2 & Hup2 & Hf2).
  exists i, e1, w1, e2, (with_db (mkWorld (db w1) t2 (requests w1)) (<[i := e2]> (db w1))).
  split; [exact Hs1|]. split; [exact Hs2|]. split; [exact Hfirst|].
  cbn [db with_db].
  split_and!; try done.
  - intros j e Hj He. eapply unique_row; [apply Hc2'|exact Hi2|exact Hj|].
    by rewrite He, Hk2.
  - by rewrite Hk2.
  - exists (clock w). done.
Qed.

(** ** Robots policy *)

Lemma fresh_parser_denies (env : Env) (useragent url : string) :
  robotparser.can_fetch env robotparser.new useragent url = Ok false.
Proof. reflexivity. Qed.

Lemma check_robots_txt_failure (env : Env) (base : string) (e : exn) :
  robots_read env (urljoin base "/robots.txt") = ReadRaises e →
  _check_robots_txt env base = Some robotparser.new.
Proof. intros H. unfold _check_robots_txt, robotparser.read. by rewrite H. Qed.

(** After a failed robots fetch the scraper is constructed, but with a
    parser that has read nothing: it allows no URL at all. *)
Lemma robots_failure_denies_all (env : Env) (name base url : string) (e : exn) :
  robots_read env (urljoin base "/robots.txt") = ReadRaises e →
  can_fetch env (BaseScraper_init env name base) url = false.
Proof.
  intros H. unfold can_fetch, BaseScraper_init. simpl.
  by rewrite (check_robots_txt_failure env base e H).
Qed.

(** The part of the robots claim that the code does meet: a check that
    raises at query time allows the URL. *)
Lemma can_fetch_fail_open (env : Env) (self : BaseScraper)
    (rp : robotparser.RobotFileParser) (url : string) (e : exn) :
  robot_parser self = Some rp →
  robotparser.can_fetch env rp (user_agent self) url = Raise e →
  can_fetch env self url = true.
Proof. intros Hrp Hq. unfold can_fetch. by rewrite Hrp, Hq. Qed.

(** ** Extraction *)

Ltac unfold_extract :=
  unfold EventbriteScraper._extract_event_data, TimeOutScraper._extract_event_data in *.

Ltac extract_lookup :=
  repeat first [ rewrite lookup_insert_eq | rewrite lookup_insert_ne by done
               | rewrite lookup_empty ].

(** The keys of an extracted candidate, and what stands under them. *)
Ltac solve_extract_shape link :=
  let H := fresh "H" in
  intros H; unfold_extract;
  destruct link as [?|] eqn:?; [|discriminate H];
  injection H as <-;
  match goal with Hl : _ = Some ?x |- _ => exists x end;
  split; [reflexivity|];
  split_and!;
    [ extract_lookup; reflexivity
    | extract_lookup; reflexivity
    | extract_lookup; eexists; reflexivity
    | extract_lookup; eexists; reflexivity
    | let key := fresh "key" in let Hk := fresh "Hk" in
      intros key Hk;
      repeat (rewrite lookup_insert_ne; [|intros <-; apply Hk; solve_key]);
      apply lookup_empty ].

Lemma eventbrite_extract_shape (env : Env) (self : BaseScraper) (now : Z)
    (card : Node) (d : Dict) :
  EventbriteScraper._extract_event_data env self now card = Some d →
  ∃ link, EventbriteScraper.link_elem card = Some link ∧
    d !! "ticket_url" =
      Some (VStr (EventbriteScraper.resolve self (default EmptyString (get link "href")))) ∧
    d !! "date_time" =
      Some (VTime match EventbriteScraper.date_elem card with
                  | Some elem => EventbriteScraper._parse_date now (get_text elem)
                  | None => now
                  end) ∧
    (∃ s, d !! "title" = Some (VStr s)) ∧
    (∃ s, d !! "location" = Some (VStr s)) ∧
    (∀ key, key ∉ ["title"; "ticket_url"; "date_time"; "location"; "description"; "image_url"] →
       d !! key = None).
Proof. solve_extract_shape (EventbriteScraper.link_elem card). Qed.

Lemma timeout_extract_shape (env : Env) (self : BaseScraper) (now : Z)
    (card : Node) (d : Dict) :
  TimeOutScraper._extract_event_data env self now card = Some d →
  ∃ link, TimeOutScraper.link_elem card = Some link ∧
    d !! "ticket_url" =
      Some (VStr (TimeOutScraper.resolve self (default EmptyString (get link "href")))) ∧
    d !! "date_time" =
      Some (VTime match TimeOutScraper.date_elem card with
                  | Some elem => TimeOutScraper._parse_date now (get_text elem)
                  | None => now
                  end) ∧
    (∃ s, d !! "title" = Some (VStr s)) ∧
    (∃ s, d !! "location" = Some (VStr s)) ∧
    (∀ key, key ∉ ["title"; "ticket_url"; "date_time"; "location"; "description"; "image_url"] →
       d !! key = None).
Proof. solve_extract_shape (TimeOutScraper.link_elem card). Qed.

(** ** What a save does to the table *)

(** [save_event] leaves the table as it was, or overwrites the row its
    [ticket_url] names, or appends one row; it never answers [Ok]
    without having committed. *)
Lemma save_event_rows (event_data : Dict) (w : World) :
  ∃ r w1, save_event event_data w = (r, w1) ∧
    clock w1 = clock w ∧ requests w1 = requests w ∧
    ((db w1 = db w ∧ raised r = true) ∨
     (∃ i old,
        let new := setcol (update_fields event_data old) c_updated_at (VTime (clock w)) in
        db w !! i = Some old ∧ event_data !! "ticket_url" = Some (ticket_url old) ∧
        db w1 = <[i := new]> (db w) ∧ (r = Ok new ∨ raised r = true)) ∨
     (∃ new_event,
        let row := insert_defaults (clock w) (db w) new_event in
        Event_new event_data = Ok new_event ∧ is_Some (event_data !! "ticket_url") ∧
        db w1 = db w ++ [row] ∧ (r = Ok row ∨ raised r = true))).
Proof.
  unfold save_event. unfold_M.
  destruct (event_data !! "ticket_url") as [u|] eqn:Hu; [|eexists _, _; eauto 10].
  destruct (check_duplicate u (db w)) as [[i old]|] eqn:Hdup.
  - apply check_duplicate_Some in Hdup as [Hold <-].
    unfold commit. destruct (flushes _ _); cbn [negb]; [|eexists _, _; eauto 10].
    case_decide; [|eexists _, _; eauto 10].
    destruct (event_data !! "title"); eexists _, _; (split; [reflexivity|]);
      simpl; (split_and!; [done..|]); right; left; eexists i, old; eauto 10.
  - destruct (Event_new event_data) as [new_event|] eqn:Hnew; [|eexists _, _; eauto 10].
    unfold commit. destruct (flushes _ _); cbn [negb]; [|eexists _, _; eauto 10].
    case_decide; [|eexists _, _; eauto 10].
    destruct (event_data !! "title"); eexists _, _; (split; [reflexivity|]);
      simpl; (split_and!; [done..|]); right; right; eexists new_event; eauto 10.
Qed.

Lemma rate_limit_world (self : BaseScraper) (w : World) :
  db (rate_limit self w).2 = db w ∧ requests (rate_limit self w).2 = requests w.
Proof. unfold rate_limit, time_sleep. by case_decide. Qed.

(** One turn of the save loop never raises; each row it leaves is a row
    that was there, or one written from the candidate and stamped. *)
Lemma save_one_rows (self : BaseScraper) (n : nat) (event_data : Dict) (w : World) :
  ∃ n' w1, save_one self n event_data w = (Ok n', w1) ∧
    requests w1 = requests w ∧
    (length (db w) ≤ length (db w1))%nat ∧
    ∀ i e', db w1 !! i = Some e' →
      db w !! i = Some e' ∨
      (source e' = VStr (source_name self) ∧
       event_data !! "ticket_url" = Some (ticket_url e') ∧
       (event_data !! "expires_at" = None →
          expires_at e' = default VNone (expires_at <$> db w !! i))).
Proof.
  unfold save_one.
  set (d := <["source" := VStr (source_name self)]> event_data).
  destruct (save_event_rows d w) as (r & w1 & Hs & _ & Hreq & Hrows).
  rewrite Hs.
  assert (∃ n' w2, (match r with
      | Ok _ => let (_, w2) := rate_limit self w1 in (Ok (S n), w2)
      | Raise _ => (Ok n, w1) end) = (Ok n', w2) ∧ db w2 = db w1 ∧ requests w2 = requests w1)
    as (n' & w2 & Hw2 & Hdb2 & Hr2).
  { destruct r; [|eauto]. pose proof (rate_limit_world self w1) as [? ?].
    destruct (rate_limit self w1) as [? w2]. eauto. }
  exists n', w2. split.
  { destruct r; simpl in *; exact Hw2. }
  rewrite Hdb2, Hr2. split; [done|].
  assert (Hurl : d !! "ticket_url" = event_data !! "ticket_url") by (by apply lookup_insert_ne).
  assert (Hexp : d !! "expires_at" = event_data !! "expires_at") by (by apply lookup_insert_ne).
  assert (Hsrc : d !! "source" = Some (VStr (source_name self))) by apply lookup_insert_eq.
  destruct Hrows as [[-> _]|[(i & old & Hold & Hu & -> & _)|(ne & Hnew & Hkey & -> & _)]].
  - split; [done|]. eauto.
  - rewrite length_insert. split; [done|]. intros j e' Hj.
    destruct (decide (i = j)) as [<-|Hne].
    + rewrite list_lookup_insert_eq in Hj by (by eapply lookup_lt_Some).
      injection Hj as <-. right. split_and!.
      * change (getcol (setcol (update_fields d old) c_updated_at (VTime (clock w))) c_source
                = VStr (source_name self)).
        rewrite getcol_setcol, decide_False by done.
        rewrite getcol_update_fields, decide_False by done. cbn [column_name].
        by rewrite Hsrc.
      * rewrite <- Hurl, Hu. f_equal.
        change (ticket_url old =
                getcol (setcol (update_fields d old) c_updated_at (VTime (clock w))) c_ticket_url).
        rewrite getcol_setcol, decide_False by done.
        rewrite getcol_update_fields. by rewrite decide_True.
      * intros Hnone. rewrite Hold. simpl.
        change (getcol (setcol (update_fields d old) c_updated_at (VTime (clock w))) c_expires_at
                = getcol old c_expires_at).
        rewrite getcol_setcol, decide_False by done.
        rewrite getcol_update_fields, decide_False by done. cbn [column_name].
        by rewrite Hexp, Hnone.
    + rewrite list_lookup_insert_ne in Hj by done. by left.
  - rewrite length_app. split; [lia|]. intros j e' Hj.
    apply lookup_app_Some in Hj as [Hj|[Hlen Hj]]; [by left|].
    apply list_lookup_singleton_Some in Hj as [Hj0 <-].
    right.
    pose proof (getcol_Event_new _ _ c_source Hnew) as H1.
    pose proof (getcol_Event_new _ _ c_ticket_url Hnew) as H2.
    pose proof (getcol_Event_new _ _ c_expires_at Hnew) as H3.
    cbn [column_name getcol] in H1, H2, H3. rewrite Hsrc in H1. rewrite Hurl in H2.
    rewrite Hexp in H3. simpl in H1.
    split_and!.
    + done.
    + simpl. rewrite Hurl in Hkey. destruct Hkey as [u Hu].
      rewrite Hu in H2 |- *. simpl in H2. by rewrite H2.
    + intros Hnone. rewrite lookup_ge_None_2 by lia. simpl. by rewrite H3, Hnone.
Qed.

(** The whole save loop. *)
Lemma save_all_rows (self : BaseScraper) (events : list Dict) (n : nat) (w : World) :
  ∃ n' w', save_all self events n w = (Ok n', w') ∧
    requests w' = requests w ∧
    ∀ i e', db w' !! i = Some e' →
      db w !! i = Some e' ∨
      (source e' = VStr (source_name self) ∧
       ∃ d, d ∈ events ∧ d !! "ticket_url" = Some (ticket_url e')).
Proof.
  revert n w. induction events as [|d events IH]; intros n w.
  - exists n, w. simpl. unfold ret. split_and!; eauto.
  - destruct (save_one_rows self n d w) as (n1 & w1 & Hs1 & Hr1 & _ & Hrows1).
    destruct (IH n1 w1) as (n' & w' & Hs & Hr & Hrows).
    exists n', w'. split_and!.
    + simpl. unfold bindM. by rewrite Hs1.
    + congruence.
    + intros i e' Hi. destruct (Hrows i e' Hi) as [Hi1|(Hsrc & d' & Hd' & Hu)].
      * destruct (Hrows1 i e' Hi1) as [?|(Hsrc & Hu & _)]; [by left|].
        right. split; [done|]. exists d. split; [apply list_elem_of_here|done].
      * right. split; [done|]. exists d'. split; [by apply list_elem_of_further|done].
Qed.

(** ** [expires_at] over time *)

Lemma sweep_row_expires (source_name : string) (now : Z) (e : Event) :
  expires_at (sweep_row source_name now e) = expires_at e ∨
  (expires_at e = VNone ∧ expires_at (sweep_row source_name now e) = VTime now).
Proof.
  unfold sweep_row. destruct (is_stale _ _ e) eqn:Hs; [|by left].
  right. apply is_stale_spec in Hs as (_ & _ & ?). done.
Qed.

Lemma upsert_extracted_expires (self : BaseScraper) (candidate : option Dict) (w : World) :
  (∀ d, candidate = Some d → d !! "expires_at" = None) →
  (length (db w) ≤ length (db (upsert_extracted self candidate w)))%nat ∧
  ∀ i e', db (upsert_extracted self candidate w) !! i = Some e' →
    expires_at e' = default VNone (expires_at <$> db w !! i).
Proof.
  intros Hkey. destruct candidate as [d|]; simpl.
  - destruct (save_one_rows self 0 d w) as (n' & w1 & Hs & _ & Hlen & Hrows).
    rewrite Hs. simpl. split; [done|]. intros i e' Hi.
    destruct (Hrows i e' Hi) as [->|(_ & _ & He)]; [done|]. by apply He, Hkey.
  - split; [done|]. by intros i e' ->.
Qed.

(** One core operation: a row keeps its [expires_at], unless a sweep
    takes it from null to the sweep time; a row that appears has none. *)
Lemma exec_expires (op : core_op) (w : World) :
  (length (db w) ≤ length (db (exec op w)))%nat ∧
  ∀ i e', db (exec op w) !! i = Some e' →
    match db w !! i with
    | Some e =>
        expires_at e' = expires_at e ∨
        (is_sweep op = true ∧ expires_at e = VNone ∧ expires_at e' = VTime (clock w))
    | None => is_sweep op = false ∧ expires_at e' = VNone
    end.
Proof.
  destruct op as [src|env card|env card|t]; simpl.
  - destruct (mark_expired_events_db src w) as ([Hdb|Hdb] & _); rewrite Hdb.
    + rewrite length_fmap. split; [done|]. intros i e'. rewrite list_lookup_fmap.
      destruct (db w !! i) as [e|]; [|done]. simpl. intros [= <-].
      destruct (sweep_row_expires src (clock w) e) as [?|[? ?]]; auto.
    + split; [done|]. intros i e' ->. by left.
  - match goal with |- context [upsert_extracted ?s ?c w] =>
      destruct (upsert_extracted_expires s c w) as [Hlen Hrows] end.
    { intros d (link & _ & _ & _ & _ & _ & Hk)%eventbrite_extract_shape.
      apply Hk. solve_key. }
    split; [done|]. intros i e' Hi. specialize (Hrows i e' Hi).
    destruct (db w !! i); simpl in Hrows; auto.
  - match goal with |- context [upsert_extracted ?s ?c w] =>
      destruct (upsert_extracted_expires s c w) as [Hlen Hrows] end.
    { intros d (link & _ & _ & _ & _ & _ & Hk)%timeout_extract_shape.
      apply Hk. solve_key. }
    split; [done|]. intros i e' Hi. specialize (Hrows i e' Hi).
    destruct (db w !! i); simpl in Hrows; auto.
  - split; [done|]. intros i e' ->. by left.
Qed.

Lemma exec_all_cons (op : core_op) (ops : list core_op) (w : World) :
  exec_all (op :: ops) w = exec_all ops (exec op w).
Proof. reflexivity. Qed.

Lemma exec_all_expires (ops : list core_op) (w : World) :
  (∀ i e, db w !! i = Some e →
     ∃ e', db (exec_all ops w) !! i = Some e' ∧
       (expires_at e' = expires_at e ∨
        (existsb is_sweep ops = true ∧ expires_at e = VNone ∧ ∃ t, expires_at e' = VTime t))) ∧
  (∀ j e', db w !! j = None → db (exec_all ops w) !! j = Some e' →
     expires_at e' = VNone ∨ existsb is_sweep ops = true).
Proof.
  revert w. induction ops as [|op ops IH]; intros w.
  { split; [intros i e Hi; exists e; auto|]. intros j e' Hn Hs. simpl in Hs. congruence. }
  destruct (exec_expires op w) as [Hlen Hstep].
  destruct (IH (exec op w)) as [IHold IHnew].
  rewrite exec_all_cons. split.
  - intros i e Hi.
    destruct (lookup_lt_is_Some_2 (db (exec op w)) i) as [e1 He1].
    { apply lookup_lt_Some in Hi. lia. }
    specialize (Hstep i e1 He1). rewrite Hi in Hstep.
    destruct (IHold i e1 He1) as (e' & He' & Hrel).
    exists e'. split; [done|]. simpl.
    destruct Hstep as [Heq|(Hsw & Hnone & Ht)], Hrel as [Heq'|(Hsw' & Hnone' & Ht')].
    + left. congruence.
    + right. rewrite Hsw', orb_true_r. rewrite <- Heq. auto.
    + right. rewrite Hsw. simpl. split_and!; [done..|]. exists (clock w). congruence.
    + rewrite Ht in Hnone'. done.
  - intros j e' Hn Hj. simpl.
    destruct (db (exec op w) !! j) as [e1|] eqn:He1.
    + specialize (Hstep j e1 He1). rewrite Hn in Hstep. destruct Hstep as [Hsw Hnone].
      destruct (IHold j e1 He1) as (e'' & He'' & Hrel).
      rewrite Hj in He''. injection He'' as <-.
      destruct Hrel as [Heq|(Hsw' & _)]; [left; congruence|].
      right. by rewrite Hsw', orb_true_r.
    + destruct (IHnew j e' He1 Hj) as [?|Hsw']; [by left|].
      right. by rewrite Hsw', orb_true_r.
Qed.

(** C5. Over any sequence of core operations (sweeps, upserts of
    extracted candidates stamped by the orchestrator, time passing), a
    stored record stays in place and its [expires_at], once set, never
    changes; as long as no sweep runs it does not change at all, so an
    upsert never assigns it; when it does change, it goes from null to a
    timestamp; and a record that an upsert inserts has it null. *)
Theorem expires_at_monotonic (ops : list core_op) (w : World) (i : nat) (e : Event) :
  db w !! i = Some e →
  ∃ e', db (exec_all ops w) !! i = Some e' ∧
    (expires_at e ≠ VNone → expires_at e' = expires_at e) ∧
    (existsb is_sweep ops = false → expires_at e' = expires_at e) ∧
    (expires_at e' ≠ expires_at e → expires_at e = VNone ∧ ∃ t, expires_at e' = VTime t) ∧
    (∀ j e'', existsb is_sweep ops = false → db w !! j = None →
       db (exec_all ops w) !! j = Some e'' → expires_at e'' = VNone).
Proof.
  intros Hi. destruct (exec_all_expires ops w) as [Hold Hnew].
  destruct (Hold i e Hi) as (e' & He' & Hrel).
  exists e'. split_and!; [done|..].
  - intros Hset. destruct Hrel as [?|(_ & ? & _)]; done.
  - intros Hns. destruct Hrel as [?|(Hsw & _)]; [done|congruence].
  - intros Hne. destruct Hrel as [?|(_ & ? & ?)]; done.
  - intros j e'' Hns Hn Hj. destruct (Hnew j e'' Hn Hj) as [?|Hsw]; [done|congruence].
Qed.

(** ** The constraints are an invariant *)

Lemma save_event_constraints (event_data : Dict) (w : World) :
  constraints (db w) → constraints (db (save_event event_data w).2).
Proof.
  intros Hc. unfold save_event. unfold_M.
  destruct (event_data !! "ticket_url") as [u|]; [|done].
  destruct (check_duplicate u (db w)) as [[i old]|].
  - unfold commit. destruct (flushes _ _); cbn [negb]; [|done].
    case_decide; [|done]. by destruct (event_data !! "title").
  - destruct (Event_new event_data) as [new_event|]; [|done].
    unfold commit. destruct (flushes _ _); cbn [negb]; [|done].
    case_decide; [|done]. by destruct (event_data !! "title").
Qed.

Lemma mark_expired_events_constraints (source_name : string) (w : World) :
  constraints (db w) → constraints (db (mark_expired_events source_name w).2).
Proof. intros Hc. rewrite mark_expired_events_run by done. by apply sweep_constraints. Qed.

Lemma save_one_constraints (self : BaseScraper) (n : nat) (event_data : Dict) (w : World) :
  constraints (db w) → constraints (db (save_one self n event_data w).2).
Proof.
  intros Hc. unfold save_one.
  pose proof (save_event_constraints (<["source" := VStr (source_name self)]> event_data) w Hc)
    as Hs.
  destruct (save_event _ w) as [[e|x] w1]; [|done]. simpl in Hs.
  pose proof (rate_limit_world self w1) as [Hdb _].
  destruct (rate_limit self w1) as [r w2]. simpl in *. by rewrite Hdb.
Qed.

(** Every core operation keeps the table within its constraints. *)
Lemma exec_all_constraints (ops : list core_op) (w : World) :
  constraints (db w) → constraints (db (exec_all ops w)).
Proof.
  revert w. induction ops as [|op ops IH]; intros w Hc; [done|].
  rewrite exec_all_cons. apply IH.
  destruct op as [src|env card|env card|t]; simpl.
  - by apply mark_expired_events_constraints.
  - destruct (EventbriteScraper._extract_event_data _ _ _ _); simpl; [|done].
    by apply save_one_constraints.
  - destruct (TimeOutScraper._extract_event_data _ _ _ _); simpl; [|done].
    by apply save_one_constraints.
  - done.
Qed.

(** ** Extracted candidates are candidate records *)

(** Every value of an extracted candidate has the type of its column. *)
Ltac solve_typed_key :=
  unfold typed;
  match goal with
  | |- context [column_of ?k] =>
      let r := eval vm_compute in (column_of k) in change (column_of k) with r
  end;
  cbn [column_type of_type]; repeat case_match; done.

Ltac solve_extract_typed link :=
  let H := fresh "H" in
  intros H; unfold_extract;
  destruct link as [?|] eqn:?; [|discriminate H];
  injection H as <-;
  repeat (apply map_Forall_insert_2; [solve_typed_key|]);
  apply map_Forall_empty.

Lemma eventbrite_extract_typed (env : Env) (self : BaseScraper) (now : Z)
    (card : Node) (d : Dict) :
  EventbriteScraper._extract_event_data env self now card = Some d →
  map_Forall (λ key v, typed key v = true) d.
Proof. solve_extract_typed (EventbriteScraper.link_elem card). Qed.

Lemma timeout_extract_typed (env : Env) (self : BaseScraper) (now : Z)
    (card : Node) (d : Dict) :
  TimeOutScraper._extract_event_data env self now card = Some d →
  map_Forall (λ key v, typed key v = true) d.
Proof. solve_extract_typed (TimeOutScraper.link_elem card). Qed.

Ltac solve_stamped_candidate shape types :=
  let H := fresh "H" in
  intros H; pose proof (types _ _ _ _ _ H) as Htyped;
  apply shape in H as (link & _ & Hurl & Hdate & [s1 Ht] & [s2 Hl] & Hother);
  split_and!;
  [ let key := fresh "key" in let v := fresh "v" in let Hk := fresh "Hk" in
    intros key v Hk; cbv beta;
    destruct (decide (key = "source")) as [->|Hne]; [solve_key|];
    rewrite lookup_insert_ne in Hk by done;
    destruct (decide (key ∈ ["title"; "ticket_url"; "date_time"; "location";
                             "description"; "image_url"])) as [Hin|Hnin];
    [ repeat (apply elem_of_cons in Hin as [->|Hin]; [solve_key|]);
      by apply elem_of_nil in Hin
    | by rewrite Hother in Hk ]
  | unfold required_keys;
    repeat (apply Forall_cons; split;
      [first [ rewrite lookup_insert_eq | rewrite lookup_insert_ne by done ];
       first [ by rewrite Ht | by rewrite Hurl | by rewrite Hdate | by rewrite Hl | done ]|]);
    apply Forall_nil_2
  | by apply map_Forall_insert_2 ].

Lemma eventbrite_stamped_candidate (env : Env) (self : BaseScraper) (now : Z)
    (card : Node) (d : Dict) (name : string) :
  EventbriteScraper._extract_event_data env self now card = Some d →
  candidate (<["source" := VStr name]> d).
Proof. solve_stamped_candidate eventbrite_extract_shape eventbrite_extract_typed. Qed.

Lemma timeout_stamped_candidate (env : Env) (self : BaseScraper) (now : Z)
    (card : Node) (d : Dict) (name : string) :
  TimeOutScraper._extract_event_data env self now card = Some d →
  candidate (<["source" := VStr name]> d).
Proof. solve_stamped_candidate timeout_extract_shape timeout_extract_typed. Qed.

(** ** The crawl of [EventbriteScraper] *)

Lemma eventbrite_keep_now (env : Env) (self : BaseScraper) (now now' : Z) (card : Node) :
  EventbriteScraper.keep (EventbriteScraper._extract_event_data env self now card) = None →
  EventbriteScraper.keep (EventbriteScraper._extract_event_data env self now' card) = None.
Proof.
  unfold EventbriteScraper._extract_event_data.
  destruct (EventbriteScraper.link_elem card) as [link|]; [|done].
  unfold EventbriteScraper.keep. extract_lookup. cbn [default].
  rewrite !bool_decide_eq_true_2 by apply insert_non_empty.
  by destruct (value_truthy _).
Qed.

Lemma eventbrite_extract_cards_now (env : Env) (self : BaseScraper) (now now' : Z)
    (cards : list Node) :
  EventbriteScraper.extract_cards env self now cards = [] →
  EventbriteScraper.extract_cards env self now' cards = [].
Proof.
  unfold EventbriteScraper.extract_cards. induction cards as [|card cards IH]; [done|].
  cbn [omap list_omap].
  destruct (EventbriteScraper.keep (EventbriteScraper._extract_event_data env self now card)) eqn:Hk; [done|].
  intros Hrest. by rewrite (eventbrite_keep_now env self now now' card Hk), IH.
Qed.

(** Whether a page yields anything does not depend on the clock. *)
Lemma eventbrite_page_candidates_now (env : Env) (self : BaseScraper) (url : string)
    (now now' : Z) :
  eventbrite_page_candidates env self url now = [] → eventbrite_page_candidates env self url now' = [].
Proof.
  unfold eventbrite_page_candidates. destruct (can_fetch env self url); [|done].
  destruct (page_goto env url); [|done].
  destruct (page_content env url); [|done]. apply eventbrite_extract_cards_now.
Qed.

Lemma eventbrite_scrape_page_run (env : Env) (self : BaseScraper) (url : string) (w : World) :
  ∃ w1,
    EventbriteScraper._scrape_page env self url w =
      (Ok (eventbrite_page_candidates env self url (clock w + microseconds 2)), w1) ∧
    db w1 = db w ∧
    requests w1 = requests w ++ (if can_fetch env self url then [url] else []).
Proof.
  unfold EventbriteScraper._scrape_page, eventbrite_page_candidates, EventbriteScraper.goto, asyncio_sleep. unfold_M.
  destruct (can_fetch env self url); simpl.
  - destruct (page_goto env url); simpl; [|eexists; split_and!; reflexivity].
    destruct (page_content env url); simpl; eexists; split_and!; reflexivity.
  - eexists; split_and!; try reflexivity. by rewrite app_nil_r.
Qed.

(** The page loop: it fetches a prefix of the pages, in order; every
    page before the last one fetched yielded a candidate; and a page is
    fetched as soon as all pages before it yielded one and robots.txt
    allows it. *)
Lemma eventbrite_pages_loop_spec (env : Env) (self : BaseScraper) (page_nums : list nat)
    (all_events : list Dict) (w : World) :
  ∃ all_events' w' m,
    EventbriteScraper.pages_loop env self page_nums all_events w = (all_events', w') ∧
    db w' = db w ∧
    (m ≤ length page_nums)%nat ∧
    requests w' = requests w ++ (EventbriteScraper.page_url env self <$> take m page_nums) ∧
    (∀ j p, page_nums !! j = Some p → (S j < m)%nat →
       ∀ now, eventbrite_page_candidates env self (EventbriteScraper.page_url env self p) now ≠ []) ∧
    (∀ j p, page_nums !! j = Some p →
       (∀ j' p', page_nums !! j' = Some p' → (j' < j)%nat →
          ∀ now, eventbrite_page_candidates env self (EventbriteScraper.page_url env self p') now ≠ []) →
       can_fetch env self (EventbriteScraper.page_url env self p) = true → (j < m)%nat) ∧
    (∀ d, d ∈ all_events' →
       d ∈ all_events ∨
       ∃ p now, p ∈ page_nums ∧ d ∈ eventbrite_page_candidates env self (EventbriteScraper.page_url env self p) now).
Proof.
  revert all_events w. induction page_nums as [|p ps IH]; intros all_events w.
  { exists all_events, w, 0%nat. simpl. rewrite app_nil_r.
    split_and!; [done|done|simpl; lia|done| | |auto];
      intros j p Hl; by rewrite lookup_nil in Hl. }
  cbn [EventbriteScraper.pages_loop].
  destruct (eventbrite_scrape_page_run env self (EventbriteScraper.page_url env self p) w)
    as (w1 & Hsp & Hdb1 & Hreq1).
  rewrite Hsp.
  set (events := eventbrite_page_candidates env self (EventbriteScraper.page_url env self p) (clock w + microseconds 2)) in *.
  assert (Hallowed : events ≠ [] → can_fetch env self (EventbriteScraper.page_url env self p) = true).
  { unfold events, eventbrite_page_candidates. by destruct (can_fetch env self _). }
  assert (Hmem : ∀ d, d ∈ all_events ++ events →
    d ∈ all_events ∨ ∃ p' now, p' ∈ p :: ps ∧
      d ∈ eventbrite_page_candidates env self (EventbriteScraper.page_url env self p') now).
  { intros d [?|?]%elem_of_app; [by left|]. right. exists p, (clock w + microseconds 2).
    split; [apply list_elem_of_here|done]. }
  destruct (decide (length events = 0%nat)) as [Hempty|Hsome].
  - (* the page yields nothing: break *)
    apply nil_length_inv in Hempty.
    exists (all_events ++ events), w1,
      (if can_fetch env self (EventbriteScraper.page_url env self p) then 1%nat else 0%nat).
    split; [done|]. split; [done|].
    split; [destruct (can_fetch env self _); simpl; lia|].
    split; [rewrite Hreq1; by destruct (can_fetch env self _)|].
    split_and!.
    + intros j q _ Hj. destruct (can_fetch env self _); lia.
    + intros j q Hq Hbefore Hcan. destruct j as [|j].
      * injection Hq as <-. rewrite Hcan. lia.
      * exfalso. apply (Hbefore 0%nat p eq_refl ltac:(lia) (clock w + microseconds 2)).
        exact Hempty.
    + exact Hmem.
  - (* the page yields candidates: sleep, next page *)
    assert (Hne : events ≠ []) by (by intros Hnil; rewrite Hnil in Hsome).
    pose proof (Hallowed Hne) as Hcan. rewrite Hcan in Hreq1.
    unfold asyncio_sleep at 1.
    set (w2 := mkWorld (db w1) _ (requests w1)).
    destruct (IH (all_events ++ events) w2) as (acc' & w' & m & Hloop & Hdb & Hlen & Hreq & Hyield & Hnext & Horigin).
    exists acc', w', (S m). split; [done|]. split; [by rewrite Hdb|].
    split; [simpl; lia|].
    split; [rewrite Hreq; simpl; rewrite Hreq1, <- app_assoc; done|].
    split_and!.
    + intros j q Hq Hj now Hnil. destruct j as [|j].
      * injection Hq as <-. apply Hne.
        by apply (eventbrite_page_candidates_now env self _ now (clock w + microseconds 2)).
      * apply (Hyield j q Hq ltac:(lia) now Hnil).
    + intros j q Hq Hbefore Hcanq. destruct j as [|j]; [lia|].
      apply ->Nat.succ_lt_mono. apply (Hnext j q Hq); [|done].
      intros j' p' Hp' Hlt. apply (Hbefore (S j') p' Hp'). lia.
    + intros d Hd. destruct (Horigin d Hd) as [Hin|(p' & now & Hp' & Hin)].
      * exact (Hmem d Hin).
      * right. exists p', now. split; [by apply list_elem_of_further|done].
Qed.

(** ** The crawl of [TimeOutScraper] *)

Lemma timeout_keep_now (env : Env) (self : BaseScraper) (now now' : Z) (card : Node) :
  TimeOutScraper.keep (TimeOutScraper._extract_event_data env self now card) = None →
  TimeOutScraper.keep (TimeOutScraper._extract_event_data env self now' card) = None.
Proof.
  unfold TimeOutScraper._extract_event_data.
  destruct (TimeOutScraper.link_elem card) as [link|]; [|done].
  unfold TimeOutScraper.keep. extract_lookup. cbn [default].
  rewrite !bool_decide_eq_true_2 by apply insert_non_empty.
  by destruct (value_truthy _).
Qed.

Lemma timeout_extract_cards_now (env : Env) (self : BaseScraper) (now now' : Z)
    (cards : list Node) :
  TimeOutScraper.extract_cards env self now cards = [] →
  TimeOutScraper.extract_cards env self now' cards = [].
Proof.
  unfold TimeOutScraper.extract_cards. induction cards as [|card cards IH]; [done|].
  cbn [omap list_omap].
  destruct (TimeOutScraper.keep (TimeOutScraper._extract_event_data env self now card)) eqn:Hk; [done|].
  intros Hrest. by rewrite (timeout_keep_now env self now now' card Hk), IH.
Qed.

(** Whether a page yields anything does not depend on the clock. *)
Lemma timeout_page_candidates_now (env : Env) (self : BaseScraper) (url : string)
    (now now' : Z) :
  timeout_page_candidates env self url now = [] → timeout_page_candidates env self url now' = [].
Proof.
  unfold timeout_page_candidates. destruct (can_fetch env self url); [|done].
  destruct (page_goto env url); [|done].
  destruct (page_content env url); [|done]. apply timeout_extract_cards_now.
Qed.

Lemma timeout_scrape_page_run (env : Env) (self : BaseScraper) (url : string) (w : World) :
  ∃ w1,
    TimeOutScraper._scrape_page env self url w =
      (Ok (timeout_page_candidates env self url (clock w + microseconds 2)), w1) ∧
    db w1 = db w ∧
    requests w1 = requests w ++ (if can_fetch env self url then [url] else []).
Proof.
  unfold TimeOutScraper._scrape_page, timeout_page_candidates, TimeOutScraper.goto, asyncio_sleep. unfold_M.
  destruct (can_fetch env self url); simpl.
  - destruct (page_goto env url); simpl; [|eexists; split_and!; reflexivity].
    destruct (page_content env url); simpl; eexists; split_and!; reflexivity.
  - eexists; split_and!; try reflexivity. by rewrite app_nil_r.
Qed.

(** The page loop: it fetches a prefix of the pages, in order; every
    page before the last one fetched yielded a candidate; and a page is
    fetched as soon as all pages before it yielded one and robots.txt
    allows it. *)
Lemma timeout_pages_loop_spec (env : Env) (self : BaseScraper) (page_nums : list nat)
    (all_events : list Dict) (w : World) :
  ∃ all_events' w' m,
    TimeOutScraper.pages_loop env self page_nums all_events w = (all_events', w') ∧
    db w' = db w ∧
    (m ≤ length page_nums)%nat ∧
    requests w' = requests w ++ (TimeOutScraper.page_url env self <$> take m page_nums) ∧
    (∀ j p, page_nums !! j = Some p → (S j < m)%nat →
       ∀ now, timeout_page_candidates env self (TimeOutScraper.page_url env self p) now ≠ []) ∧
    (∀ j p, page_nums !! j = Some p →
       (∀ j' p', page_nums !! j' = Some p' → (j' < j)%nat →
          ∀ now, timeout_page_candidates env self (TimeOutScraper.page_url env self p') now ≠ []) →
       can_fetch env self (TimeOutScraper.page_url env self p) = true → (j < m)%nat) ∧
    (∀ d, d ∈ all_events' →
       d ∈ all_events ∨
       ∃ p now, p ∈ page_nums ∧ d ∈ timeout_page_candidates env self (TimeOutScraper.page_url env self p) now).
Proof.
  revert all_events w. induction page_nums as [|p ps IH]; intros all_events w.
  { exists all_events, w, 0%nat. simpl. rewrite app_nil_r.
    split_and!; [done|done|simpl; lia|done| | |auto];
      intros j p Hl; by rewrite lookup_nil in Hl. }
  cbn [TimeOutScraper.pages_loop].
  destruct (timeout_scrape_page_run env self (TimeOutScraper.page_url env self p) w)
    as (w1 & Hsp & Hdb1 & Hreq1).
  rewrite Hsp.
  set (events := timeout_page_candidates env self (TimeOutScraper.page_url env self p) (clock w + microseconds 2)) in *.
  assert (Hallowed : events ≠ [] → can_fetch env self (TimeOutScraper.page_url env self p) = true).
  { unfold events, timeout_page_candidates. by destruct (can_fetch env self _). }
  assert (Hmem : ∀ d, d ∈ all_events ++ events →
    d ∈ all_events ∨ ∃ p' now, p' ∈ p :: ps ∧
      d ∈ timeout_page_candidates env self (TimeOutScraper.page_url env self p') now).
  { intros d [?|?]%elem_of_app; [by left|]. right. exists p, (clock w + microseconds 2).
    split; [apply list_elem_of_here|done]. }
  destruct (decide (length events = 0%nat)) as [Hempty|Hsome].
  - (* the page yields nothing: break *)
    apply nil_length_inv in Hempty.
    exists (all_events ++ events), w1,
      (if can_fetch env self (TimeOutScraper.page_url env self p) then 1%nat else 0%nat).
    split; [done|]. split; [done|].
    split; [destruct (can_fetch env self _); simpl; lia|].
    split; [rewrite Hreq1; by destruct (can_fetch env self _)|].
    split_and!.
    + intros j q _ Hj. destruct (can_fetch env self _); lia.
    + intros j q Hq Hbefore Hcan. destruct j as [|j].
      * injection Hq as <-. rewrite Hcan. lia.
      * exfalso. apply (Hbefore 0%nat p eq_refl ltac:(lia) (clock w + microseconds 2)).
        exact Hempty.
    + exact Hmem.
  - (* the page yields candidates: sleep, next page *)
    assert (Hne : events ≠ []) by (by intros Hnil; rewrite Hnil in Hsome).
    pose proof (Hallowed Hne) as Hcan. rewrite Hcan in Hreq1.
    unfold asyncio_sleep at 1.
    set (w2 := mkWorld (db w1) _ (requests w1)).
    destruct (IH (all_events ++ events) w2) as (acc' & w' & m & Hloop & Hdb & Hlen & Hreq & Hyield & Hnext & Horigin).
    exists acc', w', (S m). split; [done|]. split; [by rewrite Hdb|].
    split; [simpl; lia|].
    split; [rewrite Hreq; simpl; rewrite Hreq1, <- app_assoc; done|].
    split_and!.
    + intros j q Hq Hj now Hnil. destruct j as [|j].
      * injection Hq as <-. apply Hne.
        by apply (timeout_page_candidates_now env self _ now (clock w + microseconds 2)).
      * apply (Hyield j q Hq ltac:(lia) now Hnil).
    + intros j q Hq Hbefore Hcanq. destruct j as [|j]; [lia|].
      apply ->Nat.succ_lt_mono. apply (Hnext j q Hq); [|done].
      intros j' p' Hp' Hlt. apply (Hbefore (S j') p' Hp'). lia.
    + intros d Hd. destruct (Horigin d Hd) as [Hin|(p' & now & Hp' & Hin)].
      * exact (Hmem d Hin).
      * right. exists p', now. split; [by apply list_elem_of_further|done].
Qed.

(** Closing the browser leaves the world as it is. *)
Lemma eventbrite_close_browser_world (env : Env) (handles : Handles) (w : World) :
  ∃ r, EventbriteScraper._close_browser env handles w = (r, w).
Proof.
  unfold EventbriteScraper._close_browser. unfold_M.
  destruct (browser handles), (playwright handles),
    (browser_close env) as [[]|], (playwright_stop env) as [[]|]; simpl; eauto.
Qed.

(** The whole crawl of [EventbriteScraper], by page number. *)
Lemma eventbrite_scrape_async_spec (env : Env) (self : BaseScraper) (w : World) :
  ∃ r w' n,
    EventbriteScraper._scrape_async env self w = (r, w') ∧
    db w' = db w ∧
    (n ≤ 3)%nat ∧
    requests w' = requests w ++ (EventbriteScraper.page_url env self <$> seq 1 n) ∧
    (∀ k, (1 ≤ k < n)%nat →
       ∀ now, eventbrite_page_candidates env self (EventbriteScraper.page_url env self k) now ≠ []) ∧
    ((EventbriteScraper._init_browser env).1 = Ok tt →
     ∀ k, (1 ≤ k ≤ 3)%nat →
       (∀ k', (1 ≤ k' < k)%nat →
          ∀ now, eventbrite_page_candidates env self (EventbriteScraper.page_url env self k') now ≠ []) →
       can_fetch env self (EventbriteScraper.page_url env self k) = true → (k ≤ n)%nat) ∧
    (∀ events d, r = Ok events → d ∈ events →
       ∃ k now, d ∈ eventbrite_page_candidates env self (EventbriteScraper.page_url env self k) now).
Proof.
  unfold EventbriteScraper._scrape_async.
  destruct (EventbriteScraper._init_browser env) as [[[]|e] handles] eqn:Hinit.
  - destruct (eventbrite_pages_loop_spec env self EventbriteScraper.page_range [] w)
      as (acc & w1 & m & Hloop & Hdb & Hlen & Hreq & Hyield & Hnext & Horigin).
    rewrite Hloop. unfold EventbriteScraper.page_range in *. rewrite length_seq in Hlen.
    rewrite take_seq, Nat.min_l in Hreq by done.
    assert (Hy : ∀ k, (1 ≤ k < m)%nat →
      ∀ now, eventbrite_page_candidates env self (EventbriteScraper.page_url env self k) now ≠ []).
    { intros k Hk. apply (Hyield (k - 1)%nat k); [|lia].
      apply lookup_seq. lia. }
    assert (Hn : ∀ k, (1 ≤ k ≤ 3)%nat →
      (∀ k', (1 ≤ k' < k)%nat →
         ∀ now, eventbrite_page_candidates env self (EventbriteScraper.page_url env self k') now ≠ []) →
      can_fetch env self (EventbriteScraper.page_url env self k) = true → (k ≤ m)%nat).
    { intros k Hk Hbefore Hcan.
      assert (k - 1 < m)%nat; [|lia].
      apply (Hnext (k - 1)%nat k); [apply lookup_seq; lia| |done].
      intros j' p' [-> ?]%lookup_seq Hlt. apply Hbefore. lia. }
    assert (Ho : ∀ d, d ∈ acc →
      ∃ k now, d ∈ eventbrite_page_candidates env self (EventbriteScraper.page_url env self k) now).
    { intros d Hd. destruct (Horigin d Hd) as [Hnil|(p & now & _ & ?)]; [|eauto].
      by apply elem_of_nil in Hnil. }
    destruct (eventbrite_close_browser_world env handles w1) as (rc & Hclose).
    rewrite Hclose.
    destruct rc as [[]|e']; eexists _, w1, m; (split; [reflexivity|]);
      split_and!; try done.
    intros events d [= <-]. apply Ho.
  - destruct (eventbrite_close_browser_world env handles w) as (rc & Hclose).
    rewrite Hclose.
    destruct rc as [[]|e']; eexists _, w, 0%nat; (split; [reflexivity|]);
      simpl; rewrite ?app_nil_r; split_and!; try done; try lia; try (intros; lia).
    intros events d [= <-] Hd. by apply elem_of_nil in Hd.
Qed.

(** A candidate a page yields was extracted from one of its cards, and
    that card has an anchor with an [href]. *)
Lemma eventbrite_page_candidate_card (env : Env) (self : BaseScraper) (url : string)
    (now : Z) (d : Dict) :
  d ∈ eventbrite_page_candidates env self url now →
  ∃ soup card link,
    page_content env url = Ok soup ∧ card ∈ EventbriteScraper.find_cards soup ∧
    find card "a" has_href = Some link ∧
    EventbriteScraper._extract_event_data env self now card = Some d.
Proof.
  unfold eventbrite_page_candidates. destruct (can_fetch env self url); [|by intros ?%elem_of_nil].
  destruct (page_goto env url); [|by intros ?%elem_of_nil].
  destruct (page_content env url) as [soup|]; [|by intros ?%elem_of_nil].
  unfold EventbriteScraper.extract_cards. intros (card & Hcard & Hkeep)%list_elem_of_omap.
  apply elem_of_take in Hcard as (j & Hj & _).
  assert (Hex : EventbriteScraper._extract_event_data env self now card = Some d).
  { unfold EventbriteScraper.keep in Hkeep.
    destruct (EventbriteScraper._extract_event_data env self now card) as [d'|]; [|done].
    destruct (_ && _); by simplify_eq. }
  destruct (eventbrite_extract_shape env self now card d Hex) as (link & Hlink & _).
  exists soup, card, link. split_and!; try done.
  by eapply list_elem_of_lookup_2.
Qed.

(** A run of [EventbriteScraper]: it never raises, and each row of the table
    afterwards is a row the sweep left, or one written from a candidate
    extracted from a card that has an anchor with an [href]. *)
Lemma eventbrite_run_rows (env : Env) (w : World) :
  ∃ n w',
    EventbriteScraper.run_scraper env w = (Ok n, w') ∧
    ∀ i e', db w' !! i = Some e' →
      db (mark_expired_events "eventbrite" w).2 !! i = Some e' ∨
      (source e' = VStr "eventbrite" ∧
       ∃ url soup card link now d,
         page_content env url = Ok soup ∧ card ∈ EventbriteScraper.find_cards soup ∧
         find card "a" has_href = Some link ∧
         EventbriteScraper._extract_event_data env (EventbriteScraper.init env) now card = Some d ∧
         d !! "ticket_url" = Some (ticket_url e')).
Proof.
  unfold EventbriteScraper.run_scraper, run, run_body, EventbriteScraper.scrape. unfold_M.
  change (source_name (EventbriteScraper.init env)) with "eventbrite".
  destruct (mark_expired_events "eventbrite" w) as [[[]|e0] w0]; simpl; [|eauto].
  destruct (loop_running env); [eexists _, _; split; [reflexivity|]; eauto|].
  destruct (eventbrite_scrape_async_spec env (EventbriteScraper.init env) w0)
    as (r & w1 & m & Hs & Hdb & _ & _ & _ & _ & Horigin).
  rewrite Hs. destruct r as [events|e1]; [|exists 0%nat, w1; rewrite Hdb; eauto].
  destruct (save_all_rows (EventbriteScraper.init env) events 0 w1) as (n & w' & Hsave & _ & Hrows).
  rewrite Hsave. exists n, w'. split; [done|]. intros i e' Hi.
  destruct (Hrows i e' Hi) as [Hold|(Hsrc & d & Hd & Hu)].
  - left. by rewrite <- Hdb.
  - right. split; [exact Hsrc|].
    destruct (Horigin events d eq_refl Hd) as (k & now & Hpc).
    destruct (eventbrite_page_candidate_card env _ _ now d Hpc)
      as (soup & card & link & ? & ? & ? & ?).
    exists (EventbriteScraper.page_url env (EventbriteScraper.init env) k), soup, card, link, now, d. done.
Qed.

(** Closing the browser leaves the world as it is. *)
Lemma timeout_close_browser_world (env : Env) (handles : Handles) (w : World) :
  ∃ r, TimeOutScraper._close_browser env handles w = (r, w).
Proof.
  unfold TimeOutScraper._close_browser. unfold_M.
  destruct (browser handles), (playwright handles),
    (browser_close env) as [[]|], (playwright_stop env) as [[]|]; simpl; eauto.
Qed.

(** The whole crawl of [TimeOutScraper], by page number. *)
Lemma timeout_scrape_async_spec (env : Env) (self : BaseScraper) (w : World) :
  ∃ r w' n,
    TimeOutScraper._scrape_async env self w = (r, w') ∧
    db w' = db w ∧
    (n ≤ 2)%nat ∧
    requests w' = requests w ++ (TimeOutScraper.page_url env self <$> seq 1 n) ∧
    (∀ k, (1 ≤ k < n)%nat →
       ∀ now, timeout_page_candidates env self (TimeOutScraper.page_url env self k) now ≠ []) ∧
    ((TimeOutScraper._init_browser env).1 = Ok tt →
     ∀ k, (1 ≤ k ≤ 2)%nat →
       (∀ k', (1 ≤ k' < k)%nat →
          ∀ now, timeout_page_candidates env self (TimeOutScraper.page_url env self k') now ≠ []) →
       can_fetch env self (TimeOutScraper.page_url env self k) = true → (k ≤ n)%nat) ∧
    (∀ events d, r = Ok events → d ∈ events →
       ∃ k now, d ∈ timeout_page_candidates env self (TimeOutScraper.page_url env self k) now).
Proof.
  unfold TimeOutScraper._scrape_async.
  destruct (TimeOutScraper._init_browser env) as [[[]|e] handles] eqn:Hinit.
  - destruct (timeout_pages_loop_spec env self TimeOutScraper.page_range [] w)
      as (acc & w1 & m & Hloop & Hdb & Hlen & Hreq & Hyield & Hnext & Horigin).
    rewrite Hloop. unfold TimeOutScraper.page_range in *. rewrite length_seq in Hlen.
    rewrite take_seq, Nat.min_l in Hreq by done.
    assert (Hy : ∀ k, (1 ≤ k < m)%nat →
      ∀ now, timeout_page_candidates env self (TimeOutScraper.page_url env self k) now ≠ []).
    { intros k Hk. apply (Hyield (k - 1)%nat k); [|lia].
      apply lookup_seq. lia. }
    assert (Hn : ∀ k, (1 ≤ k ≤ 2)%nat →
      (∀ k', (1 ≤ k' < k)%nat →
         ∀ now, timeout_page_candidates env self (TimeOutScraper.page_url env self k') now ≠ []) →
      can_fetch env self (TimeOutScraper.page_url env self k) = true → (k ≤ m)%nat).
    { intros k Hk Hbefore Hcan.
      assert (k - 1 < m)%nat; [|lia].
      apply (Hnext (k - 1)%nat k); [apply lookup_seq; lia| |done].
      intros j' p' [-> ?]%lookup_seq Hlt. apply Hbefore. lia. }
    assert (Ho : ∀ d, d ∈ acc →
      ∃ k now, d ∈ timeout_page_candidates env self (TimeOutScraper.page_url env self k) now).
    { intros d Hd. destruct (Horigin d Hd) as [Hnil|(p & now & _ & ?)]; [|eauto].
      by apply elem_of_nil in Hnil. }
    destruct (timeout_close_browser_world env handles w1) as (rc & Hclose).
    rewrite Hclose.
    destruct rc as [[]|e']; eexists _, w1, m; (split; [reflexivity|]);
      split_and!; try done.
    intros events d [= <-]. apply Ho.
  - destruct (timeout_close_browser_world env handles w) as (rc & Hclose).
    rewrite Hclose.
    destruct rc as [[]|e']; eexists _, w, 0%nat; (split; [reflexivity|]);
      simpl; rewrite ?app_nil_r; split_and!; try done; try lia; try (intros; lia).
    intros events d [= <-] Hd. by apply elem_of_nil in Hd.
Qed.

(** A candidate a page yields was extracted from one of its cards, and
    that card has an anchor with an [href]. *)
Lemma timeout_page_candidate_card (env : Env) (self : BaseScraper) (url : string)
    (now : Z) (d : Dict) :
  d ∈ timeout_page_candidates env self url now →
  ∃ soup card link,
    page_content env url = Ok soup ∧ card ∈ TimeOutScraper.find_cards soup ∧
    find card "a" has_href = Some link ∧
    TimeOutScraper._extract_event_data env self now card = Some d.
Proof.
  unfold timeout_page_candidates. destruct (can_fetch env self url); [|by intros ?%elem_of_nil].
  destruct (page_goto env url); [|by intros ?%elem_of_nil].
  destruct (page_content env url) as [soup|]; [|by intros ?%elem_of_nil].
  unfold TimeOutScraper.extract_cards. intros (card & Hcard & Hkeep)%list_elem_of_omap.
  apply elem_of_take in Hcard as (j & Hj & _).
  assert (Hex : TimeOutScraper._extract_event_data env self now card = Some d).
  { unfold TimeOutScraper.keep in Hkeep.
    destruct (TimeOutScraper._extract_event_data env self now card) as [d'|]; [|done].
    destruct (_ && _); by simplify_eq. }
  destruct (timeout_extract_shape env self now card d Hex) as (link & Hlink & _).
  exists soup, card, link. split_and!; try done.
  by eapply list_elem_of_lookup_2.
Qed.

(** A run of [TimeOutScraper]: it never raises, and each row of the table
    afterwards is a row the sweep left, or one written from a candidate
    extracted from a card that has an anchor with an [href]. *)
Lemma timeout_run_rows (env : Env) (w : World) :
  ∃ n w',
    TimeOutScraper.run_scraper env w = (Ok n, w') ∧
    ∀ i e', db w' !! i = Some e' →
      db (mark_expired_events "timeout" w).2 !! i = Some e' ∨
      (source e' = VStr "timeout" ∧
       ∃ url soup card link now d,
         page_content env url = Ok soup ∧ card ∈ TimeOutScraper.find_cards soup ∧
         find card "a" has_href = Some link ∧
         TimeOutScraper._extract_event_data env (TimeOutScraper.init env) now card = Some d ∧
         d !! "ticket_url" = Some (ticket_url e')).
Proof.
  unfold TimeOutScraper.run_scraper, run, run_body, TimeOutScraper.scrape. unfold_M.
  change (source_name (TimeOutScraper.init env)) with "timeout".
  destruct (mark_expired_events "timeout" w) as [[[]|e0] w0]; simpl; [|eauto].
  destruct (loop_running env); [eexists _, _; split; [reflexivity|]; eauto|].
  destruct (timeout_scrape_async_spec env (TimeOutScraper.init env) w0)
    as (r & w1 & m & Hs & Hdb & _ & _ & _ & _ & Horigin).
  rewrite Hs. destruct r as [events|e1]; [|exists 0%nat, w1; rewrite Hdb; eauto].
  destruct (save_all_rows (TimeOutScraper.init env) events 0 w1) as (n & w' & Hsave & _ & Hrows).
  rewrite Hsave. exists n, w'. split; [done|]. intros i e' Hi.
  destruct (Hrows i e' Hi) as [Hold|(Hsrc & d & Hd & Hu)].
  - left. by rewrite <- Hdb.
  - right. split; [exact Hsrc|].
    destruct (Horigin events d eq_refl Hd) as (k & now & Hpc).
    destruct (timeout_page_candidate_card env _ _ now d Hpc)
      as (soup & card & link & ? & ? & ? & ?).
    exists (TimeOutScraper.page_url env (TimeOutScraper.init env) k), soup, card, link, now, d. done.
Qed.

(** ** Date and ticket URL of an extracted candidate *)

Lemma omap_all_None {A B} (f : A → option B) (l : list A) :
  (∀ x, x ∈ l → f x = None) → omap f l = [].
Proof.
  induction l as [|x l IH]; [done|]. intros H. cbn [omap list_omap].
  rewrite (H x) by apply list_elem_of_here. apply IH.
  intros y Hy. apply H. by apply list_elem_of_further.
Qed.

Lemma eventbrite_parse_date_default (now : Z) (date_str : string) :
  (∀ fmt, fmt ∈ EventbriteScraper.date_formats →
     strptime (slice_to 20 date_str) fmt = None) →
  EventbriteScraper._parse_date now date_str = now + timedelta_days 7.
Proof. intros H. unfold EventbriteScraper._parse_date. by rewrite omap_all_None. Qed.

(** C4, as the code has it. For every eventbrite card that yields a
    candidate: when no date element is found, [date_time] is the current
    time; when a date element is found but none of the listed formats
    parses its text, [date_time] is the current time plus seven days. *)
Theorem eventbrite_date_default (env : Env) (self : BaseScraper) (now : Z)
    (card : Node) (d : Dict) :
  EventbriteScraper._extract_event_data env self now card = Some d →
  (EventbriteScraper.date_elem card = None → d !! "date_time" = Some (VTime now)) ∧
  (∀ elem,
     EventbriteScraper.date_elem card = Some elem →
     (∀ fmt, fmt ∈ EventbriteScraper.date_formats →
        strptime (slice_to 20 (get_text elem)) fmt = None) →
     d !! "date_time" = Some (VTime (now + timedelta_days 7))).
Proof.
  intros (link & _ & _ & Hdate & _)%eventbrite_extract_shape. split.
  - intros Hnone. by rewrite Hdate, Hnone.
  - intros elem Helem Hfmt. rewrite Hdate, Helem.
    by rewrite eventbrite_parse_date_default.
Qed.

Lemma startswith_nonempty (s p : string) :
  p ≠ EmptyString → startswith s p = true → s ≠ EmptyString.
Proof. intros Hp Hs ->. unfold startswith in Hs. by destruct p. Qed.

Lemma startswith_app (s p rest : string) :
  startswith s p = true → startswith (s +:+ rest) p = true.
Proof.
  unfold startswith. revert s. induction p as [|a p IH]; intros s.
  { by destruct (s +:+ rest). }
  destruct s as [|b s]; [done|]. simpl.
  destruct (ascii_dec a b); [apply IH|done].
Qed.

Lemma resolve_http (base href : string) :
  startswith base "http" = true →
  let s := if startswith href "/" then base +:+ href
           else if startswith href "http" then href
           else base +:+ "/" +:+ href in
  startswith s "http" = true.
Proof.
  intros Hb. simpl. destruct (startswith href "/"); [by apply startswith_app|].
  destruct (startswith href "http") eqn:Hh; [done|by apply startswith_app].
Qed.

(** C10. A candidate returned by either extractor carries a
    [ticket_url] that is a string, not empty, beginning with "http": the
    [href] of the card's first anchor, prefixed with the scraper's https
    base URL if it begins with "/", unchanged if it begins with "http",
    and prefixed with the base URL and "/" otherwise. *)
Theorem extracted_ticket_url_absolute (env : Env) (self : BaseScraper) (now : Z)
    (card : Node) (d : Dict) :
  (self = EventbriteScraper.init env ∧
   EventbriteScraper._extract_event_data env self now card = Some d) ∨
  (self = TimeOutScraper.init env ∧
   TimeOutScraper._extract_event_data env self now card = Some d) →
  ∃ link s,
    find card "a" has_href = Some link ∧
    d !! "ticket_url" = Some (VStr s) ∧
    (let href := default EmptyString (get link "href") in
     s = if startswith href "/" then base_url self +:+ href
         else if startswith href "http" then href
         else base_url self +:+ "/" +:+ href) ∧
    startswith (base_url self) "https://" = true ∧
    s ≠ EmptyString ∧
    startswith s "http" = true.
Proof.
  intros [[-> H]|[-> H]].
  - apply eventbrite_extract_shape in H as (link & Hlink & Hurl & _).
    exists link, (EventbriteScraper.resolve (EventbriteScraper.init env) (default EmptyString (get link "href"))).
    assert (Hs : startswith (EventbriteScraper.resolve (EventbriteScraper.init env)
                   (default EmptyString (get link "href"))) "http" = true)
      by (by apply resolve_http).
    split_and!; try done. by apply (startswith_nonempty _ "http").
  - apply timeout_extract_shape in H as (link & Hlink & Hurl & _).
    exists link, (TimeOutScraper.resolve (TimeOutScraper.init env) (default EmptyString (get link "href"))).
    assert (Hs : startswith (TimeOutScraper.resolve (TimeOutScraper.init env)
                   (default EmptyString (get link "href"))) "http" = true)
      by (by apply resolve_http).
    split_and!; try done. by apply (startswith_nonempty _ "http").
Qed.

(** ** Cards without a link *)

Lemma no_link_no_candidate (env : Env) (self : BaseScraper) (now : Z) (card : Node) :
  find card "a" has_href = None →
  EventbriteScraper._extract_event_data env self now card = None ∧
  TimeOutScraper._extract_event_data env self now card = None.
Proof.
  intros H. unfold_extract.
  unfold EventbriteScraper.link_elem, TimeOutScraper.link_elem. by rewrite H.
Qed.

(** C6. A card in which no anchor with an [href] is found makes either
    extractor return nothing; on a page, such a card adds nothing to the
    candidates the card loop collects; and a run of either scraper never
    raises and leaves in the table only rows the sweep left there and
    rows written from a candidate that came from a card with such an
    anchor. *)
Theorem no_href_never_persisted :
  (∀ env self now card,
     find card "a" has_href = None →
     EventbriteScraper._extract_event_data env self now card = None ∧
     TimeOutScraper._extract_event_data env self now card = None) ∧
  (∀ env self now before card after,
     find card "a" has_href = None →
     EventbriteScraper.extract_cards env self now (before ++ card :: after) =
       EventbriteScraper.extract_cards env self now (before ++ after) ∧
     TimeOutScraper.extract_cards env self now (before ++ card :: after) =
       TimeOutScraper.extract_cards env self now (before ++ after)) ∧
  (∀ env w, ∃ n w',
     EventbriteScraper.run_scraper env w = (Ok n, w') ∧
     ∀ i e', db w' !! i = Some e' →
       db (mark_expired_events "eventbrite" w).2 !! i = Some e' ∨
       (source e' = VStr "eventbrite" ∧
        ∃ url soup card link now d,
          page_content env url = Ok soup ∧ card ∈ EventbriteScraper.find_cards soup ∧
          find card "a" has_href = Some link ∧
          EventbriteScraper._extract_event_data env (EventbriteScraper.init env) now card = Some d ∧
          d !! "ticket_url" = Some (ticket_url e'))) ∧
  (∀ env w, ∃ n w',
     TimeOutScraper.run_scraper env w = (Ok n, w') ∧
     ∀ i e', db w' !! i = Some e' →
       db (mark_expired_events "timeout" w).2 !! i = Some e' ∨
       (source e' = VStr "timeout" ∧
        ∃ url soup card link now d,
          page_content env url = Ok soup ∧ card ∈ TimeOutScraper.find_cards soup ∧
          find card "a" has_href = Some link ∧
          TimeOutScraper._extract_event_data env (TimeOutScraper.init env) now card = Some d ∧
          d !! "ticket_url" = Some (ticket_url e'))).
Proof.
  split_and!.
  - apply no_link_no_candidate.
  - intros env self now before card after H.
    destruct (no_link_no_candidate env self now card H) as [He Ht].
    unfold EventbriteScraper.extract_cards, TimeOutScraper.extract_cards.
    rewrite !omap_app. cbn [omap list_omap]. by rewrite He, Ht.
  - apply eventbrite_run_rows.
  - apply timeout_run_rows.
Qed.

(** ** Failure isolation *)

Lemma run_one_world (scraper : Runner) (w : World) :
  run_one scraper w = (Ok tt, (run_method scraper w).2).
Proof.
  unfold run_one. unfold_M. by destruct (run_method scraper w) as [[n|e] w'].
Qed.

Lemma run_each_world (scrapers : list Runner) (w : World) :
  run_each scrapers w = (Ok tt, foldl (λ w scraper, (run_method scraper w).2) w scrapers).
Proof.
  revert w. induction scrapers as [|s scrapers IH]; intros w; [done|].
  simpl. unfold bindM. by rewrite run_one_world, IH.
Qed.

(** C7. An exception anywhere inside the body of [run] makes [run]
    return 0, and [run] never raises; when [_init_browser] raises, the
    eventbrite and timeout runs return 0; and a scheduling cycle
    runs every scraper in turn, each on the world the one before left,
    whether a [run] returned a count, returned 0 or raised. *)
Theorem run_failure_isolated :
  (∀ self scrape w e w1,
     run_body self scrape w = (Raise e, w1) → run self scrape w = (Ok 0%nat, w1)) ∧
  (∀ self scrape w, ∃ n w', run self scrape w = (Ok n, w')) ∧
  (∀ env w e handles,
     EventbriteScraper._init_browser env = (Raise e, handles) →
     TimeOutScraper._init_browser env = (Raise e, handles) →
     (∃ w', EventbriteScraper.run_scraper env w = (Ok 0%nat, w')) ∧
     (∃ w', TimeOutScraper.run_scraper env w = (Ok 0%nat, w'))) ∧
  (∀ scrapers w,
     run_each scrapers w =
       (Ok tt, foldl (λ w scraper, (run_method scraper w).2) w scrapers)) ∧
  (∀ env meetup w,
     let w1 := (EventbriteScraper.run_scraper env w).2 in
     let w2 := (run_method meetup w1).2 in
     let w3 := (TimeOutScraper.run_scraper env w2).2 in
     run_all_scrapers env meetup w = (Ok tt, w3)).
Proof.
  split_and!.
  - intros self scrape w e w1 H. unfold run, try_except. by rewrite H.
  - intros self scrape w. unfold run, try_except, ret.
    destruct (run_body self scrape w) as [[n|e] w']; eauto.
  - intros env w e handles Hie Hit.
    assert (He : ∀ w0, ∃ r w1,
      EventbriteScraper.scrape env (EventbriteScraper.init env) w0 = (r, w1) ∧
      (r = Ok [] ∨ raised r = true)).
    { intros w0. unfold EventbriteScraper.scrape, EventbriteScraper._scrape_async.
      destruct (loop_running env); [eexists _, _; split; [reflexivity|]; by right|].
      rewrite Hie.
      destruct (eventbrite_close_browser_world env handles w0) as ([[]|e'] & ->); eauto. }
    assert (Ht : ∀ w0, ∃ r w1,
      TimeOutScraper.scrape env (TimeOutScraper.init env) w0 = (r, w1) ∧
      (r = Ok [] ∨ raised r = true)).
    { intros w0. unfold TimeOutScraper.scrape, TimeOutScraper._scrape_async.
      destruct (loop_running env); [eexists _, _; split; [reflexivity|]; by right|].
      rewrite Hit.
      destruct (timeout_close_browser_world env handles w0) as ([[]|e'] & ->); eauto. }
    split.
    + unfold EventbriteScraper.run_scraper, run, run_body. unfold_M.
      destruct (mark_expired_events _ w) as [[[]|e0] w0]; [|eauto].
      destruct (He w0) as (r & w1 & -> & [->|Hr]); [eauto|].
      destruct r; [done|eauto].
    + unfold TimeOutScraper.run_scraper, run, run_body. unfold_M.
      destruct (mark_expired_events _ w) as [[[]|e0] w0]; [|eauto].
      destruct (Ht w0) as (r & w1 & -> & [->|Hr]); [eauto|].
      destruct r; [done|eauto].
  - apply run_each_world.
  - intros env meetup w. unfold run_all_scrapers, try_finally.
    by rewrite run_each_world.
Qed.

(** ** Page order and bound *)


(** ** The robots policy on an unreachable robots.txt *)

(** C3, at the failing input. With robots.txt unreachable the scraper is
    constructed, but [can_fetch] then answers [False] for the listing
    URL (as for every URL, see [robots_failure_denies_all]): the parser
    made in the [except] branch has read nothing, and a parser that has
    read nothing allows nothing. The run that follows fetches no page
    and saves nothing. *)
Theorem robots_unreachable_denies_fetch :
  robot_parser (EventbriteScraper.init env_robots_unreachable) = Some robotparser.new ∧
  can_fetch env_robots_unreachable (EventbriteScraper.init env_robots_unreachable)
    "https://www.eventbrite.com.au/d/australia--sydney/events/" = false ∧
  EventbriteScraper.run_scraper env_robots_unreachable empty_world = (Ok 0%nat, empty_world) ∧
  ∃ n w', EventbriteScraper.run_scraper env_ok empty_world = (Ok n, w') ∧ n = 3%nat.
Proof.
  split_and!; [by vm_compute..|]. eexists _, _. split; by vm_compute.
Qed.

(** ** The theorems on the sample data *)

(** A decidable proposition about closed data, by evaluation. *)
Ltac by_computation := solve_key.

Lemma save_event_upsert_witness :
  constraints (db empty_world) ∧
  candidate candidate_A ∧ candidate candidate_A_updated ∧
  candidate_A !! "ticket_url" = Some (VStr "https://x/e1") ∧
  candidate_A_updated !! "ticket_url" = Some (VStr "https://x/e1") ∧
  clock empty_world < t_2024_01_15 + microseconds 3600 ∧
  ∃ i e1 w1 e2 w2,
    save_event candidate_A empty_world = (Ok e1, w1) ∧
    save_event candidate_A_updated
      (mkWorld (db w1) (t_2024_01_15 + microseconds 3600) (requests w1)) = (Ok e2, w2) ∧
    match check_duplicate (VStr "https://x/e1") (db empty_world) with
    | Some (j, old) =>
        j = i ∧ db w1 = <[i := e1]> (db empty_world) ∧
        overwritten candidate_A (clock empty_world) old e1
    | None =>
        i = length (db empty_world) ∧ db w1 = db empty_world ++ [e1] ∧
        created_at e1 = VTime (clock empty_world) ∧
        (∀ key v, candidate_A !! key = Some v → getattr e1 key = Some v)
    end ∧
    db w2 = <[i := e2]> (db w1) ∧
    overwritten candidate_A_updated (t_2024_01_15 + microseconds 3600) e1 e2 ∧
    db w2 !! i = Some e2 ∧
    (∀ j e, db w2 !! j = Some e → ticket_url e = VStr "https://x/e1" → j = i) ∧
    ticket_url e2 = VStr "https://x/e1" ∧
    updated_at e1 = VTime (clock empty_world) ∧
    updated_at e2 = VTime (t_2024_01_15 + microseconds 3600) ∧
    (∃ t1, updated_at e1 = VTime t1 ∧ t1 < t_2024_01_15 + microseconds 3600).
Proof.
  assert (H1 : constraints (db empty_world)) by by_computation.
  assert (H2 : candidate candidate_A) by by_computation.
  assert (H3 : candidate candidate_A_updated) by by_computation.
  assert (H4 : candidate_A !! "ticket_url" = Some (VStr "https://x/e1")) by reflexivity.
  assert (H5 : candidate_A_updated !! "ticket_url" = Some (VStr "https://x/e1"))
    by reflexivity.
  assert (H6 : clock empty_world < t_2024_01_15 + microseconds 3600) by reflexivity.
  split_and!; [exact H1|exact H2|exact H3|exact H4|exact H5|exact H6|].
  exact (save_event_upsert candidate_A candidate_A_updated (VStr "https://x/e1")
           empty_world (t_2024_01_15 + microseconds 3600) H1 H2 H3 H4 H5 H6).
Defined.

Lemma mark_expired_events_sweep_witness :
  constraints (db world_two_rows) ∧
  ∃ w1 w2,
    mark_expired_events "timeout" world_two_rows = (Ok tt, w1) ∧
    mark_expired_events "timeout"
      (mkWorld (db w1) (t_2024_01_15 + microseconds 3600) (requests w1)) = (Ok tt, w2) ∧
    ∀ i e, db world_two_rows !! i = Some e →
      (stale "timeout" (clock world_two_rows) e →
         ∃ e1, db w1 !! i = Some e1 ∧ expires_at e1 = VTime (clock world_two_rows) ∧
               (∀ c, c ≠ c_expires_at → c ≠ c_updated_at → getcol e1 c = getcol e c) ∧
               db w2 !! i = Some e1) ∧
      (¬ stale "timeout" (clock world_two_rows) e → db w1 !! i = Some e) ∧
      (∀ t, date_time e = VTime t → clock world_two_rows - timedelta_days 1 ≤ t →
         db w1 !! i = Some e) ∧
      (expires_at e ≠ VNone → db w1 !! i = Some e).
Proof.
  assert (H1 : constraints (db world_two_rows)) by by_computation.
  split; [exact H1|].
  exact (mark_expired_events_sweep "timeout" world_two_rows
           (t_2024_01_15 + microseconds 3600) H1).
Defined.

(** C4, as the specification words it, fails on [card_tba]: the card has
    a date element, no format parses its text "TBA", and the candidate's
    [date_time] is not the current time: it is seven days later. *)
Lemma eventbrite_unparsable_date_is_not_now :
  ∃ d elem,
    EventbriteScraper._extract_event_data env_ok (EventbriteScraper.init env_ok)
      t_2024_01_15 card_tba = Some d ∧
    EventbriteScraper.date_elem card_tba = Some elem ∧
    (∀ fmt, fmt ∈ EventbriteScraper.date_formats →
       strptime (slice_to 20 (get_text elem)) fmt = None) ∧
    d !! "date_time" = Some (VTime (t_2024_01_15 + timedelta_days 7)) ∧
    d !! "date_time" ≠ Some (VTime t_2024_01_15).
Proof.
  eexists _, _. split; [by vm_compute|]. split; [by vm_compute|].
  split_and!.
  - intros fmt Hin. unfold EventbriteScraper.date_formats in Hin.
    repeat (apply elem_of_cons in Hin as [->|Hin]; [by vm_compute|]).
    by apply elem_of_nil in Hin.
  - by vm_compute.
  - by vm_compute.
Qed.

Lemma eventbrite_date_default_witness :
  ∃ d,
    EventbriteScraper._extract_event_data env_ok (EventbriteScraper.init env_ok)
      t_2024_01_15 card_tba = Some d ∧
    (EventbriteScraper.date_elem card_tba = None →
       d !! "date_time" = Some (VTime t_2024_01_15)) ∧
    (∀ elem,
       EventbriteScraper.date_elem card_tba = Some elem →
       (∀ fmt, fmt ∈ EventbriteScraper.date_formats →
          strptime (slice_to 20 (get_text elem)) fmt = None) →
       d !! "date_time" = Some (VTime (t_2024_01_15 + timedelta_days 7))).
Proof.
  eexists.
  assert (H : EventbriteScraper._extract_event_data env_ok (EventbriteScraper.init env_ok)
                t_2024_01_15 card_tba = Some _) by (vm_compute; reflexivity).
  split; [exact H|].
  exact (eventbrite_date_default env_ok (EventbriteScraper.init env_ok) t_2024_01_15
           card_tba _ H).
Defined.

Lemma expires_at_monotonic_witness :
  db world_two_rows !! 0%nat = Some row_old ∧
  let ops := [OpSweep "timeout"; OpUpsertTimeOut env_ok card_tba;
              OpTick (t_2024_01_15 + microseconds 3600); OpSweep "timeout"] in
  ∃ e', db (exec_all ops world_two_rows) !! 0%nat = Some e' ∧
    (expires_at row_old ≠ VNone → expires_at e' = expires_at row_old) ∧
    (existsb is_sweep ops = false → expires_at e' = expires_at row_old) ∧
    (expires_at e' ≠ expires_at row_old →
       expires_at row_old = VNone ∧ ∃ t, expires_at e' = VTime t) ∧
    (∀ j e'', existsb is_sweep ops = false → db world_two_rows !! j = None →
       db (exec_all ops world_two_rows) !! j = Some e'' → expires_at e'' = VNone).
Proof.
  assert (H : db world_two_rows !! 0%nat = Some row_old) by reflexivity.
  split; [exact H|].
  exact (expires_at_monotonic _ world_two_rows 0%nat row_old H).
Defined.

Lemma no_href_never_persisted_witness :
  find card_no_link "a" has_href = None ∧
  EventbriteScraper._extract_event_data env_ok (EventbriteScraper.init env_ok)
    t_2024_01_15 card_no_link = None ∧
  TimeOutScraper._extract_event_data env_ok (EventbriteScraper.init env_ok)
    t_2024_01_15 card_no_link = None.
Proof.
  assert (H : find card_no_link "a" has_href = None) by reflexivity.
  split; [exact H|].
  exact (proj1 no_href_never_persisted env_ok (EventbriteScraper.init env_ok)
           t_2024_01_15 card_no_link H).
Defined.

Lemma run_failure_isolated_witness :
  let self := EventbriteScraper.init env_ok in
  let scrape : M (list Dict) := raise (OtherError "browser") in
  run_body self scrape empty_world = (Raise (OtherError "browser"), empty_world) ∧
  run self scrape empty_world = (Ok 0%nat, empty_world).
Proof.
  intros self scrape.
  assert (H : run_body self scrape empty_world
              = (Raise (OtherError "browser"), empty_world)) by reflexivity.
  split; [exact H|].
  exact (proj1 run_failure_isolated self scrape empty_world _ _ H).
Defined.

Lemma extracted_ticket_url_absolute_witness :
  ∃ d,
    EventbriteScraper._extract_event_data env_ok (EventbriteScraper.init env_ok)
      t_2024_01_15 card_tba = Some d ∧
    ∃ link s,
      find card_tba "a" has_href = Some link ∧
      d !! "ticket_url" = Some (VStr s) ∧
      (let href := default EmptyString (get link "href") in
       s = if startswith href "/"
           then base_url (EventbriteScraper.init env_ok) +:+ href
           else if startswith href "http" then href
           else base_url (EventbriteScraper.init env_ok) +:+ "/" +:+ href) ∧
      startswith (base_url (EventbriteScraper.init env_ok)) "https://" = true ∧
      s ≠ EmptyString ∧
      startswith s "http" = true.
Proof.
  eexists.
  assert (H : EventbriteScraper._extract_event_data env_ok (EventbriteScraper.init env_ok)
                t_2024_01_15 card_tba = Some _) by (vm_compute; reflexivity).
  split; [exact H|].
  exact (extracted_ticket_url_absolute env_ok (EventbriteScraper.init env_ok)
           t_2024_01_15 card_tba _ (or_introl (conj eq_refl H))).
Defined.


(** * Further properties of the code *)

(** ** [save_event] and [check_duplicate] *)





(** X3. [save_event] writes the table at one place at most: there is an
    index such that every other row is as before; no row is removed and
    at most one is added; the clock and the browser are left alone. *)
Theorem save_event_touches_one_row (event_data : Dict) (w : World) :
  ∃ r w1 i,
    save_event event_data w = (r, w1) ∧
    clock w1 = clock w ∧ requests w1 = requests w ∧
    (length (db w) ≤ length (db w1) ≤ S (length (db w)))%nat ∧
    (∀ j, j ≠ i → db w1 !! j = db w !! j).
Proof.
  destruct (save_event_rows event_data w) as (r & w1 & Hs & Hc & Hr & Hcases).
  destruct Hcases as [[Hdb _]|[(i & old & Hold & Hu & Hdb & _)|(ne & Hnew & _ & Hdb & _)]].
  - exists r, w1, 0%nat. rewrite Hdb. split_and!; try done; lia.
  - exists r, w1, i. rewrite Hdb, length_insert. split_and!; try done; try lia.
    intros j Hj. by apply list_lookup_insert_ne.
  - exists r, w1, (length (db w)). rewrite Hdb, length_app. simpl.
    split_and!; try done; try lia.
    intros j Hj. destruct (decide (j < length (db w))%nat).
    + by apply lookup_app_l.
    + rewrite !lookup_ge_None_2; [done|lia|rewrite length_app; simpl; lia].
Qed.



(** X4. Ingesting the same candidate record a second time changes
    nothing of its record but [updated_at]: no row is added and every other column
    keeps the value the first ingestion left. *)
Theorem save_event_same_candidate_twice (event_data : Dict) (w : World) (t2 : Z) :
  constraints (db w) → candidate event_data →
  ∃ i e1 w1 e2 w2,
    save_event event_data w = (Ok e1, w1) ∧
    save_event event_data (mkWorld (db w1) t2 (requests w1)) = (Ok e2, w2) ∧
    db w1 !! i = Some e1 ∧
    db w2 = <[i := e2]> (db w1) ∧
    length (db w2) = length (db w1) ∧
    (∀ c, c ≠ c_updated_at → getcol e2 c = getcol e1 c) ∧
    updated_at e2 = VTime t2.
Proof.
  intros Hc Hcand.
  destruct (candidate_required event_data "ticket_url" Hcand) as (u & Hu & _); [solve_key|].
  (* after the first ingestion the record holds what the candidate supplies *)
  assert (∃ i e1 w1,
    save_event event_data w = (Ok e1, w1) ∧ constraints (db w1) ∧
    db w1 !! i = Some e1 ∧ ticket_url e1 = u ∧
    ∀ c v, c ≠ c_updated_at → event_data !! column_name c = Some v → getcol e1 c = v)
    as (i & e1 & w1 & Hs1 & Hc1 & Hi1 & Hurl1 & Hheld).
  { destruct (check_duplicate u (db w)) as [[j old]|] eqn:Hdup.
    - apply check_duplicate_Some in Hdup as [Hold <-].
      destruct (save_event_candidate_update event_data w j old Hc Hcand Hu Hold)
        as (Hs & Hc' & Hk & Hup & Hov).
      eexists j, _, _. split; [exact Hs|]. cbn [db with_db].
      split_and!; [done| |done|].
      + apply list_lookup_insert_eq. by eapply lookup_lt_Some.
      + intros c v Hne Hv. destruct (decide (c = c_ticket_url)) as [->|Hne'].
        * cbn [column_name getcol] in *. rewrite Hk. congruence.
        * rewrite Hov by done. by rewrite Hv.
    - destruct (save_event_candidate_insert event_data w u Hc Hcand Hu Hdup)
        as (row & Hs & Hc' & Hk & _ & _ & _ & Hget).
      eexists (length (db w)), row, _. split; [exact Hs|]. cbn [db with_db].
      split_and!; [done| |done|].
      + by rewrite lookup_app_r, Nat.sub_diag by lia.
      + intros c v _ Hv. specialize (Hget _ _ Hv). unfold getattr in Hget.
        rewrite column_of_name in Hget. simpl in Hget. congruence. }
  rewrite <- Hurl1 in Hu.
  destruct (save_event_candidate_update event_data (mkWorld (db w1) t2 (requests w1)) i e1
              Hc1 Hcand Hu Hi1) as (Hs2 & _ & Hk2 & Hup2 & Hov2).
  cbn [db clock requests] in Hs2, Hk2, Hup2, Hov2.
  eexists i, e1, w1, _, _. split; [exact Hs1|]. split; [exact Hs2|].
  cbn [db with_db]. split_and!; [done|done|by rewrite length_insert| |done].
  intros c Hne. destruct (decide (c = c_ticket_url)) as [->|Hne']; [exact Hk2|].
  rewrite Hov2 by done.
  destruct (event_data !! column_name c) as [v|] eqn:Hv; [|done].
  simpl. symmetry. by apply Hheld.
Qed.

Lemma save_event_same_candidate_twice_witness :
  constraints (db world_two_rows) ∧ candidate candidate_A ∧
  ∃ i e1 w1 e2 w2,
    save_event candidate_A world_two_rows = (Ok e1, w1) ∧
    save_event candidate_A (mkWorld (db w1) (t_2024_01_15 + 1) (requests w1)) = (Ok e2, w2) ∧
    db w1 !! i = Some e1 ∧
    db w2 = <[i := e2]> (db w1) ∧
    length (db w2) = length (db w1) ∧
    (∀ c, c ≠ c_updated_at → getcol e2 c = getcol e1 c) ∧
    updated_at e2 = VTime (t_2024_01_15 + 1).
Proof.
  assert (H1 : constraints (db world_two_rows)) by by_computation.
  assert (H2 : candidate candidate_A) by by_computation.
  split_and!; [exact H1|exact H2|].
  exact (save_event_same_candidate_twice candidate_A world_two_rows (t_2024_01_15 + 1) H1 H2).
Defined.

(** ** What the core never does to a record *)

(** [save_event] leaves a column of every existing row alone when the
    dict has no key for it (and [ticket_url] in any case). *)
Lemma save_event_keeps (event_data : Dict) (w : World) (c : column) :
  c ≠ c_updated_at →
  c = c_ticket_url ∨ event_data !! column_name c = None →
  ∀ i e, db w !! i = Some e →
    ∃ e', db (save_event event_data w).2 !! i = Some e' ∧ getcol e' c = getcol e c.
Proof.
  intros Hup Hkey i e Hi.
  destruct (save_event_rows event_data w) as (r & w1 & Hs & _ & _ & Hcases).
  rewrite Hs. cbn [snd].
  destruct Hcases as [[Hdb _]|[(j & old & Hold & Hu & Hdb & _)|(ne & Hnew & _ & Hdb & _)]];
    rewrite Hdb.
  - eauto.
  - destruct (decide (j = i)) as [->|Hne].
    + rewrite list_lookup_insert_eq by (by eapply lookup_lt_Some).
      eexists. split; [done|]. rewrite Hi in Hold. injection Hold as <-.
      rewrite getcol_setcol, decide_False by done. rewrite getcol_update_fields.
      case_decide; [done|]. destruct Hkey as [Hk|Hk]; [done|by rewrite Hk].
    + rewrite list_lookup_insert_ne by done. eauto.
  - rewrite lookup_app_l by (by eapply lookup_lt_Some). eauto.
Qed.

Lemma save_one_keeps (self : BaseScraper) (n : nat) (event_data : Dict) (w : World)
    (c : column) :
  c ≠ c_updated_at → c ≠ c_source →
  c = c_ticket_url ∨ event_data !! column_name c = None →
  ∀ i e, db w !! i = Some e →
    ∃ e', db (save_one self n event_data w).2 !! i = Some e' ∧ getcol e' c = getcol e c.
Proof.
  intros Hup Hsrc Hkey i e Hi. unfold save_one.
  set (d := <["source" := VStr (source_name self)]> event_data).
  assert (Hkey' : c = c_ticket_url ∨ d !! column_name c = None).
  { destruct Hkey as [?|Hk]; [by left|right]. unfold d.
    rewrite lookup_insert_ne; [done|]. intros Heq.
    by apply (column_name_inj c_source c) in Heq. }
  destruct (save_event_keeps d w c Hup Hkey' i e Hi) as (e' & He' & Hcol).
  destruct (save_event d w) as [[ev|x] w1]; [|eauto].
  pose proof (rate_limit_world self w1) as [Hdb _].
  destruct (rate_limit self w1) as [r w2]. cbn [snd] in *. rewrite Hdb. eauto.
Qed.

Lemma exec_keeps (op : core_op) (w : World) (c : column) :
  c ∈ identity_columns →
  ∀ i e, db w !! i = Some e →
    ∃ e', db (exec op w) !! i = Some e' ∧ getcol e' c = getcol e c.
Proof.
  intros Hc i e Hi.
  assert (Hcols : c ≠ c_updated_at ∧ c ≠ c_source ∧ c ≠ c_expires_at ∧
    ∀ d : Dict,
      (∀ key, key ∉ ["title"; "ticket_url"; "date_time"; "location"; "description";
                     "image_url"] → d !! key = None) →
      c = c_ticket_url ∨ d !! column_name c = None).
  { unfold identity_columns in Hc.
    repeat (apply elem_of_cons in Hc as [->|Hc];
      [split_and!; [done..|];
       intros d Hother; first [by left|right; apply Hother; solve_key]|]).
    by apply elem_of_nil in Hc. }
  destruct Hcols as (Hup & Hsrc & Hexp & Hkey).
  destruct op as [src|env card|env card|t]; simpl.
  - destruct (mark_expired_events_db src w) as ([Hdb|Hdb] & _); rewrite Hdb; [|eauto].
    rewrite list_lookup_fmap, Hi. simpl. eexists. split; [done|].
    unfold sweep_row. destruct (is_stale _ _ e); [|done].
    unfold expire. rewrite !getcol_setcol. by rewrite !decide_False.
  - destruct (EventbriteScraper._extract_event_data _ _ _ _) as [d|] eqn:Hex; simpl; [|eauto].
    apply save_one_keeps; try done. apply Hkey.
    by apply eventbrite_extract_shape in Hex as (? & _ & _ & _ & _ & _ & ?).
  - destruct (TimeOutScraper._extract_event_data _ _ _ _) as [d|] eqn:Hex; simpl; [|eauto].
    apply save_one_keeps; try done. apply Hkey.
    by apply timeout_extract_shape in Hex as (? & _ & _ & _ & _ & _ & ?).
  - eauto.
Qed.

(** X5. The core never deletes a record and never touches what
    identifies it or belongs to others: over any sequence of sweeps,
    upserts of extracted candidates and clock ticks, a stored record
    stays at its place with its [id], [ticket_url], [created_at] and
    [click_count] unchanged. *)
Theorem records_never_deleted (ops : list core_op) (w : World) (i : nat) (e : Event) :
  db w !! i = Some e →
  ∃ e', db (exec_all ops w) !! i = Some e' ∧
    event_id e' = event_id e ∧ ticket_url e' = ticket_url e ∧
    created_at e' = created_at e ∧ click_count e' = click_count e.
Proof.
  assert (H : ∀ c, c ∈ identity_columns → ∀ ops w e, db w !! i = Some e →
    ∃ e', db (exec_all ops w) !! i = Some e' ∧ getcol e' c = getcol e c).
  { intros c Hc ops'. induction ops' as [|op ops' IH]; intros w' e0 Hi; [by eauto|].
    rewrite exec_all_cons.
    destruct (exec_keeps op w' c Hc i e0 Hi) as (e1 & He1 & Heq1).
    destruct (IH (exec op w') e1 He1) as (e' & He' & Heq). exists e'. split; [done|congruence]. }
  intros Hi.
  destruct (H c_id ltac:(by_computation) ops w e Hi) as (e' & He' & H1).
  destruct (H c_ticket_url ltac:(by_computation) ops w e Hi) as (e2 & He2 & H2).
  destruct (H c_created_at ltac:(by_computation) ops w e Hi) as (e3 & He3 & H3).
  destruct (H c_click_count ltac:(by_computation) ops w e Hi) as (e4 & He4 & H4).
  rewrite He' in He2, He3, He4.
  injection He2 as <-. injection He3 as <-. injection He4 as <-.
  exists e'. done.
Qed.

Lemma records_never_deleted_witness :
  db world_two_rows !! 0%nat = Some row_old ∧
  let ops := [OpSweep "timeout"; OpUpsertTimeOut env_ok card_tba;
              OpTick (t_2024_01_15 + microseconds 3600); OpSweep "timeout"] in
  ∃ e', db (exec_all ops world_two_rows) !! 0%nat = Some e' ∧
    event_id e' = event_id row_old ∧ ticket_url e' = ticket_url row_old ∧
    created_at e' = created_at row_old ∧ click_count e' = click_count row_old.
Proof.
  assert (H : db world_two_rows !! 0%nat = Some row_old) by reflexivity.
  split; [exact H|]. exact (records_never_deleted _ world_two_rows 0%nat row_old H).
Defined.

(** ** The save loop: pace and count *)

Lemma save_event_clock (event_data : Dict) (w : World) :
  clock (save_event event_data w).2 = clock w.
Proof.
  destruct (save_event_rows event_data w) as (r & w1 & Hs & Hc & _). by rewrite Hs.
Qed.

Lemma save_one_paced (self : BaseScraper) (n : nat) (event_data : Dict) (w : World) :
  0 ≤ delay self →
  ∃ n' w1, save_one self n event_data w = (Ok n', w1) ∧
    (n' = n ∨ n' = S n) ∧
    clock w1 = clock w + microseconds (delay self * Z.of_nat (n' - n)).
Proof.
  intros Hd. unfold save_one.
  pose proof (save_event_clock (<["source" := VStr (source_name self)]> event_data) w) as Hc.
  destruct (save_event _ w) as [[e|x] w1]; cbn [snd] in Hc.
  - unfold rate_limit, time_sleep. rewrite decide_False by lia.
    eexists _, _. split; [reflexivity|]. split; [by right|]. cbn [clock].
    rewrite Hc. replace (S n - n)%nat with 1%nat by lia. f_equal. f_equal. lia.
  - eexists _, _. split; [reflexivity|]. split; [by left|].
    rewrite Hc, Nat.sub_diag. unfold microseconds. lia.
Qed.

(** X6. The save loop is paced by the rate limit: with a delay that is
    not negative, the loop counts at most one save per candidate and the
    clock moves on by exactly the delay for each save it counts. *)
Theorem save_loop_paced (self : BaseScraper) (events : list Dict) (n : nat) (w : World) :
  0 ≤ delay self →
  ∃ n' w',
    save_all self events n w = (Ok n', w') ∧
    (n ≤ n' ≤ n + length events)%nat ∧
    clock w' = clock w + microseconds (delay self * Z.of_nat (n' - n)).
Proof.
  intros Hd. revert n w. induction events as [|d events IH]; intros n w.
  - exists n, w. split; [done|]. split; [simpl; lia|].
    rewrite Nat.sub_diag. unfold microseconds. lia.
  - destruct (save_one_paced self n d w Hd) as (n1 & w1 & Hs1 & Hn1 & Hc1).
    destruct (IH n1 w1) as (n' & w' & Hs & Hn & Hc).
    exists n', w'. split; [simpl; unfold bindM; by rewrite Hs1|].
    split; [simpl; lia|]. rewrite Hc, Hc1. unfold microseconds.
    replace (Z.of_nat (n' - n)) with (Z.of_nat (n1 - n) + Z.of_nat (n' - n1)) by lia. lia.
Qed.

Lemma save_loop_paced_witness :
  0 ≤ delay (EventbriteScraper.init env_ok) ∧
  ∃ n' w',
    save_all (EventbriteScraper.init env_ok) [candidate_A; candidate_A_updated] 0 empty_world
      = (Ok n', w') ∧
    (0 ≤ n' ≤ 0 + length [candidate_A; candidate_A_updated])%nat ∧
    clock w' = clock empty_world
               + microseconds (delay (EventbriteScraper.init env_ok) * Z.of_nat (n' - 0)).
Proof.
  assert (H : 0 ≤ delay (EventbriteScraper.init env_ok)) by by_computation.
  split; [exact H|].
  exact (save_loop_paced (EventbriteScraper.init env_ok) [candidate_A; candidate_A_updated]
           0 empty_world H).
Defined.

(** A candidate record is always saved on a table within its constraints. *)
Lemma save_event_candidate_Ok (event_data : Dict) (w : World) :
  constraints (db w) → candidate event_data →
  ∃ e w1 i,
    save_event event_data w = (Ok e, w1) ∧ constraints (db w1) ∧
    db w1 !! i = Some e ∧ event_data !! "ticket_url" = Some (ticket_url e).
Proof.
  intros Hc Hcand.
  destruct (candidate_required event_data "ticket_url" Hcand) as (u & Hu & _); [solve_key|].
  destruct (check_duplicate u (db w)) as [[j old]|] eqn:Hdup.
  - apply check_duplicate_Some in Hdup as [Hold <-].
    destruct (save_event_candidate_update event_data w j old Hc Hcand Hu Hold)
      as (Hs & Hc' & Hk & _).
    eexists _, _, j. split; [exact Hs|]. cbn [db with_db]. split_and!; [done| |by rewrite Hk].
    apply list_lookup_insert_eq. by eapply lookup_lt_Some.
  - destruct (save_event_candidate_insert event_data w u Hc Hcand Hu Hdup)
      as (row & Hs & Hc' & Hk & _).
    eexists row, _, (length (db w)). split; [exact Hs|]. cbn [db with_db].
    split_and!; [done| |by rewrite Hk]. by rewrite lookup_app_r, Nat.sub_diag by lia.
Qed.

Lemma save_one_candidate (self : BaseScraper) (n : nat) (event_data : Dict) (w : World) :
  constraints (db w) →
  candidate (<["source" := VStr (source_name self)]> event_data) →
  ∃ w1 i e,
    save_one self n event_data w = (Ok (S n), w1) ∧ constraints (db w1) ∧
    db w1 !! i = Some e ∧ event_data !! "ticket_url" = Some (ticket_url e).
Proof.
  intros Hc Hcand. unfold save_one.
  destruct (save_event_candidate_Ok _ w Hc Hcand) as (e & w1 & i & Hs & Hc1 & Hi & Hu).
  rewrite Hs. pose proof (rate_limit_world self w1) as [Hdb _].
  destruct (rate_limit self w1) as [r w2]. cbn [snd] in Hdb.
  exists w2, i, e. rewrite Hdb. split_and!; try done.
  by rewrite lookup_insert_ne in Hu.
Qed.

Lemma save_all_candidates (self : BaseScraper) (events : list Dict) (n : nat) (w : World) :
  constraints (db w) →
  Forall (λ d, candidate (<["source" := VStr (source_name self)]> d)) events →
  ∃ w',
    save_all self events n w = (Ok (n + length events)%nat, w') ∧
    constraints (db w') ∧
    (∀ i e, db w !! i = Some e → ∃ e', db w' !! i = Some e' ∧ ticket_url e' = ticket_url e) ∧
    ∀ d, d ∈ events →
      ∃ i e, db w' !! i = Some e ∧ d !! "ticket_url" = Some (ticket_url e).
Proof.
  revert n w. induction events as [|d events IH]; intros n w Hc Hall.
  - exists w. simpl. unfold ret. rewrite Nat.add_0_r. split_and!; eauto.
    intros d Hd. by apply elem_of_nil in Hd.
  - apply Forall_cons in Hall as [Hd Hall].
    destruct (save_one_candidate self n d w Hc Hd) as (w1 & i & e & Hs1 & Hc1 & Hi & Hu).
    destruct (IH (S n) w1 Hc1 Hall) as (w' & Hs & Hc' & Hkeep & Hrest).
    exists w'. split_and!.
    + simpl. unfold bindM. rewrite Hs1, Hs. do 2 f_equal. lia.
    + done.
    + intros j e0 Hj.
      destruct (save_one_keeps self n d w c_ticket_url ltac:(done) ltac:(done)
                  ltac:(by left) j e0 Hj) as (e1 & He1 & Hk1).
      rewrite Hs1 in He1. cbn [snd] in He1.
      destruct (Hkeep j e1 He1) as (e' & He' & Hk'). exists e'. split; [done|].
      cbn [getcol] in Hk1. congruence.
    + intros d' [->|Hd']%elem_of_cons.
      * destruct (Hkeep i e Hi) as (e' & He' & Hk'). exists i, e'. split; [done|].
        by rewrite Hk'.
      * by apply Hrest.
Qed.

(** X7. No candidate record is dropped by the save loop: on a table
    within its constraints, if every candidate is, once stamped, a
    candidate record (required fields present, values of the types of
    their columns), the loop counts all of them, and afterwards the table
    holds a record under the [ticket_url] of each. *)
Theorem save_loop_saves_every_candidate (self : BaseScraper) (events : list Dict)
    (w : World) :
  constraints (db w) →
  Forall (λ d, candidate (<["source" := VStr (source_name self)]> d)) events →
  ∃ w',
    save_all self events 0 w = (Ok (length events), w') ∧
    constraints (db w') ∧
    ∀ d, d ∈ events →
      ∃ i e, db w' !! i = Some e ∧ d !! "ticket_url" = Some (ticket_url e).
Proof.
  intros Hc Hall.
  destruct (save_all_candidates self events 0%nat w Hc Hall) as (w' & Hs & Hc' & _ & Hrest).
  exists w'. done.
Qed.

Lemma save_loop_saves_every_candidate_witness :
  constraints (db world_two_rows) ∧
  Forall (λ d, candidate (<["source" := VStr (source_name (TimeOutScraper.init env_ok))]> d))
    [candidate_A; candidate_A_updated] ∧
  ∃ w',
    save_all (TimeOutScraper.init env_ok) [candidate_A; candidate_A_updated] 0 world_two_rows
      = (Ok (length [candidate_A; candidate_A_updated]), w') ∧
    constraints (db w') ∧
    ∀ d, d ∈ [candidate_A; candidate_A_updated] →
      ∃ i e, db w' !! i = Some e ∧ d !! "ticket_url" = Some (ticket_url e).
Proof.
  assert (H1 : constraints (db world_two_rows)) by by_computation.
  assert (H2 : Forall (λ d, candidate
                 (<["source" := VStr (source_name (TimeOutScraper.init env_ok))]> d))
                 [candidate_A; candidate_A_updated]) by by_computation.
  split_and!; [exact H1|exact H2|].
  exact (save_loop_saves_every_candidate _ _ _ H1 H2).
Defined.

(** ** The source stamp *)

(** A candidate record that is saved is stored with the source it carries. *)
Lemma save_event_candidate_source (event_data : Dict) (w : World) (name : string) :
  constraints (db w) → candidate event_data →
  event_data !! "source" = Some (VStr name) →
  ∃ e w1 i,
    save_event event_data w = (Ok e, w1) ∧ constraints (db w1) ∧
    db w1 !! i = Some e ∧ event_data !! "ticket_url" = Some (ticket_url e) ∧
    source e = VStr name.
Proof.
  intros Hc Hcand Hsrc.
  destruct (candidate_required event_data "ticket_url" Hcand) as (u & Hu & _); [solve_key|].
  destruct (check_duplicate u (db w)) as [[j old]|] eqn:Hdup.
  - apply check_duplicate_Some in Hdup as [Hold <-].
    destruct (save_event_candidate_update event_data w j old Hc Hcand Hu Hold)
      as (Hs & Hc' & Hk & _ & Hcols).
    eexists _, _, j. split; [exact Hs|]. cbn [db with_db].
    split_and!; [done| |by rewrite Hk|].
    + apply list_lookup_insert_eq. by eapply lookup_lt_Some.
    + specialize (Hcols c_source ltac:(done) ltac:(done)). cbn [getcol column_name] in Hcols.
      by rewrite Hsrc in Hcols.
  - destruct (save_event_candidate_insert event_data w u Hc Hcand Hu Hdup)
      as (row & Hs & Hc' & Hk & _ & _ & _ & Hget).
    eexists row, _, (length (db w)). split; [exact Hs|]. cbn [db with_db].
    split_and!; [done| |by rewrite Hk|].
    + by rewrite lookup_app_r, Nat.sub_diag by lia.
    + specialize (Hget "source" _ Hsrc). unfold getattr in Hget.
      change (column_of "source") with (Some c_source) in Hget. by injection Hget.
Qed.

(** One turn of the save loop stamps the candidate, whatever source it
    carried, and saves it. *)
Lemma save_one_stamped (self : BaseScraper) (n : nat) (event_data : Dict) (w : World) :
  constraints (db w) →
  candidate (<["source" := VStr (source_name self)]> event_data) →
  ∃ w1 i e,
    save_one self n event_data w = (Ok (S n), w1) ∧ constraints (db w1) ∧
    db w1 !! i = Some e ∧ event_data !! "ticket_url" = Some (ticket_url e) ∧
    source e = VStr (source_name self).
Proof.
  intros Hc Hcand. unfold save_one.
  destruct (save_event_candidate_source _ w (source_name self) Hc Hcand)
    as (e & w1 & i & Hs & Hc1 & Hi & Hu & Hsrc); [apply lookup_insert_eq|].
  rewrite Hs. pose proof (rate_limit_world self w1) as [Hdb _].
  destruct (rate_limit self w1) as [r w2]. cbn [snd] in Hdb.
  exists w2, i, e. rewrite Hdb. split_and!; try done.
  by rewrite lookup_insert_ne in Hu.
Qed.

(** A later turn leaves a stamped row in place, with its key and stamp. *)
Lemma save_one_keeps_stamp (self : BaseScraper) (n : nat) (event_data : Dict) (w : World)
    (i : nat) (e : Event) :
  db w !! i = Some e → source e = VStr (source_name self) →
  ∃ e', db (save_one self n event_data w).2 !! i = Some e' ∧
        ticket_url e' = ticket_url e ∧ source e' = VStr (source_name self).
Proof.
  intros Hi Hsrc.
  destruct (save_one_keeps self n event_data w c_ticket_url ltac:(done) ltac:(done)
              ltac:(by left) i e Hi) as (e' & He' & Hk).
  exists e'. split_and!; [done..|].
  destruct (save_one_rows self n event_data w) as (n' & w1 & Hs & _ & _ & Hrows).
  rewrite Hs in He'. cbn [snd] in He'.
  destruct (Hrows i e' He') as [Hold|[? _]]; [|done].
  rewrite Hi in Hold. by injection Hold as <-.
Qed.

Lemma save_all_stamped (self : BaseScraper) (events : list Dict) (n : nat) (w : World) :
  constraints (db w) →
  Forall (λ d, candidate (<["source" := VStr (source_name self)]> d)) events →
  ∃ w',
    save_all self events n w = (Ok (n + length events)%nat, w') ∧
    constraints (db w') ∧
    (∀ i e, db w !! i = Some e → source e = VStr (source_name self) →
       ∃ e', db w' !! i = Some e' ∧ ticket_url e' = ticket_url e ∧
             source e' = VStr (source_name self)) ∧
    ∀ d, d ∈ events →
      ∃ i e, db w' !! i = Some e ∧ d !! "ticket_url" = Some (ticket_url e) ∧
             source e = VStr (source_name self).
Proof.
  revert n w. induction events as [|d events IH]; intros n w Hc Hall.
  - exists w. simpl. unfold ret. rewrite Nat.add_0_r. split_and!; eauto.
    intros d Hd. by apply elem_of_nil in Hd.
  - apply Forall_cons in Hall as [Hd Hall].
    destruct (save_one_stamped self n d w Hc Hd) as (w1 & i & e & Hs1 & Hc1 & Hi & Hu & Hsrc).
    destruct (IH (S n) w1 Hc1 Hall) as (w' & Hs & Hc' & Hkeep & Hrest).
    exists w'. split_and!.
    + simpl. unfold bindM. rewrite Hs1, Hs. do 2 f_equal. lia.
    + done.
    + intros j e0 Hj Hsrc0.
      destruct (save_one_keeps_stamp self n d w j e0 Hj Hsrc0) as (e1 & He1 & Hk1 & Hs1').
      rewrite Hs1 in He1. cbn [snd] in He1.
      destruct (Hkeep j e1 He1 Hs1') as (e' & He' & Hk' & Hs'). exists e'.
      split_and!; [done| |done]. congruence.
    + intros d' [->|Hd']%elem_of_cons.
      * destruct (Hkeep i e Hi Hsrc) as (e' & He' & Hk' & Hs'). exists i, e'.
        split_and!; [done| |done]. by rewrite Hk'.
      * by apply Hrest.
Qed.

(** C9. The orchestrator stamps [source] on every candidate before it
    saves it, whatever source the candidate carried. On a table within
    its constraints, when [scrape] returns dicts that are candidate
    records once they are stamped, [run] saves every one of them
    (it returns their number), and afterwards the table holds, for each
    candidate, a record under its [ticket_url] whose [source] is the
    scraper's [source_name]; and every row of the table is either a row
    that was there when the save loop began, or a row written from one
    of the candidates and bearing the scraper's [source_name]. *)
Theorem run_stamps_source (self : BaseScraper) (scrape : M (list Dict)) (w w1 : World)
    (events : list Dict) :
  constraints (db w) →
  scrape (mark_expired_events (source_name self) w).2 = (Ok events, w1) →
  constraints (db w1) →
  Forall (λ d, candidate (<["source" := VStr (source_name self)]> d)) events →
  ∃ w',
    run self scrape w = (Ok (length events), w') ∧
    (∀ d, d ∈ events →
       ∃ i e, db w' !! i = Some e ∧ d !! "ticket_url" = Some (ticket_url e) ∧
              source e = VStr (source_name self)) ∧
    (∀ i e', db w' !! i = Some e' →
       db w1 !! i = Some e' ∨
       (source e' = VStr (source_name self) ∧
        ∃ d, d ∈ events ∧ d !! "ticket_url" = Some (ticket_url e'))).
Proof.
  intros Hc Hs Hc1 Hall.
  destruct (save_all_stamped self events 0%nat w1 Hc1 Hall) as (w' & Hsave & _ & _ & Hin).
  destruct (save_all_rows self events 0 w1) as (n & w'' & Hsave' & _ & Hrows).
  rewrite Hsave in Hsave'. injection Hsave' as <- <-.
  exists w'. split_and!; [|done..].
  unfold run, run_body. unfold_M.
  rewrite (mark_expired_events_run _ _ Hc) in Hs |- *. cbn [snd] in Hs.
  by rewrite Hs, Hsave.
Qed.

Lemma run_stamps_source_witness :
  constraints (db world_two_rows) ∧
  ret [candidate_A]
      (mark_expired_events (source_name (TimeOutScraper.init env_ok)) world_two_rows).2
    = (Ok [candidate_A],
       (mark_expired_events (source_name (TimeOutScraper.init env_ok)) world_two_rows).2) ∧
  constraints
    (db (mark_expired_events (source_name (TimeOutScraper.init env_ok)) world_two_rows).2) ∧
  Forall (λ d, candidate (<["source" := VStr (source_name (TimeOutScraper.init env_ok))]> d))
    [candidate_A] ∧
  ∃ w',
    run (TimeOutScraper.init env_ok) (ret [candidate_A]) world_two_rows
      = (Ok (length [candidate_A]), w') ∧
    (∀ d, d ∈ [candidate_A] →
       ∃ i e, db w' !! i = Some e ∧ d !! "ticket_url" = Some (ticket_url e) ∧
              source e = VStr (source_name (TimeOutScraper.init env_ok))) ∧
    (∀ i e', db w' !! i = Some e' →
       db (mark_expired_events (source_name (TimeOutScraper.init env_ok))
             world_two_rows).2 !! i = Some e' ∨
       (source e' = VStr (source_name (TimeOutScraper.init env_ok)) ∧
        ∃ d, d ∈ [candidate_A] ∧ d !! "ticket_url" = Some (ticket_url e'))).
Proof.
  assert (H1 : constraints (db world_two_rows)) by by_computation.
  assert (H3 : constraints
    (db (mark_expired_events (source_name (TimeOutScraper.init env_ok)) world_two_rows).2))
    by by_computation.
  assert (H4 : Forall (λ d, candidate
                 (<["source" := VStr (source_name (TimeOutScraper.init env_ok))]> d))
                 [candidate_A]) by by_computation.
  split_and!; [exact H1|reflexivity|exact H3|exact H4|].
  exact (run_stamps_source (TimeOutScraper.init env_ok) (ret [candidate_A]) world_two_rows
           _ [candidate_A] H1 eq_refl H3 H4).
Defined.

(** ** Bounds of a crawl *)

Lemma omap_length_le {A B : Type} (f : A → option B) (l : list A) :
  (length (omap f l) ≤ length l)%nat.
Proof.
  induction l as [|a l IH]; [done|]. cbn [omap list_omap].
  destruct (f a); simpl; lia.
Qed.

(** ** More on the crawl of [EventbriteScraper] *)

Lemma eventbrite_page_candidates_length (env : Env) (self : BaseScraper) (url : string) (now : Z) :
  (length (eventbrite_page_candidates env self url now) ≤ 50)%nat.
Proof.
  unfold eventbrite_page_candidates. destruct (can_fetch env self url); [|simpl; lia].
  destruct (page_goto env url); [|simpl; lia].
  destruct (page_content env url) as [soup|]; [|simpl; lia].
  unfold EventbriteScraper.extract_cards.
  etrans; [apply omap_length_le|]. rewrite length_take. lia.
Qed.

Lemma eventbrite_page_candidates_key (env : Env) (self : BaseScraper) (url : string) (now : Z)
    (d : Dict) :
  d ∈ eventbrite_page_candidates env self url now →
  ∃ s, d !! "ticket_url" = Some (VStr s) ∧ s ≠ EmptyString.
Proof.
  unfold eventbrite_page_candidates. destruct (can_fetch env self url); [|by intros ?%elem_of_nil].
  destruct (page_goto env url); [|by intros ?%elem_of_nil].
  destruct (page_content env url) as [soup|]; [|by intros ?%elem_of_nil].
  unfold EventbriteScraper.extract_cards. intros (card & _ & Hkeep)%list_elem_of_omap.
  unfold EventbriteScraper.keep in Hkeep.
  destruct (EventbriteScraper._extract_event_data env self now card) as [d'|] eqn:Hex; [|done].
  destruct (bool_decide _ && _) eqn:Hb; [|done]. injection Hkeep as ->.
  apply andb_true_iff in Hb as [_ Ht].
  apply eventbrite_extract_shape in Hex as (link & _ & Hurl & _).
  rewrite Hurl in Ht |- *. simpl in Ht. eexists. split; [done|].
  intros Hs. by rewrite Hs in Ht.
Qed.

Lemma eventbrite_pages_loop_length (env : Env) (self : BaseScraper) (page_nums : list nat)
    (all_events : list Dict) (w : World) :
  (length (EventbriteScraper.pages_loop env self page_nums all_events w).1
   ≤ length all_events + 50 * length page_nums)%nat.
Proof.
  revert all_events w. induction page_nums as [|p ps IH]; intros all_events w.
  { simpl. lia. }
  cbn [EventbriteScraper.pages_loop].
  destruct (eventbrite_scrape_page_run env self (EventbriteScraper.page_url env self p) w) as (w1 & Hsp & _).
  rewrite Hsp.
  pose proof (eventbrite_page_candidates_length env self (EventbriteScraper.page_url env self p)
                (clock w + microseconds 2)) as Hlen.
  case_decide.
  - cbn [fst]. rewrite length_app. simpl. lia.
  - unfold asyncio_sleep at 1. etrans; [apply IH|]. rewrite length_app. simpl. lia.
Qed.

(** ** More on the crawl of [TimeOutScraper] *)

Lemma timeout_page_candidates_length (env : Env) (self : BaseScraper) (url : string) (now : Z) :
  (length (timeout_page_candidates env self url now) ≤ 50)%nat.
Proof.
  unfold timeout_page_candidates. destruct (can_fetch env self url); [|simpl; lia].
  destruct (page_goto env url); [|simpl; lia].
  destruct (page_content env url) as [soup|]; [|simpl; lia].
  unfold TimeOutScraper.extract_cards.
  etrans; [apply omap_length_le|]. rewrite length_take. lia.
Qed.

Lemma timeout_page_candidates_key (env : Env) (self : BaseScraper) (url : string) (now : Z)
    (d : Dict) :
  d ∈ timeout_page_candidates env self url now →
  ∃ s, d !! "ticket_url" = Some (VStr s) ∧ s ≠ EmptyString.
Proof.
  unfold timeout_page_candidates. destruct (can_fetch env self url); [|by intros ?%elem_of_nil].
  destruct (page_goto env url); [|by intros ?%elem_of_nil].
  destruct (page_content env url) as [soup|]; [|by intros ?%elem_of_nil].
  unfold TimeOutScraper.extract_cards. intros (card & _ & Hkeep)%list_elem_of_omap.
  unfold TimeOutScraper.keep in Hkeep.
  destruct (TimeOutScraper._extract_event_data env self now card) as [d'|] eqn:Hex; [|done].
  destruct (bool_decide _ && _) eqn:Hb; [|done]. injection Hkeep as ->.
  apply andb_true_iff in Hb as [_ Ht].
  apply timeout_extract_shape in Hex as (link & _ & Hurl & _).
  rewrite Hurl in Ht |- *. simpl in Ht. eexists. split; [done|].
  intros Hs. by rewrite Hs in Ht.
Qed.

Lemma timeout_pages_loop_length (env : Env) (self : BaseScraper) (page_nums : list nat)
    (all_events : list Dict) (w : World) :
  (length (TimeOutScraper.pages_loop env self page_nums all_events w).1
   ≤ length all_events + 50 * length page_nums)%nat.
Proof.
  revert all_events w. induction page_nums as [|p ps IH]; intros all_events w.
  { simpl. lia. }
  cbn [TimeOutScraper.pages_loop].
  destruct (timeout_scrape_page_run env self (TimeOutScraper.page_url env self p) w) as (w1 & Hsp & _).
  rewrite Hsp.
  pose proof (timeout_page_candidates_length env self (TimeOutScraper.page_url env self p)
                (clock w + microseconds 2)) as Hlen.
  case_decide.
  - cbn [fst]. rewrite length_app. simpl. lia.
  - unfold asyncio_sleep at 1. etrans; [apply IH|]. rewrite length_app. simpl. lia.
Qed.

(** X8. A listing page is handled without ever raising and without
    touching the table; it yields at most 50 candidates, each with a
    non-empty [ticket_url]; a URL that robots.txt disallows is not
    requested and yields nothing, any other URL is requested exactly
    once; and a failed navigation yields nothing. *)
Theorem scrape_page_bounded (env : Env) (self : BaseScraper) (url : string) (w : World) :
  (∃ events w1,
     EventbriteScraper._scrape_page env self url w = (Ok events, w1) ∧
     db w1 = db w ∧
     (length events ≤ 50)%nat ∧
     (∀ d, d ∈ events → ∃ s, d !! "ticket_url" = Some (VStr s) ∧ s ≠ EmptyString) ∧
     (can_fetch env self url = false → events = [] ∧ requests w1 = requests w) ∧
     (can_fetch env self url = true → requests w1 = requests w ++ [url]) ∧
     (raised (page_goto env url) = true → events = [])) ∧
  (∃ events w1,
     TimeOutScraper._scrape_page env self url w = (Ok events, w1) ∧
     db w1 = db w ∧
     (length events ≤ 50)%nat ∧
     (∀ d, d ∈ events → ∃ s, d !! "ticket_url" = Some (VStr s) ∧ s ≠ EmptyString) ∧
     (can_fetch env self url = false → events = [] ∧ requests w1 = requests w) ∧
     (can_fetch env self url = true → requests w1 = requests w ++ [url]) ∧
     (raised (page_goto env url) = true → events = [])).
Proof.
  split.
  - destruct (eventbrite_scrape_page_run env self url w) as (w1 & Hs & Hdb & Hreq).
    eexists _, w1. split; [exact Hs|]. split_and!.
    + done.
    + apply eventbrite_page_candidates_length.
    + intros d. apply eventbrite_page_candidates_key.
    + intros Hcan. rewrite Hcan in Hreq. rewrite app_nil_r in Hreq.
      unfold eventbrite_page_candidates. by rewrite Hcan.
    + intros Hcan. by rewrite Hcan in Hreq.
    + intros Hgoto. unfold eventbrite_page_candidates.
      destruct (can_fetch env self url); [|done]. by destruct (page_goto env url).
  - destruct (timeout_scrape_page_run env self url w) as (w1 & Hs & Hdb & Hreq).
    eexists _, w1. split; [exact Hs|]. split_and!.
    + done.
    + apply timeout_page_candidates_length.
    + intros d. apply timeout_page_candidates_key.
    + intros Hcan. rewrite Hcan in Hreq. rewrite app_nil_r in Hreq.
      unfold timeout_page_candidates. by rewrite Hcan.
    + intros Hcan. by rewrite Hcan in Hreq.
    + intros Hgoto. unfold timeout_page_candidates.
      destruct (can_fetch env self url); [|done]. by destruct (page_goto env url).
Qed.

(** [asyncio.run]: from a running event loop [scrape] raises at once;
    otherwise it is the crawl. *)
Lemma eventbrite_scrape_cases (env : Env) (self : BaseScraper) (w : World) :
  (loop_running env = true ∧ EventbriteScraper.scrape env self w = (Raise RuntimeError, w)) ∨
  (loop_running env = false ∧ EventbriteScraper.scrape env self w = EventbriteScraper._scrape_async env self w).
Proof. unfold EventbriteScraper.scrape. destruct (loop_running env); [by left|by right]. Qed.

Lemma eventbrite_scrape_length (env : Env) (self : BaseScraper) (w : World)
    (events : list Dict) (w1 : World) :
  EventbriteScraper.scrape env self w = (Ok events, w1) → (length events ≤ 150)%nat.
Proof.
  destruct (eventbrite_scrape_cases env self w) as [[_ ->]|[_ ->]]; [done|].
  unfold EventbriteScraper._scrape_async.
  destruct (EventbriteScraper._init_browser env) as [[[]|e] handles].
  - pose proof (eventbrite_pages_loop_length env self EventbriteScraper.page_range [] w) as Hl.
    destruct (EventbriteScraper.pages_loop env self _ [] w) as [acc w0].
    destruct (EventbriteScraper._close_browser env handles w0) as [[[]|e'] w2]; [|done].
    intros [= <- <-]. simpl in Hl. lia.
  - destruct (EventbriteScraper._close_browser env handles w) as [[[]|e'] w2]; [|done].
    intros [= <- <-]. simpl. lia.
Qed.

Lemma eventbrite_scrape_bounded (env : Env) (self : BaseScraper) (w : World) :
  ∃ r w1,
    EventbriteScraper.scrape env self w = (r, w1) ∧ db w1 = db w ∧
    (∀ events, r = Ok events → (length events ≤ 150)%nat) ∧
    (loop_running env = false → browser_close env = Ok tt → playwright_stop env = Ok tt →
     raised r = false) ∧
    (loop_running env = true → r = Raise RuntimeError ∧ w1 = w).
Proof.
  destruct (eventbrite_scrape_cases env self w) as [[Hl Hs]|[Hl Hs]].
  - exists (Raise RuntimeError), w. split_and!; [done|done|done| |done].
    intros Hf. congruence.
  - destruct (eventbrite_scrape_async_spec env self w) as (r & w1 & n & Hs' & Hdb & _).
    exists r, w1. rewrite Hs. split_and!; [done|done| | |intros; congruence].
    + intros events ->. eapply eventbrite_scrape_length. by rewrite Hs.
    + intros _ Hc Hp. revert Hs'. unfold EventbriteScraper._scrape_async.
      destruct (EventbriteScraper._init_browser env) as [st handles].
      destruct (match st with Ok _ => _ | Raise _ => _ end) as [acc w0].
      unfold EventbriteScraper._close_browser. unfold_M. rewrite Hc, Hp.
      destruct (browser handles), (playwright handles); by intros [= <- <-].
Qed.

(** [asyncio.run]: from a running event loop [scrape] raises at once;
    otherwise it is the crawl. *)
Lemma timeout_scrape_cases (env : Env) (self : BaseScraper) (w : World) :
  (loop_running env = true ∧ TimeOutScraper.scrape env self w = (Raise RuntimeError, w)) ∨
  (loop_running env = false ∧ TimeOutScraper.scrape env self w = TimeOutScraper._scrape_async env self w).
Proof. unfold TimeOutScraper.scrape. destruct (loop_running env); [by left|by right]. Qed.

Lemma timeout_scrape_length (env : Env) (self : BaseScraper) (w : World)
    (events : list Dict) (w1 : World) :
  TimeOutScraper.scrape env self w = (Ok events, w1) → (length events ≤ 100)%nat.
Proof.
  destruct (timeout_scrape_cases env self w) as [[_ ->]|[_ ->]]; [done|].
  unfold TimeOutScraper._scrape_async.
  destruct (TimeOutScraper._init_browser env) as [[[]|e] handles].
  - pose proof (timeout_pages_loop_length env self TimeOutScraper.page_range [] w) as Hl.
    destruct (TimeOutScraper.pages_loop env self _ [] w) as [acc w0].
    destruct (TimeOutScraper._close_browser env handles w0) as [[[]|e'] w2]; [|done].
    intros [= <- <-]. simpl in Hl. lia.
  - destruct (TimeOutScraper._close_browser env handles w) as [[[]|e'] w2]; [|done].
    intros [= <- <-]. simpl. lia.
Qed.

Lemma timeout_scrape_bounded (env : Env) (self : BaseScraper) (w : World) :
  ∃ r w1,
    TimeOutScraper.scrape env self w = (r, w1) ∧ db w1 = db w ∧
    (∀ events, r = Ok events → (length events ≤ 100)%nat) ∧
    (loop_running env = false → browser_close env = Ok tt → playwright_stop env = Ok tt →
     raised r = false) ∧
    (loop_running env = true → r = Raise RuntimeError ∧ w1 = w).
Proof.
  destruct (timeout_scrape_cases env self w) as [[Hl Hs]|[Hl Hs]].
  - exists (Raise RuntimeError), w. split_and!; [done|done|done| |done].
    intros Hf. congruence.
  - destruct (timeout_scrape_async_spec env self w) as (r & w1 & n & Hs' & Hdb & _).
    exists r, w1. rewrite Hs. split_and!; [done|done| | |intros; congruence].
    + intros events ->. eapply timeout_scrape_length. by rewrite Hs.
    + intros _ Hc Hp. revert Hs'. unfold TimeOutScraper._scrape_async.
      destruct (TimeOutScraper._init_browser env) as [st handles].
      destruct (match st with Ok _ => _ | Raise _ => _ end) as [acc w0].
      unfold TimeOutScraper._close_browser. unfold_M. rewrite Hc, Hp.
      destruct (browser handles), (playwright handles); by intros [= <- <-].
Qed.

(** X9. A crawl never touches the table and is bounded: what [scrape]
    returns has at most 150 candidates for eventbrite and 100 for
    timeout. Called outside an event loop, it returns (rather than
    raises) whenever closing the browser and stopping the driver
    succeed, whatever the pages did. Called from a running event loop,
    as on the startup path of the server, it raises [RuntimeError] at
    once and does nothing else. *)
Theorem scrape_bounded (env : Env) (self : BaseScraper) (w : World) :
  (∃ r w1,
     EventbriteScraper.scrape env self w = (r, w1) ∧ db w1 = db w ∧
     (∀ events, r = Ok events → (length events ≤ 150)%nat) ∧
     (loop_running env = false → browser_close env = Ok tt → playwright_stop env = Ok tt →
      raised r = false) ∧
     (loop_running env = true → r = Raise RuntimeError ∧ w1 = w)) ∧
  (∃ r w1,
     TimeOutScraper.scrape env self w = (r, w1) ∧ db w1 = db w ∧
     (∀ events, r = Ok events → (length events ≤ 100)%nat) ∧
     (loop_running env = false → browser_close env = Ok tt → playwright_stop env = Ok tt →
      raised r = false) ∧
     (loop_running env = true → r = Raise RuntimeError ∧ w1 = w)).
Proof. split; [apply eventbrite_scrape_bounded|apply timeout_scrape_bounded]. Qed.

(** ** A whole run *)

Lemma eventbrite_scraped_candidates (env : Env) (w : World) (events : list Dict) (w1 : World) :
  EventbriteScraper.scrape env (EventbriteScraper.init env) w = (Ok events, w1) →
  db w1 = db w ∧
  Forall (λ d, candidate
    (<["source" := VStr (source_name (EventbriteScraper.init env))]> d)) events.
Proof.
  intros Hs.
  destruct (eventbrite_scrape_cases env (EventbriteScraper.init env) w) as [[_ Hc]|[_ Hc]];
    rewrite Hc in Hs; [done|].
  destruct (eventbrite_scrape_async_spec env (EventbriteScraper.init env) w)
    as (r & w' & m & Hs' & Hdb & _ & _ & _ & _ & Horigin).
  rewrite Hs in Hs'. injection Hs' as <- <-. split; [done|].
  apply Forall_forall. intros d Hd.
  destruct (Horigin events d eq_refl Hd) as (k & now & Hpc).
  destruct (eventbrite_page_candidate_card env _ _ now d Hpc) as (? & card & ? & _ & _ & _ & Hex).
  by eapply eventbrite_stamped_candidate.
Qed.

Lemma timeout_scraped_candidates (env : Env) (w : World) (events : list Dict) (w1 : World) :
  TimeOutScraper.scrape env (TimeOutScraper.init env) w = (Ok events, w1) →
  db w1 = db w ∧
  Forall (λ d, candidate
    (<["source" := VStr (source_name (TimeOutScraper.init env))]> d)) events.
Proof.
  intros Hs.
  destruct (timeout_scrape_cases env (TimeOutScraper.init env) w) as [[_ Hc]|[_ Hc]];
    rewrite Hc in Hs; [done|].
  destruct (timeout_scrape_async_spec env (TimeOutScraper.init env) w)
    as (r & w' & m & Hs' & Hdb & _ & _ & _ & _ & Horigin).
  rewrite Hs in Hs'. injection Hs' as <- <-. split; [done|].
  apply Forall_forall. intros d Hd.
  destruct (Horigin events d eq_refl Hd) as (k & now & Hpc).
  destruct (timeout_page_candidate_card env _ _ now d Hpc) as (? & card & ? & _ & _ & _ & Hex).
  by eapply timeout_stamped_candidate.
Qed.

Lemma run_counts (self : BaseScraper) (scrape : M (list Dict)) (w : World)
    (events : list Dict) (w1 : World) :
  constraints (db w) →
  scrape (mark_expired_events (source_name self) w).2 = (Ok events, w1) →
  db w1 = db (mark_expired_events (source_name self) w).2 →
  Forall (λ d, candidate (<["source" := VStr (source_name self)]> d)) events →
  ∃ w',
    run self scrape w = (Ok (length events), w') ∧
    constraints (db w') ∧
    ∀ d, d ∈ events →
      ∃ i e, db w' !! i = Some e ∧ d !! "ticket_url" = Some (ticket_url e).
Proof.
  intros Hc Hs Hdb Hall.
  pose proof (mark_expired_events_constraints (source_name self) w Hc) as Hc0.
  rewrite <- Hdb in Hc0.
  destruct (save_all_candidates self events 0%nat w1 Hc0 Hall) as (w' & Hsave & Hc' & _ & Hin).
  exists w'. split; [|done].
  unfold run, run_body. unfold_M.
  rewrite (mark_expired_events_run _ _ Hc) in Hs |- *. cbn [snd] in Hs.
  by rewrite Hs, Hsave.
Qed.

(** X10. A run counts exactly what the crawl found: on a table within
    its constraints, when [scrape] returns a list of candidates, [run]
    returns the length of that list (nothing is skipped by the save
    loop), and afterwards the table holds a record under the
    [ticket_url] of each of them. *)
Theorem run_counts_every_scraped_candidate (env : Env) (w : World) :
  constraints (db w) →
  (∀ events w1,
     EventbriteScraper.scrape env (EventbriteScraper.init env)
       (mark_expired_events "eventbrite" w).2 = (Ok events, w1) →
     ∃ w',
       EventbriteScraper.run_scraper env w = (Ok (length events), w') ∧
       constraints (db w') ∧
       ∀ d, d ∈ events →
         ∃ i e, db w' !! i = Some e ∧ d !! "ticket_url" = Some (ticket_url e)) ∧
  (∀ events w1,
     TimeOutScraper.scrape env (TimeOutScraper.init env)
       (mark_expired_events "timeout" w).2 = (Ok events, w1) →
     ∃ w',
       TimeOutScraper.run_scraper env w = (Ok (length events), w') ∧
       constraints (db w') ∧
       ∀ d, d ∈ events →
         ∃ i e, db w' !! i = Some e ∧ d !! "ticket_url" = Some (ticket_url e)).
Proof.
  intros Hc. split; intros events w1 Hs.
  - destruct (eventbrite_scraped_candidates env _ events w1 Hs) as [Hdb Hall].
    unfold EventbriteScraper.run_scraper.
    by apply (run_counts (EventbriteScraper.init env) _ w events w1).
  - destruct (timeout_scraped_candidates env _ events w1 Hs) as [Hdb Hall].
    unfold TimeOutScraper.run_scraper.
    by apply (run_counts (TimeOutScraper.init env) _ w events w1).
Qed.

Lemma run_counts_every_scraped_candidate_witness :
  constraints (db world_two_rows) ∧
  (∀ events w1,
     EventbriteScraper.scrape env_ok (EventbriteScraper.init env_ok)
       (mark_expired_events "eventbrite" world_two_rows).2 = (Ok events, w1) →
     ∃ w',
       EventbriteScraper.run_scraper env_ok world_two_rows = (Ok (length events), w') ∧
       constraints (db w') ∧
       ∀ d, d ∈ events →
         ∃ i e, db w' !! i = Some e ∧ d !! "ticket_url" = Some (ticket_url e)).
Proof.
  assert (H : constraints (db world_two_rows)) by by_computation.
  split; [exact H|]. exact (proj1 (run_counts_every_scraped_candidate env_ok _ H)).
Defined.

(** X11. A failure while closing the browser discards the crawl: when
    the browser starts but [browser.close()] raises, [scrape] raises
    after the pages were visited, so [run] returns 0 and saves nothing,
    whatever the pages held; the table is as the sweep left it. *)
Theorem close_failure_discards_crawl (env : Env) (w : World) (e : exn) :
  playwright_start env = Ok tt →
  chromium_launch env = Ok tt →
  browser_close env = Raise e →
  (∃ w',
     EventbriteScraper.run_scraper env w = (Ok 0%nat, w') ∧
     db w' = db (mark_expired_events "eventbrite" w).2) ∧
  (∃ w',
     TimeOutScraper.run_scraper env w = (Ok 0%nat, w') ∧
     db w' = db (mark_expired_events "timeout" w).2).
Proof.
  intros Hp Hl Hc. split.
  - unfold EventbriteScraper.run_scraper, run, run_body. unfold_M.
    change (source_name (EventbriteScraper.init env)) with "eventbrite".
    destruct (mark_expired_events "eventbrite" w) as [[[]|e0] w0]; cbn [snd]; [|eauto].
    destruct (eventbrite_scrape_cases env (EventbriteScraper.init env) w0) as [[_ ->]|[_ ->]];
      [eauto|].
    unfold EventbriteScraper._scrape_async, EventbriteScraper._init_browser.
    rewrite Hp, Hl.
    assert (Hw : ∀ w1, ∃ w2,
      EventbriteScraper._close_browser env (mkHandles true true) w1 = (Raise e, w2) ∧ w2 = w1).
    { intros w1. unfold EventbriteScraper._close_browser. unfold_M. cbn. rewrite Hc.
      by eexists. }
    destruct (page_open env) as [[]|e1].
    + pose proof (eventbrite_pages_loop_spec env (EventbriteScraper.init env)
                    EventbriteScraper.page_range [] w0)
        as (acc & w1 & m & Hloop & Hdb & _).
      rewrite Hloop. destruct (Hw w1) as (w2 & -> & ->). eauto.
    + destruct (Hw w0) as (w2 & -> & ->). eauto.
  - unfold TimeOutScraper.run_scraper, run, run_body. unfold_M.
    change (source_name (TimeOutScraper.init env)) with "timeout".
    destruct (mark_expired_events "timeout" w) as [[[]|e0] w0]; cbn [snd]; [|eauto].
    destruct (timeout_scrape_cases env (TimeOutScraper.init env) w0) as [[_ ->]|[_ ->]];
      [eauto|].
    unfold TimeOutScraper._scrape_async, TimeOutScraper._init_browser.
    rewrite Hp, Hl.
    assert (Hw : ∀ w1, ∃ w2,
      TimeOutScraper._close_browser env (mkHandles true true) w1 = (Raise e, w2) ∧ w2 = w1).
    { intros w1. unfold TimeOutScraper._close_browser. unfold_M. cbn. rewrite Hc.
      by eexists. }
    destruct (page_open env) as [[]|e1].
    + pose proof (timeout_pages_loop_spec env (TimeOutScraper.init env)
                    TimeOutScraper.page_range [] w0)
        as (acc & w1 & m & Hloop & Hdb & _).
      rewrite Hloop. destruct (Hw w1) as (w2 & -> & ->). eauto.
    + destruct (Hw w0) as (w2 & -> & ->). eauto.
Qed.

Lemma close_failure_discards_crawl_witness :
  playwright_start env_close_fails = Ok tt ∧
  chromium_launch env_close_fails = Ok tt ∧
  browser_close env_close_fails = Raise (OtherError "close") ∧
  (∃ w',
     EventbriteScraper.run_scraper env_close_fails world_two_rows = (Ok 0%nat, w') ∧
     db w' = db (mark_expired_events "eventbrite" world_two_rows).2) ∧
  (∃ w',
     TimeOutScraper.run_scraper env_close_fails world_two_rows = (Ok 0%nat, w') ∧
     db w' = db (mark_expired_events "timeout" world_two_rows).2).
Proof.
  split_and!; [reflexivity..|
    exact (proj1 (close_failure_discards_crawl env_close_fails world_two_rows _
                    eq_refl eq_refl eq_refl))|
    exact (proj2 (close_failure_discards_crawl env_close_fails world_two_rows _
                    eq_refl eq_refl eq_refl))].
Defined.

(** ** robots.txt by HTTP status *)

(** X12. When fetching robots.txt ends in an HTTP error status, the
    scraper built from it may fetch a URL exactly when the status is a
    4xx other than 401 and 403, whatever the URL: 401 and 403 forbid
    everything, other 4xx statuses allow everything, and any other
    status (a 5xx, say) forbids everything. *)
Theorem robots_status_policy (env : Env) (name base url : string) (code : Z) :
  robots_read env (urljoin base "/robots.txt") = HTTPError code →
  can_fetch env (BaseScraper_init env name base) url =
    bool_decide (400 ≤ code < 500 ∧ code ≠ 401 ∧ code ≠ 403).
Proof.
  intros Hr. unfold can_fetch, BaseScraper_init, _check_robots_txt. cbn [robot_parser].
  unfold robotparser.read. rewrite Hr.
  repeat case_decide; cbn; first [reflexivity | exfalso; lia].
Qed.

Lemma robots_status_policy_witness :
  robots_read env_ok (urljoin "https://www.timeout.com" "/robots.txt") = HTTPError 404 ∧
  can_fetch env_ok (BaseScraper_init env_ok "timeout" "https://www.timeout.com")
      "https://www.timeout.com/sydney/things-to-do" =
    bool_decide (400 ≤ 404 < 500 ∧ 404 ≠ 401 ∧ 404 ≠ 403).
Proof.
  split; [reflexivity|]. exact (robots_status_policy env_ok _ _ _ 404 eq_refl).
Defined.

(** ** Dates *)

Lemma digit_char_spec (n : Z) :
  0 ≤ n ≤ 9 → is_digit (digit_char n) = true ∧ digit_val (digit_char n) = n.
Proof.
  intros Hn.
  assert (n = 0 ∨ n = 1 ∨ n = 2 ∨ n = 3 ∨ n = 4 ∨ n = 5 ∨ n = 6 ∨ n = 7 ∨ n = 8 ∨ n = 9)
    as Hc by lia.
  destruct_or!; subst n; by vm_compute.
Qed.

Lemma match_Y_digits (a b c d : Z) (rest : string) :
  0 ≤ a ≤ 9 → 0 ≤ b ≤ 9 → 0 ≤ c ≤ 9 → 0 ≤ d ≤ 9 →
  match_Y (String (digit_char a) (String (digit_char b)
            (String (digit_char c) (String (digit_char d) rest)))) =
    [(1000 * a + 100 * b + 10 * c + d, rest)].
Proof.
  intros Ha Hb Hc Hd. unfold match_Y.
  destruct (digit_char_spec a Ha) as [-> ->], (digit_char_spec b Hb) as [-> ->],
    (digit_char_spec c Hc) as [-> ->], (digit_char_spec d Hd) as [-> ->].
  done.
Qed.

Lemma match_m_two_digits (m : Z) (rest : string) :
  1 ≤ m ≤ 12 →
  head (match_m (String (digit_char (m / 10)) (String (digit_char (m mod 10)) rest))) =
    Some (m, rest).
Proof.
  intros Hm.
  assert (m = 1 ∨ m = 2 ∨ m = 3 ∨ m = 4 ∨ m = 5 ∨ m = 6 ∨ m = 7 ∨ m = 8 ∨ m = 9 ∨
          m = 10 ∨ m = 11 ∨ m = 12) as Hc by lia.
  destruct_or!; subst m; by vm_compute.
Qed.

Lemma match_d_two_digits (d : Z) (rest : string) :
  1 ≤ d ≤ 31 →
  head (match_d (String (digit_char (d / 10)) (String (digit_char (d mod 10)) rest))) =
    Some (d, rest).
Proof.
  intros Hd.
  assert (d = 1 ∨ d = 2 ∨ d = 3 ∨ d = 4 ∨ d = 5 ∨ d = 6 ∨ d = 7 ∨ d = 8 ∨ d = 9 ∨ d = 10 ∨ d =
    11 ∨ d = 12 ∨ d = 13 ∨ d = 14 ∨ d = 15 ∨ d = 16 ∨ d = 17 ∨ d = 18 ∨ d = 19 ∨ d = 20
    ∨ d = 21 ∨ d = 22 ∨ d = 23 ∨ d = 24 ∨ d = 25 ∨ d = 26 ∨ d = 27 ∨ d = 28 ∨ d = 29 ∨ d
    = 30 ∨ d = 31) as Hc by lia.
  destruct_or!; subst d; by vm_compute.
Qed.

(** The first match of a pattern that begins with [it]. *)
Lemma match_items_head (it : fmt_item) (rest : list fmt_item) (acc acc' : fields)
    (s s' : string) (r : fields * string) :
  head (match_item it acc s) = Some (acc', s') →
  head (match_items rest acc' s') = Some r →
  head (match_items (it :: rest) acc s) = Some r.
Proof.
  intros H1 H2. cbn [match_items].
  destruct (match_item it acc s) as [|[a1 s1] more]; [done|].
  injection H1 as -> ->. cbn [flat_map].
  by destruct (match_items rest acc' s').
Qed.

Lemma head_fmap_Some {A B : Type} (f : A → B) (l : list A) (a : A) :
  head l = Some a → head (f <$> l) = Some (f a).
Proof. destruct l; [done|]. by intros [= ->]. Qed.

Lemma days_in_month_le (y m : Z) : days_in_month y m ≤ 31.
Proof.
  unfold days_in_month. destruct (_ && _); [lia|].
  destruct (Z.to_nat m) as [|[|[|[|[|[|[|[|[|[|[|[|[|n]]]]]]]]]]]]]; simpl; try lia.
  destruct n; simpl; lia.
Qed.

Lemma datetime_ymd_Some (y m d t : Z) :
  datetime_ymd y m d = Some t →
  1 ≤ y ≤ 9999 ∧ 1 ≤ m ≤ 12 ∧ 1 ≤ d ≤ 31 ∧ t = timedelta_days (ymd2ord y m d - 1).
Proof.
  unfold datetime_ymd. destruct (_ && _) eqn:Hb; [|done]. intros [= <-].
  repeat (apply andb_true_iff in Hb as [Hb ?]).
  pose proof (days_in_month_le y m). lia.
Qed.

(** [strptime] reads the ISO text of a valid date as that date. *)
Lemma strptime_iso (y m d t : Z) :
  datetime_ymd y m d = Some t → strptime (iso_date_text y m d) "%Y-%m-%d" = Some t.
Proof.
  intros Ht. pose proof (datetime_ymd_Some _ _ _ _ Ht) as (Hy & Hm & Hd & _).
  unfold strptime.
  change (scan_format "%Y-%m-%d")
    with (Some [FDir "Y"; FLit "-"; FDir "m"; FLit "-"; FDir "d"]%char).
  cbn [mbind option_bind merge_spaces].
  assert (Hhead : head (match_items [FDir "Y"; FLit "-"; FDir "m"; FLit "-"; FDir "d"]%char
                          (mkFields 1900 1 1) (iso_date_text y m d)) =
                  Some (mkFields y m d, EmptyString)).
  { unfold iso_date_text.
    eapply match_items_head.
    { cbn [match_item]. rewrite match_Y_digits by (Z.to_euclidean_division_equations; lia). cbn. reflexivity. }
    eapply match_items_head; [by cbn|].
    eapply match_items_head.
    { cbn [match_item]. erewrite head_fmap_Some by (by apply match_m_two_digits).
      cbn. reflexivity. }
    eapply match_items_head; [by cbn|].
    eapply match_items_head.
    { cbn [match_item]. erewrite head_fmap_Some by (by apply match_d_two_digits).
      cbn. reflexivity. }
    cbn. do 3 f_equal. Z.to_euclidean_division_equations; lia. }
  destruct (match_items _ _ _) as [|[acc s] more]; [done|].
  injection Hhead as -> ->. exact Ht.
Qed.

Lemma slice_to_iso (n : nat) (y m d : Z) :
  (10 ≤ n)%nat → slice_to n (iso_date_text y m d) = iso_date_text y m d.
Proof.
  intros Hn. do 10 (destruct n as [|n]; [lia|]). by destruct n.
Qed.

(** X13. Round trip of ISO dates: the text [YYYY-MM-DD] of a valid
    calendar date is parsed by [_parse_date] of either scraper to
    midnight of that very date, whatever the clock reads. *)
Theorem parse_date_iso_round_trip (now y m d t : Z) :
  datetime_ymd y m d = Some t →
  EventbriteScraper._parse_date now (iso_date_text y m d) = t ∧
  TimeOutScraper._parse_date now (iso_date_text y m d) = t.
Proof.
  intros Ht. pose proof (strptime_iso y m d t Ht) as Hs.
  unfold EventbriteScraper._parse_date, TimeOutScraper._parse_date,
    EventbriteScraper.date_formats, TimeOutScraper.date_formats.
  rewrite !slice_to_iso by lia. cbn [omap list_omap]. by rewrite Hs.
Qed.

Lemma parse_date_iso_round_trip_witness :
  datetime_ymd 2024 2 29 = Some (timedelta_days 738944) ∧
  EventbriteScraper._parse_date 0 (iso_date_text 2024 2 29) = timedelta_days 738944 ∧
  TimeOutScraper._parse_date 0 (iso_date_text 2024 2 29) = timedelta_days 738944.
Proof.
  assert (H : datetime_ymd 2024 2 29 = Some (timedelta_days 738944)) by reflexivity.
  split; [exact H|]. exact (parse_date_iso_round_trip 0 2024 2 29 _ H).
Defined.

Lemma strptime_midnight (text fmt : string) (t : Z) :
  strptime text fmt = Some t → ∃ days, 0 ≤ days ∧ t = timedelta_days days.
Proof.
  unfold strptime. destruct (scan_format fmt) as [items|]; [|done]. cbn [mbind option_bind].
  destruct (match_items _ _ _) as [|[acc [|? ?]] more]; try done.
  intros (Hy & Hm & Hd & ->)%datetime_ymd_Some.
  eexists. split; [|reflexivity].
  unfold ymd2ord, days_before_year, days_before_month.
  assert (0 ≤ nth (Z.to_nat (f_month acc))
                [0; 0; 31; 59; 90; 120; 151; 181; 212; 243; 273; 304; 334] 0).
  { generalize (Z.to_nat (f_month acc)). intros n.
    do 13 (destruct n as [|n]; [simpl; lia|]). destruct n; simpl; lia. }
  cbv zeta. destruct (_ && _); Z.to_euclidean_division_equations; lia.
Qed.

(** The first format that reads the text decides. *)
Lemma first_format_decides (text : string) (fmts : list string) (dflt : Z)
    (i : nat) (fmt : string) (t : Z) :
  fmts !! i = Some fmt → strptime text fmt = Some t →
  (∀ j fmt', (j < i)%nat → fmts !! j = Some fmt' → strptime text fmt' = None) →
  match omap (strptime text) fmts with
  | parsed :: _ => parsed
  | [] => dflt
  end = t.
Proof.
  revert i. induction fmts as [|f fmts IH]; intros i Hi Ht Hbefore; [done|].
  cbn [omap list_omap]. destruct i as [|i].
  - injection Hi as ->. by rewrite Ht.
  - rewrite (Hbefore 0%nat f ltac:(lia) eq_refl).
    apply (IH i); [done|done|].
    intros j fmt' Hj Hf. apply (Hbefore (S j) fmt'); [lia|done].
Qed.

(** X14. [_parse_date] returns what the first format that reads the
    text makes of it, and that is midnight of some day: a parsed date
    carries no time of day. Only when no format reads the text does it
    return the clock reading plus seven days. *)
Theorem parse_date_midnight_or_default (now : Z) (date_str : string) :
  ((∀ fmt, fmt ∈ EventbriteScraper.date_formats →
      strptime (slice_to 20 date_str) fmt = None) →
   EventbriteScraper._parse_date now date_str = now + timedelta_days 7) ∧
  (∀ i fmt t,
     EventbriteScraper.date_formats !! i = Some fmt →
     strptime (slice_to 20 date_str) fmt = Some t →
     (∀ j fmt', (j < i)%nat → EventbriteScraper.date_formats !! j = Some fmt' →
        strptime (slice_to 20 date_str) fmt' = None) →
     EventbriteScraper._parse_date now date_str = t ∧
     ∃ days, 0 ≤ days ∧ t = timedelta_days days) ∧
  ((∀ fmt, fmt ∈ TimeOutScraper.date_formats →
      strptime (slice_to 30 date_str) fmt = None) →
   TimeOutScraper._parse_date now date_str = now + timedelta_days 7) ∧
  (∀ i fmt t,
     TimeOutScraper.date_formats !! i = Some fmt →
     strptime (slice_to 30 date_str) fmt = Some t →
     (∀ j fmt', (j < i)%nat → TimeOutScraper.date_formats !! j = Some fmt' →
        strptime (slice_to 30 date_str) fmt' = None) →
     TimeOutScraper._parse_date now date_str = t ∧
     ∃ days, 0 ≤ days ∧ t = timedelta_days days).
Proof.
  split_and!.
  - intros Hnone. unfold EventbriteScraper._parse_date. by rewrite omap_all_None.
  - intros i fmt t Hi Ht Hbefore. split; [|by eapply strptime_midnight].
    unfold EventbriteScraper._parse_date. by eapply first_format_decides.
  - intros Hnone. unfold TimeOutScraper._parse_date. by rewrite omap_all_None.
  - intros i fmt t Hi Ht Hbefore. split; [|by eapply strptime_midnight].
    unfold TimeOutScraper._parse_date. by eapply first_format_decides.
Qed.

(** ** The fields of an extracted candidate *)

Lemma find_descendant (n : Node) (name : string) (flt : Node → bool) (elem : Node) :
  find n name flt = Some elem → elem ∈ descendants n.
Proof.
  unfold find, find_all. intros H%head_Some_elem_of.
  by apply list_elem_of_filter in H as [_ H].
Qed.

Lemma slice_to_length (n : nat) (s : string) : (String.length (slice_to n s) ≤ n)%nat.
Proof.
  unfold slice_to. revert s. induction n as [|n IH]; intros [|c s]; simpl; try lia.
  specialize (IH s). lia.
Qed.

Lemma eventbrite_extract_fields (env : Env) (self : BaseScraper) (now : Z) (card : Node) (d : Dict) :
  EventbriteScraper._extract_event_data env self now card = Some d →
  (∃ elem, elem ∈ descendants card ∧ d !! "title" = Some (VStr (get_text elem))) ∧
  (d !! "description" = Some VNone ∨
   ∃ s, d !! "description" = Some (VStr s) ∧ (String.length s ≤ 500)%nat) ∧
  (d !! "image_url" = Some VNone ∨
   ∃ s, d !! "image_url" = Some (VStr s) ∧
        (startswith s "http" = true ∨ startswith s (base_url self) = true)).
Proof.
  intros H. unfold_extract.
  destruct (EventbriteScraper.link_elem card) as [link|] eqn:Hlink; [|discriminate H].
  injection H as <-. unfold EventbriteScraper.link_elem in Hlink. split_and!; extract_lookup.
  - unfold or_else.
    destruct (find card "h2" any_tag) as [e|] eqn:H2;
      [exists e; split; [by eapply find_descendant|done]|].
    destruct (find card "h3" any_tag) as [e|] eqn:H3;
      [exists e; split; [by eapply find_descendant|done]|].
    destruct (find card "a" (class_matches (has_word "title"))) as [e|] eqn:Ha;
      [exists e; split; [by eapply find_descendant|done]|].
    rewrite Hlink. exists link. split; [by eapply find_descendant|done].
  - match goal with
    | |- context [match ?x with Some _ => VStr _ | None => VNone end] => destruct x
    end; [right|by left].
    eexists. split; [done|]. apply slice_to_length.
  - destruct (find card "img" any_tag) as [img|]; [|by left].
    match goal with
    | |- context [match ?x with Some _ => _ | None => VNone end] =>
        destruct x as [img_src|]
    end; [|by left].
    destruct (negb _); [by left|].
    destruct (startswith img_src "/") eqn:Hs.
    { right. eexists. split; [done|]. right. apply startswith_app.
      unfold startswith. clear. induction (base_url self) as [|a s IH]; [done|].
      simpl. by destruct (ascii_dec a a). }
    destruct (startswith img_src "http") eqn:Hh; [|by left].
    right. eexists. split; [done|]. by left.
Qed.

Lemma timeout_extract_fields (env : Env) (self : BaseScraper) (now : Z) (card : Node) (d : Dict) :
  TimeOutScraper._extract_event_data env self now card = Some d →
  (∃ elem, elem ∈ descendants card ∧ d !! "title" = Some (VStr (get_text elem))) ∧
  (d !! "description" = Some VNone ∨
   ∃ s, d !! "description" = Some (VStr s) ∧ (String.length s ≤ 500)%nat) ∧
  (d !! "image_url" = Some VNone ∨
   ∃ s, d !! "image_url" = Some (VStr s) ∧
        (startswith s "http" = true ∨ startswith s (base_url self) = true)).
Proof.
  intros H. unfold_extract.
  destruct (TimeOutScraper.link_elem card) as [link|] eqn:Hlink; [|discriminate H].
  injection H as <-. unfold TimeOutScraper.link_elem in Hlink. split_and!; extract_lookup.
  - unfold or_else.
    destruct (find card "h2" any_tag) as [e|] eqn:H2;
      [exists e; split; [by eapply find_descendant|done]|].
    destruct (find card "h3" any_tag) as [e|] eqn:H3;
      [exists e; split; [by eapply find_descendant|done]|].
    destruct (find card "a" (class_matches (has_word "title"))) as [e|] eqn:Ha;
      [exists e; split; [by eapply find_descendant|done]|].
    rewrite Hlink. exists link. split; [by eapply find_descendant|done].
  - match goal with
    | |- context [match ?x with Some _ => VStr _ | None => VNone end] => destruct x
    end; [right|by left].
    eexists. split; [done|]. apply slice_to_length.
  - destruct (find card "img" any_tag) as [img|]; [|by left].
    match goal with
    | |- context [match ?x with Some _ => _ | None => VNone end] =>
        destruct x as [img_src|]
    end; [|by left].
    destruct (negb _); [by left|].
    destruct (startswith img_src "/") eqn:Hs.
    { right. eexists. split; [done|]. right. apply startswith_app.
      unfold startswith. clear. induction (base_url self) as [|a s IH]; [done|].
      simpl. by destruct (ascii_dec a a). }
    destruct (startswith img_src "http") eqn:Hh; [|by left].
    right. eexists. split; [done|]. by left.
Qed.

(** X15. What an extracted candidate holds: its title is the text of
    an element of the card (the placeholder title of the source is
    never used, since a card without a link yields no candidate); its
    description is absent or at most 500 characters long; and its image
    address is absent, or begins with [http] or with the base address. *)
Theorem extracted_fields_bounded (env : Env) (self : BaseScraper) (now : Z)
    (card : Node) (d : Dict) :
  EventbriteScraper._extract_event_data env self now card = Some d ∨
  TimeOutScraper._extract_event_data env self now card = Some d →
  (∃ elem, elem ∈ descendants card ∧ d !! "title" = Some (VStr (get_text elem))) ∧
  (d !! "description" = Some VNone ∨
   ∃ s, d !! "description" = Some (VStr s) ∧ (String.length s ≤ 500)%nat) ∧
  (d !! "image_url" = Some VNone ∨
   ∃ s, d !! "image_url" = Some (VStr s) ∧
        (startswith s "http" = true ∨ startswith s (base_url self) = true)).
Proof.
  intros [H|H]; [by eapply eventbrite_extract_fields|by eapply timeout_extract_fields].
Qed.

Lemma extracted_fields_bounded_witness :
  ∃ d,
    TimeOutScraper._extract_event_data env_ok (TimeOutScraper.init env_ok)
      t_2024_01_15 card_dated = Some d ∧
    (∃ elem, elem ∈ descendants card_dated ∧ d !! "title" = Some (VStr (get_text elem))) ∧
    (d !! "description" = Some VNone ∨
     ∃ s, d !! "description" = Some (VStr s) ∧ (String.length s ≤ 500)%nat) ∧
    (d !! "image_url" = Some VNone ∨
     ∃ s, d !! "image_url" = Some (VStr s) ∧
          (startswith s "http" = true ∨
           startswith s (base_url (TimeOutScraper.init env_ok)) = true)).
Proof.
  eexists.
  assert (H : TimeOutScraper._extract_event_data env_ok (TimeOutScraper.init env_ok)
                t_2024_01_15 card_dated = Some _) by (vm_compute; reflexivity).
  split; [exact H|].
  exact (extracted_fields_bounded env_ok (TimeOutScraper.init env_ok)
           t_2024_01_15 card_dated _ (or_intror H)).
Defined.

(** ** Requests of a crawl *)

Lemma eventbrite_pages_loop_requests (env : Env) (self : BaseScraper) (page_nums : list nat)
    (all_events : list Dict) (w : World) (url : string) :
  url ∈ requests (EventbriteScraper.pages_loop env self page_nums all_events w).2 →
  url ∈ requests w ∨ can_fetch env self url = true.
Proof.
  revert all_events w. induction page_nums as [|p ps IH]; intros all_events w; [by left|].
  cbn [EventbriteScraper.pages_loop].
  destruct (eventbrite_scrape_page_run env self (EventbriteScraper.page_url env self p) w) as (w1 & Hsp & _ & Hreq).
  rewrite Hsp.
  assert (H1 : url ∈ requests w1 → url ∈ requests w ∨ can_fetch env self url = true).
  { rewrite Hreq. intros [?|Hin]%elem_of_app; [by left|]. right.
    destruct (can_fetch env self (EventbriteScraper.page_url env self p)) eqn:Hcan.
    - by apply list_elem_of_singleton in Hin as ->.
    - by apply elem_of_nil in Hin. }
  case_decide; [exact H1|].
  unfold asyncio_sleep at 1.
  intros Hin. apply IH in Hin. cbn [requests] in Hin. destruct Hin; [auto|by right].
Qed.

Lemma eventbrite_scrape_requests (env : Env) (self : BaseScraper) (w : World) (url : string) :
  url ∈ requests (EventbriteScraper.scrape env self w).2 →
  url ∈ requests w ∨ can_fetch env self url = true.
Proof.
  destruct (eventbrite_scrape_cases env self w) as [[_ ->]|[_ ->]]; [by left|].
  unfold EventbriteScraper._scrape_async.
  destruct (EventbriteScraper._init_browser env) as [[[]|e] handles].
  - pose proof (eventbrite_pages_loop_requests env self EventbriteScraper.page_range [] w url) as Hl.
    destruct (EventbriteScraper.pages_loop env self _ [] w) as [acc w0].
    destruct (eventbrite_close_browser_world env handles w0) as (rc & ->).
    by destruct rc.
  - destruct (eventbrite_close_browser_world env handles w) as (rc & ->).
    destruct rc; by left.
Qed.

Lemma timeout_pages_loop_requests (env : Env) (self : BaseScraper) (page_nums : list nat)
    (all_events : list Dict) (w : World) (url : string) :
  url ∈ requests (TimeOutScraper.pages_loop env self page_nums all_events w).2 →
  url ∈ requests w ∨ can_fetch env self url = true.
Proof.
  revert all_events w. induction page_nums as [|p ps IH]; intros all_events w; [by left|].
  cbn [TimeOutScraper.pages_loop].
  destruct (timeout_scrape_page_run env self (TimeOutScraper.page_url env self p) w) as (w1 & Hsp & _ & Hreq).
  rewrite Hsp.
  assert (H1 : url ∈ requests w1 → url ∈ requests w ∨ can_fetch env self url = true).
  { rewrite Hreq. intros [?|Hin]%elem_of_app; [by left|]. right.
    destruct (can_fetch env self (TimeOutScraper.page_url env self p)) eqn:Hcan.
    - by apply list_elem_of_singleton in Hin as ->.
    - by apply elem_of_nil in Hin. }
  case_decide; [exact H1|].
  unfold asyncio_sleep at 1.
  intros Hin. apply IH in Hin. cbn [requests] in Hin. destruct Hin; [auto|by right].
Qed.

Lemma timeout_scrape_requests (env : Env) (self : BaseScraper) (w : World) (url : string) :
  url ∈ requests (TimeOutScraper.scrape env self w).2 →
  url ∈ requests w ∨ can_fetch env self url = true.
Proof.
  destruct (timeout_scrape_cases env self w) as [[_ ->]|[_ ->]]; [by left|].
  unfold TimeOutScraper._scrape_async.
  destruct (TimeOutScraper._init_browser env) as [[[]|e] handles].
  - pose proof (timeout_pages_loop_requests env self TimeOutScraper.page_range [] w url) as Hl.
    destruct (TimeOutScraper.pages_loop env self _ [] w) as [acc w0].
    destruct (timeout_close_browser_world env handles w0) as (rc & ->).
    by destruct rc.
  - destruct (timeout_close_browser_world env handles w) as (rc & ->).
    destruct rc; by left.
Qed.

(** X16. The crawl never requests a page that robots.txt disallows:
    every URL that [scrape] adds to the requests made is one that
    [can_fetch] allows. *)
Theorem crawl_respects_robots (env : Env) (self : BaseScraper) (w : World) (url : string) :
  (url ∈ requests (EventbriteScraper.scrape env self w).2 →
   url ∈ requests w ∨ can_fetch env self url = true) ∧
  (url ∈ requests (TimeOutScraper.scrape env self w).2 →
   url ∈ requests w ∨ can_fetch env self url = true).
Proof. split; [apply eventbrite_scrape_requests|apply timeout_scrape_requests]. Qed.

(** ** The manual run *)

Lemma main_one_run (scraper : Runner) (total_events : nat) (w : World) :
  main_one scraper total_events w =
    (Ok (total_events + counted (run_method scraper w).1)%nat, (run_method scraper w).2).
Proof.
  unfold main_one. unfold_M. destruct (run_method scraper w) as [[n|e] w']; simpl; [done|].
  by rewrite Nat.add_0_r.
Qed.

(** X17. The manual run reports the sum of what the scrapers saved:
    once the database is initialised, the three scrapers run in turn,
    each on the world the one before left; the eventbrite and timeout
    runs always return a count, a Meetup run that raises counts as 0 and
    does not keep the timeout scraper from running; and the total is the
    sum of the counts. *)
Theorem main_total (env : Env) (init_db : M unit) (meetup : Runner) (w w0 : World) :
  init_db w = (Ok tt, w0) →
  ∃ n1 w1 r2 w2 n3 w3,
    EventbriteScraper.run_scraper env w0 = (Ok n1, w1) ∧
    run_method meetup w1 = (r2, w2) ∧
    TimeOutScraper.run_scraper env w2 = (Ok n3, w3) ∧
    main env init_db meetup w = (Ok (n1 + counted r2 + n3)%nat, w3).
Proof.
  intros Hinit.
  destruct (eventbrite_run_rows env w0) as (n1 & w1 & H1 & _).
  destruct (run_method meetup w1) as [r2 w2] eqn:H2.
  destruct (timeout_run_rows env w2) as (n3 & w3 & H3 & _).
  exists n1, w1, r2, w2, n3, w3. split_and!; try done.
  unfold main, try_finally. unfold_M. rewrite Hinit.
  cbn [main_each]. unfold bindM. rewrite !main_one_run. cbn [run_method].
  rewrite H1. cbn [fst snd]. rewrite H2. cbn [fst snd]. rewrite H3. done.
Qed.

Lemma main_total_witness :
  ret tt empty_world = (Ok tt, empty_world) ∧
  ∃ n1 w1 r2 w2 n3 w3,
    EventbriteScraper.run_scraper env_ok empty_world = (Ok n1, w1) ∧
    run_method failing_runner w1 = (r2, w2) ∧
    TimeOutScraper.run_scraper env_ok w2 = (Ok n3, w3) ∧
    main env_ok (ret tt) failing_runner empty_world = (Ok (n1 + counted r2 + n3)%nat, w3).
Proof.
  split; [reflexivity|].
  exact (main_total env_ok (ret tt) failing_runner empty_world empty_world eq_refl).
Defined.

(** ** Values of the wrong type, and a running event loop *)

(** A dict with a string under [date_time] is no candidate record, and
    it is not saved: the commit raises and the table is as before. *)
Lemma text_date_not_saved :
  ¬ candidate candidate_A_text_date ∧
  save_event candidate_A_text_date empty_world = (Raise StatementError, empty_world) ∧
  ∃ w', save_all (EventbriteScraper.init env_ok) [candidate_A_text_date] 0 empty_world
          = (Ok 0%nat, w') ∧ db w' = [].
Proof.
  split_and!; [by_computation|by vm_compute|].
  eexists. split; by vm_compute.
Qed.

(** From inside an event loop the run sweeps, fetches nothing and saves
    nothing. *)
Lemma run_in_event_loop (w : World) :
  ∃ w',
    EventbriteScraper.run_scraper env_in_loop w = (Ok 0%nat, w') ∧
    db w' = db (mark_expired_events "eventbrite" w).2 ∧
    requests w' = requests w.
Proof.
  unfold EventbriteScraper.run_scraper, run, run_body. unfold_M.
  change (source_name (EventbriteScraper.init env_in_loop)) with "eventbrite".
  pose proof (mark_expired_events_db "eventbrite" w) as (_ & _ & Hreq).
  destruct (mark_expired_events "eventbrite" w) as [[[]|e0] w0]; cbn [snd] in *; [|eauto].
  destruct (eventbrite_scrape_cases env_in_loop (EventbriteScraper.init env_in_loop) w0)
    as [[_ ->]|[Hl _]]; [eauto|done].
Qed.
